(** * Sports2DUnityBridge: a shallow embedding of the broadcast bridge

    The development follows [Sports2DUnityBridge.py]:

    - Python values handed to [send_data] ([PyVal]) and the normalisation
      [_convert_numpy_to_list];
    - [json.dumps] with its default options, as far as the bridge uses it;
    - the bridge object (client list, server socket) with its methods
      [start], [send_data] and [close], written in a small state and
      exception monad that records every externally visible action in a
      trace;
    - the limits of the interpreter that [send_data] can meet
      ([send_data_py]);
    - the configuration built for the producer and the coordinator
      [process_with_unity]. *)

From Stdlib Require Import List String Ascii ZArith NArith Bool Lia Arith.
From Stdlib Require Import Floats.SpecFloat Numbers.DecimalString.
Import ListNotations.

Set Warnings "-register-all".

(** ** Python values *)

(** Code points of a Python [str]. *)
Definition pystr := list N.

(** Keys of a Python [dict].  [KOther] stands for any other hashable key
    (a tuple, bytes, a frozenset, ...). *)
Inductive PyKey : Type :=
| KStr (s : pystr)
| KInt (z : Z)
| KFloat (f : spec_float)
| KBool (b : bool)
| KNone
| KOther (id : nat).

(** The values a frame record is made of.  A [dict] is kept as its items in
    insertion order.  [PNpFloat] and [PNpStr] are the instances of a
    subclass of [float] or [str] that has a [tolist] method, such as
    [numpy.float64] and [numpy.str_]: [tolist()] returns the plain float
    or string, and [json.dumps] writes them as it writes a float or a
    string.  [PArrayLike r] is any other object with a [tolist]
    attribute, one that is no instance of [int], [float], [str],
    [list], [tuple] or [dict] (a numpy array, a numpy integer, a pandas
    series, ...): [r] is what calling [tolist()] on it returns.
    [PObject] is any other object, one without [tolist]: a socket, a
    file, a lock. *)
Inductive PyVal : Type :=
| PNone
| PBool (b : bool)
| PInt (z : Z)
| PFloat (f : spec_float)
| PStr (s : pystr)
| PList (items : list PyVal)
| PTuple (items : list PyVal)
| PDict (items : list (PyKey * PyVal))
| PNpFloat (f : spec_float)
| PNpStr (s : pystr)
| PArrayLike (tolist : PyVal)
| PObject (id : nat).

(** A Python string literal, for examples. *)
Definition str (s : string) : pystr :=
  map N_of_ascii (list_ascii_of_string s).

(** [_convert_numpy_to_list] (lines 46-55): lists and dicts are rebuilt
    with every element converted, an object with [tolist] is replaced by
    the result of [tolist()], anything else is returned as it is.  The
    dict comprehension keeps the keys, each met once and in insertion
    order, so the rebuilt dict has the same items with converted
    values. *)
Fixpoint _convert_numpy_to_list (item : PyVal) : PyVal :=
  match item with
  | PList items => PList (map _convert_numpy_to_list items)
  | PDict items =>
      PDict (map (fun kv => (fst kv, _convert_numpy_to_list (snd kv))) items)
  | PNpFloat f => PFloat f
  | PNpStr s => PStr s
  | PArrayLike tolist => tolist
  | _ => item
  end.

(** Plain values: [None], booleans, numbers, strings, and lists and dicts
    of plain values. *)
Fixpoint plain (v : PyVal) : bool :=
  match v with
  | PNone | PBool _ | PInt _ | PFloat _ | PStr _ => true
  | PList items => forallb plain items
  | PDict items => forallb (fun kv => plain (snd kv)) items
  | PTuple _ | PNpFloat _ | PNpStr _ | PArrayLike _ | PObject _ => false
  end.

(** A nested numeric sequence: a number, or a list of nested numeric
    sequences (what [tolist()] of a numeric buffer returns). *)
Fixpoint numeric_nested (v : PyVal) : bool :=
  match v with
  | PInt _ | PFloat _ => true
  | PList items => forallb numeric_nested items
  | _ => false
  end.

(** Positions inside a record: an index into a list or a key of a dict. *)
Inductive step : Type :=
| Index (i : nat)
| Key (k : PyKey).

(** Equality of keys.  Keys of different types are taken to be different
    keys. *)
Definition key_eqb (a b : PyKey) : bool :=
  match a, b with
  | KStr s, KStr t => if list_eq_dec N.eq_dec s t then true else false
  | KInt x, KInt y => Z.eqb x y
  | KFloat x, KFloat y => SFeqb x y
  | KBool x, KBool y => Bool.eqb x y
  | KNone, KNone => true
  | KOther x, KOther y => Nat.eqb x y
  | _, _ => false
  end.

Fixpoint dict_get (k : PyKey) (items : list (PyKey * PyVal)) : option PyVal :=
  match items with
  | [] => None
  | (k', v) :: rest => if key_eqb k k' then Some v else dict_get k rest
  end.

(** [get p v]: the value found in [v] going down lists and dicts along [p]. *)
Fixpoint get (p : list step) (v : PyVal) : option PyVal :=
  match p with
  | [] => Some v
  | Index i :: q =>
      match v with
      | PList items =>
          match nth_error items i with
          | Some x => get q x
          | None => None
          end
      | _ => None
      end
  | Key k :: q =>
      match v with
      | PDict items =>
          match dict_get k items with
          | Some x => get q x
          | None => None
          end
      | _ => None
      end
  end.

(** A record whose array-like leaves all convert to plain values and whose
    other leaves are plain: what the producer is expected to hand over. *)
Fixpoint normalizable (v : PyVal) : bool :=
  match v with
  | PNone | PBool _ | PInt _ | PFloat _ | PStr _ => true
  | PList items => forallb normalizable items
  | PDict items => forallb (fun kv => normalizable (snd kv)) items
  | PNpFloat _ | PNpStr _ => true
  | PArrayLike r => plain r
  | PTuple _ | PObject _ => false
  end.

(** Every [tolist()] result met by the walk is left unchanged by the
    normalisation. *)
Fixpoint tolist_fixed (v : PyVal) : Prop :=
  match v with
  | PList items => fold_right (fun x P => tolist_fixed x /\ P) True items
  | PDict items =>
      fold_right (fun kv P => tolist_fixed (snd kv) /\ P) True items
  | PArrayLike r => _convert_numpy_to_list r = r
  | _ => True
  end.

(** Induction over values, with the hypothesis available for every element
    of a list, tuple or dict. *)
Section PyVal_induction.
Variable P : PyVal -> Prop.
Hypothesis HNone : P PNone.
Hypothesis HBool : forall b, P (PBool b).
Hypothesis HInt : forall z, P (PInt z).
Hypothesis HFloat : forall f, P (PFloat f).
Hypothesis HStr : forall s, P (PStr s).
Hypothesis HList : forall items, Forall P items -> P (PList items).
Hypothesis HTuple : forall items, Forall P items -> P (PTuple items).
Hypothesis HDict :
  forall items, Forall (fun kv => P (snd kv)) items -> P (PDict items).
Hypothesis HNpFloat : forall f, P (PNpFloat f).
Hypothesis HNpStr : forall s, P (PNpStr s).
Hypothesis HArrayLike : forall r, P r -> P (PArrayLike r).
Hypothesis HObject : forall id, P (PObject id).

Fixpoint PyVal_nested_ind (v : PyVal) : P v :=
  match v with
  | PNone => HNone
  | PBool b => HBool b
  | PInt z => HInt z
  | PFloat f => HFloat f
  | PStr s => HStr s
  | PList items =>
      HList items ((fix go (l : list PyVal) : Forall P l :=
                match l with
                | [] => Forall_nil P
                | x :: r => Forall_cons x (PyVal_nested_ind x) (go r)
                end) items)
  | PTuple items =>
      HTuple items ((fix go (l : list PyVal) : Forall P l :=
                 match l with
                 | [] => Forall_nil P
                 | x :: r => Forall_cons x (PyVal_nested_ind x) (go r)
                 end) items)
  | PDict items =>
      HDict items ((fix go (l : list (PyKey * PyVal))
                : Forall (fun kv => P (snd kv)) l :=
                match l with
                | [] => Forall_nil _
                | kv :: r =>
                    Forall_cons kv (PyVal_nested_ind (snd kv)) (go r)
                end) items)
  | PNpFloat f => HNpFloat f
  | PNpStr s => HNpStr s
  | PArrayLike r => HArrayLike r (PyVal_nested_ind r)
  | PObject id => HObject id
  end.
End PyVal_induction.

(** ** [json.dumps] with the default options

    [json.dumps(obj)] as [send_data] calls it: [ensure_ascii=True],
    [allow_nan=True], no indentation, separators [", "] and [": "],
    no [default] hook.  The result is [None] where Python raises
    [TypeError].  This is the serialiser on values that meet no limit
    of the interpreter; [dumps_limited] below is the serialiser with the
    limits on nesting and on the length of integers. *)

Definition dquote : ascii := "034"%char.
Definition backslash : ascii := "092"%char.
Definition newline : ascii := "010"%char.

(** The characters [float.__repr__] is made of. *)
Inductive repr_char : Type :=
| RDigit (d : N)
| RDot
| RExp
| RPlus
| RMinus.

Definition hex_chars : list ascii :=
  list_ascii_of_string "0123456789abcdef".

Definition hex_digit (n : N) : ascii :=
  nth (N.to_nat (n mod 16)) hex_chars "0"%char.

Definition repr_char_ascii (c : repr_char) : ascii :=
  match c with
  | RDigit d => nth (N.to_nat (d mod 10)) hex_chars "0"%char
  | RDot => "."%char
  | RExp => "e"%char
  | RPlus => "+"%char
  | RMinus => "-"%char
  end.

(** ['{0:04x}'.format(n)] for [n < 0x10000]. *)
Definition hex4 (n : N) : string :=
  String (hex_digit (n / 4096))
    (String (hex_digit (n / 256))
       (String (hex_digit (n / 16))
          (String (hex_digit n) EmptyString))).

Definition uescape (n : N) : string :=
  String backslash (String "u"%char (hex4 n)).

Definition esc (c : ascii) : string :=
  String backslash (String c EmptyString).

(** One code point under [encode_basestring_ascii]. *)
Definition encode_char (c : N) : string :=
  if (c =? 34)%N then esc dquote
  else if (c =? 92)%N then esc backslash
  else if (c =? 10)%N then esc "n"%char
  else if (c =? 13)%N then esc "r"%char
  else if (c =? 9)%N then esc "t"%char
  else if (c =? 12)%N then esc "f"%char
  else if (c =? 8)%N then esc "b"%char
  else if ((32 <=? c) && (c <=? 126))%N then String (ascii_of_N c) EmptyString
  else if (c <? 65536)%N then uescape c
  else
    let n := (c - 65536)%N in
    (uescape (N.lor 55296 (N.land (N.shiftr n 10) 1023))
       ++ uescape (N.lor 56320 (N.land n 1023)))%string.

Definition quoted (s : string) : string :=
  String dquote (s ++ String dquote EmptyString)%string.

Definition encode_basestring_ascii (s : pystr) : string :=
  quoted (String.concat EmptyString (map encode_char s)).

(** [int.__repr__] of an integer the interpreter prints.  Its cap on
    the number of digits is in [int_text] below. *)
Definition int_repr (z : Z) : string :=
  NilZero.string_of_int (Z.to_int z).

Section Traverse.
Variables (A B : Type) (f : A -> option B).

(** Apply [f] to every element; fail as soon as one application fails. *)
Fixpoint traverse (l : list A) : option (list B) :=
  match l with
  | [] => Some []
  | x :: r =>
      match f x with
      | Some y =>
          match traverse r with
          | Some ys => Some (y :: ys)
          | None => None
          end
      | None => None
      end
  end.
End Traverse.
Arguments traverse {A B} f l.

Section Json.
(** [float.__repr__] on finite floats: the shortest decimal string that
    reads back as the same float.  It belongs to the interpreter; the
    bridge only relies on it being made of digits, a point, an exponent
    mark and signs. *)
Variable float_repr : spec_float -> list repr_char.

Definition floatstr (f : spec_float) : string :=
  match f with
  | S754_nan => "NaN"
  | S754_infinity false => "Infinity"
  | S754_infinity true => "-Infinity"
  | _ => string_of_list_ascii (map repr_char_ascii (float_repr f))
  end.

(** A dict key as the encoder writes it; other keys raise [TypeError]. *)
Definition json_key (k : PyKey) : option string :=
  match k with
  | KStr s => Some (encode_basestring_ascii s)
  | KInt z => Some (quoted (int_repr z))
  | KFloat f => Some (quoted (floatstr f))
  | KBool true => Some (quoted "true")
  | KBool false => Some (quoted "false")
  | KNone => Some (quoted "null")
  | KOther _ => None
  end.

Fixpoint dumps (v : PyVal) : option string :=
  match v with
  | PNone => Some "null"%string
  | PBool true => Some "true"%string
  | PBool false => Some "false"%string
  | PInt z => Some (int_repr z)
  | PFloat f => Some (floatstr f)
  | PStr s => Some (encode_basestring_ascii s)
  | PList items | PTuple items =>
      match traverse dumps items with
      | Some parts =>
          Some ("[" ++ String.concat ", " parts ++ "]")%string
      | None => None
      end
  | PDict items =>
      match
        traverse
          (fun kv =>
             match json_key (fst kv), dumps (snd kv) with
             | Some k, Some s => Some (k ++ ": " ++ s)%string
             | _, _ => None
             end) items
      with
      | Some parts =>
          Some ("{" ++ String.concat ", " parts ++ "}")%string
      | None => None
      end
  | PNpFloat f => Some (floatstr f)
  | PNpStr s => Some (encode_basestring_ascii s)
  | PArrayLike _ | PObject _ => None
  end.

(** [json.dumps(data_to_send) + '\n'], encoded as UTF-8 (line 65-66).
    The text is ASCII, so its UTF-8 encoding is the text itself. *)
Definition encode_payload (v : PyVal) : option string :=
  match dumps v with
  | Some s => Some (s ++ String newline EmptyString)%string
  | None => None
  end.
End Json.

(** ** Sockets, exceptions and the trace of visible actions *)

(** A connected client socket, named by the order in which the operating
    system handed it out. *)
Definition sock := nat.

(** The exceptions the bridge meets.  [OSError] is [socket.error]. *)
Inductive exn : Type :=
| OSError
| TypeError
| ValueError
| RecursionError
| RuntimeError
| AttributeError
| KeyboardInterrupt.

(** [except Exception] catches everything but [KeyboardInterrupt]. *)
Definition is_Exception (e : exn) : bool :=
  match e with
  | KeyboardInterrupt => false
  | _ => true
  end.

(** How a call on a socket can fail: with [socket.error], or with some
    other exception below [Exception]. *)
Inductive failure : Type :=
| SocketError
| OtherError.

Definition exn_of (f : failure) : exn :=
  match f with
  | SocketError => OSError
  | OtherError => RuntimeError
  end.

(** What a call on a socket does: it returns or it raises. *)
Inductive op_result : Type :=
| Done
| Fails (f : failure).

(** What [sendall] does.  When it raises, some prefix of the payload may
    already have been written. *)
Inductive send_result : Type :=
| Sent
| SendFails (f : failure) (written : nat).

Inductive accept_result : Type :=
| Accepted (c : sock)
| AcceptFails (f : failure).

Inductive level : Type := INFO | WARNING | ERROR.

Inductive event : Type :=
| EvLog (lvl : level) (msg : string)
| EvAcquire
| EvRelease
| EvConvert
| EvDumps
| EvSendall (c : sock) (payload : string) (r : send_result)
| EvGetpeername (c : sock) (r : op_result)
| EvShutdown (c : sock) (r : op_result)
| EvClose (c : sock) (r : op_result)
| EvBind (r : op_result)
| EvListen (r : op_result)
| EvAccept (r : accept_result)
| EvServerClose (r : op_result)
| EvThreadStart (name : string) (r : op_result)
| EvIsAlive (alive : bool)
| EvJoin (timeout_ms : nat)
| EvCopy (members : list sock)
| EvRemove (c : sock).

(** How the sockets behave during one call of a bridge method. *)
Record sockets : Type := {
  sendall_result : sock -> send_result;
  getpeername_result : sock -> op_result;
  shutdown_result : sock -> op_result;
  close_result : sock -> op_result;
  server_close_result : op_result
}.

(** ** The bridge object *)

Inductive server_state : Type :=
| Created
| Bound
| Listening
| Closed.

(** [self.clients] and the state of [self.server_socket]. *)
Record bridge : Type := {
  clients : list sock;
  server_socket : server_state
}.

(** [Sports2DUnityBridge()] (lines 16-22). *)
Definition new_bridge : bridge :=
  {| clients := []; server_socket := Created |}.

(** ** A state, exception and trace monad *)

Inductive outcome (A : Type) : Type :=
| Return (a : A)
| Raise (e : exn).
Arguments Return {A} a.
Arguments Raise {A} e.

(** A computation reads and updates the bridge, returns or raises, and
    emits events in the order they happen. *)
Definition M (A : Type) : Type := bridge -> outcome A * bridge * list event.

Definition ret {A} (a : A) : M A := fun b => (Return a, b, []).

Definition raise {A} (e : exn) : M A := fun b => (Raise e, b, []).

Definition bind {A B} (m : M A) (k : A -> M B) : M B :=
  fun b =>
    match m b with
    | (Return a, b1, t1) =>
        match k a b1 with
        | (r, b2, t2) => (r, b2, t1 ++ t2)
        end
    | (Raise e, b1, t1) => (Raise e, b1, t1)
    end.

Declare Scope bridge_scope.
Delimit Scope bridge_scope with bridge.
Notation "x <- m ;; k" := (bind m (fun x => k))
  (at level 61, m at next level, right associativity) : bridge_scope.
Notation "m ;; k" := (bind m (fun _ => k))
  (at level 61, right associativity) : bridge_scope.
Open Scope bridge_scope.

Definition emit (e : event) : M unit := fun b => (Return tt, b, [e]).

Definition logging (lvl : level) (msg : string) : M unit :=
  emit (EvLog lvl msg).

Definition get_clients : M (list sock) := fun b => (Return (clients b), b, []).

Definition set_clients (cs : list sock) : M unit :=
  fun b => (Return tt, {| clients := cs; server_socket := server_socket b |}, []).

Definition set_server (s : server_state) : M unit :=
  fun b => (Return tt, {| clients := clients b; server_socket := s |}, []).

(** [try: body except ...: handler]: [handler e] is [None] when no
    [except] clause matches [e].  An exception raised by a handler is not
    caught by the other clauses of the same [try]. *)
Definition try_except {A} (body : M A) (handler : exn -> option (M A)) : M A :=
  fun b =>
    match body b with
    | (Return a, b1, t1) => (Return a, b1, t1)
    | (Raise e, b1, t1) =>
        match handler e with
        | Some h =>
            match h b1 with
            | (r, b2, t2) => (r, b2, t1 ++ t2)
            end
        | None => (Raise e, b1, t1)
        end
    end.

(** [with self.lock: body], in the thread that gets the lock: the lock
    is released however [body] ends.  A call that finds the lock held
    by another thread waits for it first; [close_at_shutdown] below is
    [close] in that situation. *)
Definition with_lock {A} (body : M A) : M A :=
  fun b =>
    match body b with
    | (r, b1, t1) => (r, b1, EvAcquire :: t1 ++ [EvRelease])
    end.

(** Run an operation whose result the environment decides. *)
Definition perform (ev : op_result -> event) (r : op_result) : M unit :=
  fun b =>
    match r with
    | Done => (Return tt, b, [ev r])
    | Fails f => (Raise (exn_of f), b, [ev r])
    end.

(** [client.sendall(payload)]. *)
Definition sendall (net : sockets) (c : sock) (payload : string) : M unit :=
  fun b =>
    match sendall_result net c with
    | Sent => (Return tt, b, [EvSendall c payload Sent])
    | SendFails f n =>
        (Raise (exn_of f), b, [EvSendall c payload (SendFails f n)])
    end.

(** [list.remove(x)]: drops the first occurrence. *)
Fixpoint list_remove (x : sock) (l : list sock) : option (list sock) :=
  match l with
  | [] => None
  | y :: r =>
      if Nat.eqb x y then Some r
      else match list_remove x r with
           | Some r' => Some (y :: r')
           | None => None
           end
  end.

(** [self.clients.remove(client)]; [ValueError] if it is not there. *)
Definition remove_client (c : sock) : M unit :=
  cs <- get_clients ;;
  match list_remove c cs with
  | Some cs' => emit (EvRemove c) ;; set_clients cs'
  | None => raise ValueError
  end.

(** The handler of lines 75-81.  The log message is formatted first, and
    formatting it calls [client.getpeername()]. *)
Definition on_socket_error (net : sockets) (client : sock) : M unit :=
  perform (EvGetpeername client) (getpeername_result net client) ;;
  logging WARNING "Socket error sending data. Removing client." ;;
  remove_client client ;;
  try_except (perform (EvClose client) (close_result net client))
    (fun _ => Some (ret tt)).

(** The [try] statement of lines 73-83, for one client. *)
Definition deliver (net : sockets) (payload : string) (client : sock)
  : M unit :=
  try_except (sendall net client payload)
    (fun e =>
       match e with
       | OSError => Some (on_socket_error net client)
       | _ =>
           if is_Exception e
           then Some (logging ERROR "Unexpected error sending data")
           else None
       end).

(** The loop of lines 72-83 over the copy [list(self.clients)]. *)
Fixpoint fan_out (net : sockets) (payload : string) (snapshot : list sock)
  : M unit :=
  match snapshot with
  | [] => ret tt
  | client :: rest => deliver net payload client ;; fan_out net payload rest
  end.

Definition lift {A} (o : outcome A) : M A := fun b => (o, b, []).

(** [None] from the serialiser is [TypeError]. *)
Definition or_TypeError {A} (o : option A) : outcome A :=
  match o with
  | Some a => Return a
  | None => Raise TypeError
  end.

(** Lines 63-69, given what serialising and encoding the record does
    ([encode]) and what formatting the log line of line 68, which
    interpolates the record, does ([format_error]); [None] when the
    [TypeError] handler returned. *)
Definition serialize_with (encode : outcome string)
  (format_error : outcome unit) : M (option string) :=
  try_except
    (emit EvDumps ;;
     encoded_payload <- lift encode ;;
     ret (Some encoded_payload))
    (fun e =>
       match e with
       | TypeError =>
           Some (lift format_error ;;
                 logging ERROR "JSON serialization error" ;;
                 ret None)
       | _ => None
       end).

(** [send_data] (lines 57-83), given what the interpreter and the
    libraries do: the outcome of the call
    [self._convert_numpy_to_list(data)], of [json.dumps] and the
    encoding on its result, and of formatting the log line. *)
Definition send_data_body (normalize : outcome PyVal)
  (encode : PyVal -> outcome string) (format_error : outcome unit)
  (net : sockets) : M unit :=
  cs <- get_clients ;;
  match cs with
  | [] => ret tt
  | _ :: _ =>
      emit EvConvert ;;
      data_to_send <- lift normalize ;;
      encoded <- serialize_with (encode data_to_send) format_error ;;
      match encoded with
      | None => ret tt
      | Some encoded_payload =>
          with_lock
            (snapshot <- get_clients ;;
             emit (EvCopy snapshot) ;;
             fan_out net encoded_payload snapshot)
      end
  end.

Section Bridge.
Variable float_repr : spec_float -> list repr_char.

(** [send_data] on a record that the serialiser takes without meeting a
    limit of the interpreter and that the log line can show, given what
    the normalisation does. *)
Definition send_data_with (normalize : outcome PyVal) (net : sockets)
  : M unit :=
  send_data_body normalize
    (fun data_to_send => or_TypeError (encode_payload float_repr data_to_send))
    (Return tt) net.

(** [send_data] on a record that is a finite tree of values and meets no
    limit of the interpreter: it nests less deeply than calls may nest
    and holds no integer too long to print. *)
Definition send_data (data : PyVal) (net : sockets) : M unit :=
  send_data_with (Return (_convert_numpy_to_list data)) net.

(** A sequence of [send_data] calls, as the producer's callback makes
    them; an exception that escapes a call ends the sequence. *)
Fixpoint send_all (calls : list (PyVal * sockets)) : M unit :=
  match calls with
  | [] => ret tt
  | (data, net) :: rest => send_data data net ;; send_all rest
  end.
End Bridge.

(** The loop of lines 89-96. *)
Fixpoint close_clients (net : sockets) (cs : list sock) : M unit :=
  match cs with
  | [] => ret tt
  | client :: rest =>
      try_except
        (perform (EvShutdown client) (shutdown_result net client) ;;
         perform (EvClose client) (close_result net client))
        (fun e =>
           match e with
           | OSError => Some (ret tt)
           | _ =>
               if is_Exception e
               then Some (logging ERROR "Error closing client socket")
               else None
           end) ;;
      close_clients net rest
  end.

(** [close] (lines 86-104). *)
Definition close (net : sockets) : M unit :=
  logging INFO "Closing server socket and all client connections." ;;
  with_lock
    (cs <- get_clients ;;
     close_clients net cs ;;
     set_clients []) ;;
  try_except
    (set_server Closed ;;
     perform EvServerClose (server_close_result net))
    (fun e =>
       match e with
       | OSError => Some (logging ERROR "Error closing server socket")
       | _ =>
           if is_Exception e
           then Some (logging ERROR "Unexpected error closing server socket")
           else None
       end).

(** ** The limits of the interpreter

    [send_data] runs in an interpreter that bounds how deeply calls may
    nest, how deeply [json.dumps] descends and how long an integer it
    prints may be, and formatting a record for a log line calls the
    [repr] of whatever it holds. *)

Record interpreter : Type := {
  (** nested calls of [_convert_numpy_to_list] still allowed when
      [send_data] calls it *)
  recursion_limit : nat;
  (** nested lists, tuples and dicts [json.dumps] still accepts *)
  encoder_depth : nat;
  (** [sys.get_int_max_str_digits()]; [None] where there is no cap *)
  max_str_digits : option nat;
  (** the exception raised by formatting the record in the log line of
      line 68, if any *)
  repr_raises : PyVal -> option exn
}.

(** [_convert_numpy_to_list] with [depth] nested calls left; [None] is
    [RecursionError]. *)
Fixpoint convert_limited (depth : nat) (item : PyVal) : option PyVal :=
  match depth with
  | 0 => None
  | S d =>
      match item with
      | PList items =>
          match traverse (convert_limited d) items with
          | Some l => Some (PList l)
          | None => None
          end
      | PDict items =>
          match
            traverse
              (fun kv =>
                 match convert_limited d (snd kv) with
                 | Some v => Some (fst kv, v)
                 | None => None
                 end) items
          with
          | Some l => Some (PDict l)
          | None => None
          end
      | PNpFloat f => Some (PFloat f)
      | PNpStr s => Some (PStr s)
      | PArrayLike tolist => Some tolist
      | _ => Some item
      end
  end.

(** The number of nested calls the normalisation of a record needs. *)
Fixpoint walk_depth (v : PyVal) : nat :=
  match v with
  | PList items => S (list_max (map walk_depth items))
  | PDict items => S (list_max (map (fun kv => walk_depth (snd kv)) items))
  | _ => 1
  end.

Section Traverse_outcome.
Variables (A B : Type) (f : A -> outcome B).

(** Apply [f] to every element in order; the first exception ends it. *)
Fixpoint traverse_out (l : list A) : outcome (list B) :=
  match l with
  | [] => Return []
  | x :: r =>
      match f x with
      | Return y =>
          match traverse_out r with
          | Return ys => Return (y :: ys)
          | Raise e => Raise e
          end
      | Raise e => Raise e
      end
  end.
End Traverse_outcome.
Arguments traverse_out {A B} f l.

Section Json_limited.
Variable I : interpreter.
Variable float_repr : spec_float -> list repr_char.

(** May an integer be printed? *)
Definition digits_ok (z : Z) : bool :=
  match max_str_digits I with
  | None => true
  | Some n => String.length (int_repr (Z.abs z)) <=? n
  end.

(** [int.__repr__]: [ValueError] for an integer with too many digits. *)
Definition int_text (z : Z) : outcome string :=
  if digits_ok z then Return (int_repr z) else Raise ValueError.

Definition json_key_limited (k : PyKey) : outcome string :=
  match k with
  | KInt z =>
      match int_text z with
      | Return s => Return (quoted s)
      | Raise e => Raise e
      end
  | _ => or_TypeError (json_key float_repr k)
  end.

(** [json.dumps] with [depth] levels of nesting left: [TypeError] for a
    value or key it cannot write, [ValueError] for an integer too long,
    [RecursionError] for a record nested too deeply, whichever it meets
    first going through the record in order. *)
Fixpoint dumps_limited (depth : nat) (v : PyVal) {struct v}
  : outcome string :=
  match v with
  | PInt z => int_text z
  | PList items | PTuple items =>
      match depth with
      | 0 => Raise RecursionError
      | S d =>
          match traverse_out (dumps_limited d) items with
          | Return parts =>
              Return ("[" ++ String.concat ", " parts ++ "]")%string
          | Raise e => Raise e
          end
      end
  | PDict items =>
      match depth with
      | 0 => Raise RecursionError
      | S d =>
          match
            traverse_out
              (fun kv =>
                 match json_key_limited (fst kv) with
                 | Return k =>
                     match dumps_limited d (snd kv) with
                     | Return s => Return (k ++ ": " ++ s)%string
                     | Raise e => Raise e
                     end
                 | Raise e => Raise e
                 end) items
          with
          | Return parts =>
              Return ("{" ++ String.concat ", " parts ++ "}")%string
          | Raise e => Raise e
          end
      end
  | _ => or_TypeError (dumps float_repr v)
  end.

(** Line 65-66 in this interpreter. *)
Definition encode_limited (v : PyVal) : outcome string :=
  match dumps_limited (encoder_depth I) v with
  | Return s => Return (s ++ String newline EmptyString)%string
  | Raise e => Raise e
  end.

Definition key_fits (k : PyKey) : bool :=
  match k with
  | KInt z => digits_ok z
  | _ => true
  end.

(** A value [json.dumps] goes through without meeting a limit: nested
    no deeper than [depth], with no integer too long to print. *)
Fixpoint fits (depth : nat) (v : PyVal) {struct v} : bool :=
  match v with
  | PInt z => digits_ok z
  | PList items | PTuple items =>
      match depth with
      | 0 => false
      | S d => forallb (fits d) items
      end
  | PDict items =>
      match depth with
      | 0 => false
      | S d => forallb (fun kv => key_fits (fst kv) && fits d (snd kv)) items
      end
  | _ => true
  end.

(** [send_data] (lines 57-83) in this interpreter. *)
Definition send_data_py (data : PyVal) (net : sockets) : M unit :=
  send_data_body
    (match convert_limited (recursion_limit I) data with
     | Some v => Return v
     | None => Raise RecursionError
     end)
    encode_limited
    (match repr_raises I data with
     | Some e => Raise e
     | None => Return tt
     end)
    net.
End Json_limited.

(** An interpreter with the usual settings, in which every record of the
    examples can be shown in a log line. *)
Definition cpython : interpreter :=
  {| recursion_limit := 1000;
     encoder_depth := 1000;
     max_str_digits := Some 4300;
     repr_raises := fun _ => None |}.

(** ** The acceptor *)

(** How the listening socket behaves during [start]: the results of [bind]
    and [listen], and what each [accept] call in turn does.  When the
    list of [accepts] runs out the thread stays blocked in [accept]. *)
Record listener : Type := {
  bind_result : op_result;
  listen_result : op_result;
  accepts : list accept_result
}.

(** A computation that may still be blocked: [None] for the result, with
    the bridge and the events so far. *)
Definition blocking (A : Type) : Type :=
  bridge -> option (outcome A) * bridge * list event.

(** Lines 25-31; [false] when the handler returned. *)
Definition listen_setup (L : listener) : M bool :=
  try_except
    (perform EvBind (bind_result L) ;;
     set_server Bound ;;
     perform EvListen (listen_result L) ;;
     set_server Listening ;;
     logging INFO "Waiting for Unity client" ;;
     ret true)
    (fun e =>
       match e with
       | OSError =>
           Some (logging ERROR "Failed to bind or listen on socket" ;;
                 ret false)
       | _ => None
       end).

(** Lines 33-44. *)
Fixpoint accept_loop (script : list accept_result) : blocking unit :=
  fun b =>
    match script with
    | [] => (None, b, [])
    | Accepted client_socket :: rest =>
        match
          (emit (EvAccept (Accepted client_socket)) ;;
           logging INFO "Unity client connected" ;;
           with_lock
             (cs <- get_clients ;;
              set_clients (cs ++ [client_socket]))) b
        with
        | (Return _, b1, t1) =>
            match accept_loop rest b1 with
            | (r, b2, t2) => (r, b2, t1 ++ t2)
            end
        | (Raise e, b1, t1) => (Some (Raise e), b1, t1)
        end
    | AcceptFails SocketError :: _ =>
        match
          (emit (EvAccept (AcceptFails SocketError)) ;;
           logging ERROR "Socket error in accept (server socket likely closed)") b
        with
        | (r, b1, t1) => (Some r, b1, t1)
        end
    | AcceptFails OtherError :: _ =>
        match
          (emit (EvAccept (AcceptFails OtherError)) ;;
           logging ERROR "Unexpected error in accept loop") b
        with
        | (r, b1, t1) => (Some r, b1, t1)
        end
    end.

(** [start] (lines 24-44). *)
Definition start (L : listener) : blocking unit :=
  fun b =>
    match listen_setup L b with
    | (Return true, b1, t1) =>
        match accept_loop (accepts L) b1 with
        | (r, b2, t2) => (r, b2, t1 ++ t2)
        end
    | (Return false, b1, t1) => (Some (Return tt), b1, t1)
    | (Raise e, b1, t1) => (Some (Raise e), b1, t1)
    end.

(** ** Records as object graphs

    A Python list or dict is a mutable object and may contain itself.
    [heap] gives the object behind every reference; [OValue] holds a
    value that is a finite tree. *)

Definition ref := nat.

Inductive obj : Type :=
| OValue (v : PyVal)
| OList (items : list ref)
| ODict (items : list (PyKey * ref)).

Definition heap := ref -> obj.

(** [_convert_numpy_to_list] on a reference.  [depth] is the number of
    nested calls the interpreter still allows; [None] is
    [RecursionError].  On a value that is a finite tree it is
    [convert_limited]. *)
Fixpoint convert_ref (depth : nat) (h : heap) (r : ref) : option PyVal :=
  match depth with
  | 0 => None
  | S d =>
      match h r with
      | OValue v => convert_limited depth v
      | OList items =>
          match traverse (convert_ref d h) items with
          | Some l => Some (PList l)
          | None => None
          end
      | ODict items =>
          match
            traverse
              (fun kv =>
                 match convert_ref d h (snd kv) with
                 | Some v => Some (fst kv, v)
                 | None => None
                 end) items
          with
          | Some l => Some (PDict l)
          | None => None
          end
      end
  end.

(** The finite tree a reference stands for, if there is one within
    [depth] levels. *)
Fixpoint unfold (depth : nat) (h : heap) (r : ref) : option PyVal :=
  match depth with
  | 0 => None
  | S d =>
      match h r with
      | OValue v => Some v
      | OList items =>
          match traverse (unfold d h) items with
          | Some l => Some (PList l)
          | None => None
          end
      | ODict items =>
          match
            traverse
              (fun kv =>
                 match unfold d h (snd kv) with
                 | Some v => Some (fst kv, v)
                 | None => None
                 end) items
          with
          | Some l => Some (PDict l)
          | None => None
          end
      end
  end.

(** [send_data] on a record given as a reference into a heap. *)
Definition send_data_ref (float_repr : spec_float -> list repr_char)
  (depth : nat) (h : heap) (r : ref) (net : sockets) : M unit :=
  send_data_with float_repr
    (match convert_ref depth h r with
     | Some v => Return v
     | None => Raise RecursionError
     end) net.

(** [a = []; a.append(a)]: a list whose only element is itself. *)
Definition self_list : heap := fun _ => OList [0].

(** ** The waits of the coordinator *)

(** The timeouts of the two [join] calls, lines 150 and 163. *)
Definition poll_timeout_ms : nat := 500.
Definition grace_timeout_ms : nat := 5000.

(** ** Observing a trace *)

Definition prefix_of (n : nat) (s : string) : string := substring 0 n s.

(** The payloads fully written to consumer [c], one per [sendall]. *)
Fixpoint sent_to (c : sock) (t : list event) : list string :=
  match t with
  | [] => []
  | EvSendall c' payload Sent :: rest =>
      if Nat.eqb c c' then payload :: sent_to c rest else sent_to c rest
  | _ :: rest => sent_to c rest
  end.

(** The bytes consumer [c] has been sent, partial writes included. *)
Fixpoint received_by (c : sock) (t : list event) : string :=
  match t with
  | [] => EmptyString
  | EvSendall c' payload r :: rest =>
      if Nat.eqb c c' then
        match r with
        | Sent => payload ++ received_by c rest
        | SendFails _ n => prefix_of n payload ++ received_by c rest
        end%string
      else received_by c rest
  | _ :: rest => received_by c rest
  end.

(** Every [sendall] the trace holds, whatever came of it. *)
Fixpoint sendall_calls (t : list event) : list (sock * string) :=
  match t with
  | [] => []
  | EvSendall c payload _ :: rest => (c, payload) :: sendall_calls rest
  | _ :: rest => sendall_calls rest
  end.

Definition is_socket_io (e : event) : bool :=
  match e with
  | EvSendall _ _ _ | EvGetpeername _ _ | EvShutdown _ _ | EvClose _ _ => true
  | _ => false
  end.

(** Is [self.lock] held after the events of [t], given whether it was held
    before? *)
Fixpoint lock_held (held : bool) (t : list event) : bool :=
  match t with
  | [] => held
  | EvAcquire :: rest => lock_held true rest
  | EvRelease :: rest => lock_held false rest
  | _ :: rest => lock_held held rest
  end.

(** Does every socket operation of [t] happen with the lock held? *)
Fixpoint io_under_lock (held : bool) (t : list event) : bool :=
  match t with
  | [] => true
  | EvAcquire :: rest => io_under_lock true rest
  | EvRelease :: rest => io_under_lock false rest
  | e :: rest =>
      (if is_socket_io e then held else true) && io_under_lock held rest
  end.

Definition is_acquire (e : event) : bool :=
  match e with
  | EvAcquire => true
  | _ => false
  end.

Definition is_lock_event (e : event) : bool :=
  match e with
  | EvAcquire | EvRelease => true
  | _ => false
  end.

Definition mem (c : sock) (l : list sock) : bool := existsb (Nat.eqb c) l.

Definition is_encoding (e : event) : bool :=
  match e with
  | EvConvert | EvDumps => true
  | _ => false
  end.

Definition is_accept (e : event) : bool :=
  match e with
  | EvAccept _ => true
  | _ => false
  end.

(** [close] logs this line first, and nothing else does. *)
Definition is_close_call (e : event) : bool :=
  match e with
  | EvLog INFO msg =>
      String.eqb msg "Closing server socket and all client connections."
  | _ => false
  end.

Definition is_grace_join (e : event) : bool :=
  match e with
  | EvJoin ms => Nat.eqb ms grace_timeout_ms
  | _ => false
  end.

Definition is_warning (e : event) : bool :=
  match e with
  | EvLog WARNING _ => true
  | _ => false
  end.

Definition count (p : event -> bool) (t : list event) : nat :=
  List.length (filter p t).


Definition no_newline (s : string) : Prop :=
  ~ In newline (list_ascii_of_string s).

(** The sockets on which every write succeeds. *)
Definition healthy (net : sockets) (c : sock) : Prop :=
  sendall_result net c = Sent.

(** A failed write is followed by a [getpeername()] that answers. *)
Definition peer_known (net : sockets) (c : sock) : Prop :=
  forall n, sendall_result net c = SendFails SocketError n ->
            getpeername_result net c = Done.

Definition write_failed (net : sockets) (c : sock) : bool :=
  match sendall_result net c with
  | SendFails SocketError _ => true
  | _ => false
  end.

(** The payloads of the records of [calls] that serialise, in order. *)
Definition encoded_records (float_repr : spec_float -> list repr_char)
  (calls : list (PyVal * sockets)) : list string :=
  flat_map
    (fun call =>
       match encode_payload float_repr (_convert_numpy_to_list (fst call)) with
       | Some payload => [payload]
       | None => []
       end) calls.


(** ** Projections of a run *)

Definition result_of {A} (x : A * bridge * list event) : A := fst (fst x).
Definition bridge_of {A} (x : A * bridge * list event) : bridge :=
  snd (fst x).
Definition events_of {A} (x : A * bridge * list event) : list event := snd x.

(** ** Concrete inputs for the examples *)

Fixpoint uint_digits (u : Decimal.uint) : list repr_char :=
  match u with
  | Decimal.Nil => []
  | Decimal.D0 r => RDigit 0 :: uint_digits r
  | Decimal.D1 r => RDigit 1 :: uint_digits r
  | Decimal.D2 r => RDigit 2 :: uint_digits r
  | Decimal.D3 r => RDigit 3 :: uint_digits r
  | Decimal.D4 r => RDigit 4 :: uint_digits r
  | Decimal.D5 r => RDigit 5 :: uint_digits r
  | Decimal.D6 r => RDigit 6 :: uint_digits r
  | Decimal.D7 r => RDigit 7 :: uint_digits r
  | Decimal.D8 r => RDigit 8 :: uint_digits r
  | Decimal.D9 r => RDigit 9 :: uint_digits r
  end.

(** [float.__repr__] on the floats that are whole numbers below [10^16],
    the only ones the examples use. *)
Definition repr_integral (f : spec_float) : list repr_char :=
  match f with
  | S754_zero s => (if s then [RMinus] else []) ++ [RDigit 0; RDot; RDigit 0]
  | S754_finite s m e =>
      if (e <? 0)%Z then []
      else
        (if s then [RMinus] else [])
          ++ uint_digits (N.to_uint (Npos m * 2 ^ Z.to_N e))
          ++ [RDot; RDigit 0]
  | _ => []
  end.

(** Sockets on which every call succeeds. *)
Definition all_fine : sockets :=
  {| sendall_result := fun _ => Sent;
     getpeername_result := fun _ => Done;
     shutdown_result := fun _ => Done;
     close_result := fun _ => Done;
     server_close_result := Done |}.

(** A listening bridge with the given consumers. *)
Definition serving (cs : list sock) : bridge :=
  {| clients := cs; server_socket := Listening |}.

(** The spec's scenario record, with the pose held in a numpy array. *)
Definition pose_record : PyVal :=
  PDict [(KStr (str "frame"), PInt 1);
         (KStr (str "pose"),
          PArrayLike (PList [PList [PFloat (S754_finite false 1 0);
                                    PFloat (S754_finite false 1 1)]]))].


(** An object array whose elements are arrays: [tolist()] returns a list
    that still holds arrays. *)
Definition ragged : PyVal :=
  PArrayLike (PList [PArrayLike (PList [PInt 1; PInt 2]);
                     PArrayLike (PList [PInt 3])]).


Definition lock_free (t : list event) : bool :=
  forallb (fun e => negb (is_lock_event e)) t.


(** What one consumer is sent by one fan-out. *)
Definition share (net : sockets) (p : string) (c : sock) : list string :=
  match sendall_result net c with
  | Sent => [p]
  | SendFails _ _ => []
  end.


(** The bytes of one payload that reach one consumer. *)
Definition written (net : sockets) (p : string) (c : sock) : string :=
  match sendall_result net c with
  | Sent => p
  | SendFails _ n => prefix_of n p
  end.

(** The byte stream made of payloads written one after the other. *)
Definition stream (payloads : list string) : string :=
  fold_right String.append EmptyString payloads.

(** A payload is one line: text without a line break, then the
    delimiter. *)
Definition one_line (payload : string) : Prop :=
  exists s, payload = (s ++ String newline EmptyString)%string
            /\ no_newline s.

(** Sockets on which the write to consumer [1] fails because the peer has
    gone, and [getpeername()] on that socket fails as well. *)
Definition peer_gone : sockets :=
  {| sendall_result :=
       fun c => if Nat.eqb c 1 then SendFails SocketError 0 else Sent;
     getpeername_result :=
       fun c => if Nat.eqb c 1 then Fails SocketError else Done;
     shutdown_result := fun _ => Done;
     close_result := fun _ => Done;
     server_close_result := Done |}.

(** The record [{"frame": 3}] of the spec's scenario. *)
Definition frame3 : PyVal := PDict [(KStr (str "frame"), PInt 3)].

(** A record that holds a socket. *)
Definition record_with_handle : PyVal :=
  PDict [(KStr (str "frame"), PInt 1); (KStr (str "conn"), PObject 7)].

(** The events the counters of the coordinator look for. *)
Definition counted (e : event) : bool :=
  is_close_call e || is_grace_join e || is_warning e.

Definition uncounted (t : list event) : bool :=
  forallb (fun e => negb (counted e)) t.

(** A listening socket whose address is already in use. *)
Definition address_in_use : listener :=
  {| bind_result := Fails SocketError;
     listen_result := Done;
     accepts := [Accepted 1; Accepted 2] |}.

Definition closed_bridge : bridge :=
  {| clients := []; server_socket := Closed |}.

(** Sockets on which the write to consumer [2] fails because the peer has
    gone, while [getpeername()] still answers. *)
Definition consumer2_gone : sockets :=
  {| sendall_result :=
       fun c => if Nat.eqb c 2 then SendFails SocketError 0 else Sent;
     getpeername_result := fun _ => Done;
     shutdown_result := fun _ => Done;
     close_result := fun _ => Done;
     server_close_result := Done |}.

(** Three calls: the pose record, a record that does not serialise, and
    a record sent while consumer [2] has gone. *)
Definition scenario : list (PyVal * sockets) :=
  [(pose_record, all_fine);
   (record_with_handle, all_fine);
   (frame3, consumer2_gone)].

(** ** What the serialiser accepts and writes *)

Definition is_array_like (v : PyVal) : bool :=
  match v with
  | PArrayLike _ => true
  | _ => false
  end.

(** A key [json.dumps] can write. *)
Definition json_key_ok (k : PyKey) : bool :=
  match k with
  | KOther _ => false
  | _ => true
  end.

(** Every dict of the record, also inside the [tolist()] results, has
    keys [json.dumps] can write. *)
Fixpoint json_keyed (v : PyVal) : bool :=
  match v with
  | PList items | PTuple items => forallb json_keyed items
  | PDict items =>
      forallb (fun kv => json_key_ok (fst kv) && json_keyed (snd kv)) items
  | PArrayLike r => json_keyed r
  | _ => true
  end.

(** The printable ASCII characters, space to tilde. *)
Definition printable (c : ascii) : bool :=
  ((32 <=? N_of_ascii c) && (N_of_ascii c <=? 126))%N.

Definition ascii_text (s : string) : bool :=
  forallb printable (list_ascii_of_string s).

(** A record with a numpy array inside a tuple. *)
Definition tuple_record : PyVal :=
  PDict [(KStr (str "frame"), PInt 1);
         (KStr (str "pose"),
          PTuple [PArrayLike (PList [PFloat (S754_finite false 1 0)])])].

(** ** More observations of a trace *)

(** The payloads of every [sendall] tried on consumer [c], whatever came
    of it. *)
Fixpoint attempts_to (c : sock) (t : list event) : list string :=
  match t with
  | [] => []
  | EvSendall c' payload _ :: rest =>
      if Nat.eqb c c' then payload :: attempts_to c rest
      else attempts_to c rest
  | _ :: rest => attempts_to c rest
  end.

(** The sockets [close()] was called on, in order. *)
Fixpoint closed_in (t : list event) : list sock :=
  match t with
  | [] => []
  | EvClose c _ :: rest => c :: closed_in rest
  | _ :: rest => closed_in rest
  end.

(** The sockets [shutdown()] was called on, in order. *)
Fixpoint shutdowns (t : list event) : list sock :=
  match t with
  | [] => []
  | EvShutdown c _ :: rest => c :: shutdowns rest
  | _ :: rest => shutdowns rest
  end.

(** What a sequence of calls tries to write to a consumer of the
    Registry: the payload of every record that serialises, up to and
    including the first one on which its write raises [socket.error]. *)
Fixpoint attempts (float_repr : spec_float -> list repr_char) (c : sock)
  (calls : list (PyVal * sockets)) : list string :=
  match calls with
  | [] => []
  | (data, net) :: rest =>
      match encode_payload float_repr (_convert_numpy_to_list data) with
      | None => attempts float_repr c rest
      | Some p =>
          p :: (if write_failed net c then []
                else attempts float_repr c rest)
      end
  end.

(** What a sequence of calls gets written in full to a consumer of the
    Registry. *)
Fixpoint deliveries (float_repr : spec_float -> list repr_char) (c : sock)
  (calls : list (PyVal * sockets)) : list string :=
  match calls with
  | [] => []
  | (data, net) :: rest =>
      match encode_payload float_repr (_convert_numpy_to_list data) with
      | None => deliveries float_repr c rest
      | Some p =>
          share net p c
            ++ (if write_failed net c then []
                else deliveries float_repr c rest)
      end
  end.

(** Sockets of three consumers: the write to [2] fails with
    [socket.error], the write to [3] with another exception. *)
Definition mixed_failures : sockets :=
  {| sendall_result :=
       fun c => if Nat.eqb c 2 then SendFails SocketError 5
                else if Nat.eqb c 3 then SendFails OtherError 0
                else Sent;
     getpeername_result := fun _ => Done;
     shutdown_result := fun _ => Done;
     close_result := fun _ => Done;
     server_close_result := Done |}.

(** One bridge is another with some consumers taken out. *)
Definition shrunk (b' b : bridge) : Prop :=
  server_socket b' = server_socket b
  /\ incl (clients b') (clients b)
  /\ List.length (clients b') <= List.length (clients b)
  /\ (NoDup (clients b) -> NoDup (clients b')).

(** The scenario followed by one more frame. *)
Definition scenario_then_more : list (PyVal * sockets) :=
  scenario ++ [(frame3, all_fine)].

(** Did [shutdown()] on this client return? *)
Definition shutdown_ok (net : sockets) (c : sock) : bool :=
  match shutdown_result net c with
  | Done => true
  | Fails _ => false
  end.

Definition is_server_close (e : event) : bool :=
  match e with
  | EvServerClose _ => true
  | _ => false
  end.

(** Sockets at shutdown when consumer [2] has already disconnected:
    [shutdown()] on it raises [socket.error]. *)
Definition consumer2_disconnected : sockets :=
  {| sendall_result := fun _ => Sent;
     getpeername_result := fun _ => Done;
     shutdown_result :=
       fun c => if Nat.eqb c 2 then Fails SocketError else Done;
     close_result := fun _ => Done;
     server_close_result := Done |}.

(** ** What the acceptor admits *)

(** The consumers accepted before the first [accept] that raises. *)
Fixpoint admitted (script : list accept_result) : list sock :=
  match script with
  | Accepted c :: rest => c :: admitted rest
  | _ => []
  end.

(** Does some [accept] raise, ending the loop? *)
Fixpoint gives_up (script : list accept_result) : bool :=
  match script with
  | [] => false
  | Accepted _ :: rest => gives_up rest
  | AcceptFails _ :: _ => true
  end.

(** Is every [accept] of [t] called with the lock free? *)
Fixpoint accept_outside_lock (held : bool) (t : list event) : bool :=
  match t with
  | [] => true
  | EvAcquire :: rest => accept_outside_lock true rest
  | EvRelease :: rest => accept_outside_lock false rest
  | EvAccept _ :: rest => negb held && accept_outside_lock held rest
  | _ :: rest => accept_outside_lock held rest
  end.

(** Three consumers connect, then the listening socket is closed. *)
Definition three_then_closed : listener :=
  {| bind_result := Done;
     listen_result := Done;
     accepts := [Accepted 1; Accepted 2; Accepted 3;
                 AcceptFails SocketError; Accepted 4] |}.

(** ** The configuration handed to [Sports2D.process] (lines 114-137)

    A configuration is a dict with string keys.  Its sections ([base],
    [pose], [logging], ...) are dicts of options; [Other] is any entry
    that is not a dict, such as the callback.  [DEFAULT_CONFIG] belongs
    to the Sports2D package and is a parameter here. *)

Definition options := list (string * PyVal).

Inductive entry : Type :=
| Dict (opts : options)
| Other (v : PyVal).

Definition config := list (string * entry).

(** [d.get(k)]. *)
Fixpoint lookup {A : Type} (k : string) (d : list (string * A)) : option A :=
  match d with
  | [] => None
  | (k', v) :: rest => if String.eqb k k' then Some v else lookup k rest
  end.

(** [d[k] = v]: the value of an existing key is replaced where it is, a
    new key goes to the end. *)
Fixpoint assign {A : Type} (k : string) (v : A) (d : list (string * A))
  : list (string * A) :=
  match d with
  | [] => [(k, v)]
  | (k', v') :: rest =>
      if String.eqb k k' then (k', v) :: rest
      else (k', v') :: assign k v rest
  end.

(** [if name not in config_dict: config_dict[name] = {}]. *)
Definition ensure_section (name : string) (cfg : config) : config :=
  match lookup name cfg with
  | Some _ => cfg
  | None => assign name (Dict []) cfg
  end.

(** [config_dict[name][key] = value]; [None] when it raises, the entry
    being no dict. *)
Definition set_option (name key : string) (value : PyVal) (cfg : config)
  : option config :=
  match lookup name cfg with
  | Some (Dict opts) =>
      Some (assign name (Dict (assign key value opts)) cfg)
  | _ => None
  end.

(** The loop [for key, value in overrides.items(): ...]. *)
Fixpoint set_options (name : string) (items : options) (cfg : config)
  : option config :=
  match items with
  | [] => Some cfg
  | (key, value) :: rest =>
      match set_option name key value cfg with
      | Some cfg' => set_options name rest cfg'
      | None => None
      end
  end.

(** [initial_config_overrides.get(name, {}).items()]; [None] when the
    entry is no dict and [items] raises. *)
Definition section_overrides (name : string) (overrides : config)
  : option options :=
  match lookup name overrides with
  | None => Some []
  | Some (Dict items) => Some items
  | Some (Other _) => None
  end.

(** Lines 117-120, and 123-126 for [pose]. *)
Definition apply_overrides (name : string) (overrides cfg : config)
  : option config :=
  match section_overrides name overrides with
  | Some items => set_options name items (ensure_section name cfg)
  | None => None
  end.

(** Lines 114-137: the configuration [process_with_unity] builds from a
    copy of [DEFAULT_CONFIG], the overrides and the callback. *)
Definition build_config (defaults overrides : config) (callback : PyVal)
  : option config :=
  match apply_overrides "base" overrides defaults with
  | None => None
  | Some c1 =>
      match apply_overrides "pose" overrides c1 with
      | None => None
      | Some c2 =>
          match
            set_option "logging" "use_custom_logging" (PBool false)
              (ensure_section "logging" c2)
          with
          | None => None
          | Some c3 =>
              Some (assign "process_callback_for_unity" (Other callback) c3)
          end
      end
  end.

(** The options of a section, none when the section is missing. *)
Definition section_of (name : string) (cfg : config) : options :=
  match lookup name cfg with
  | Some (Dict opts) => opts
  | _ => []
  end.

(** An entry that is a dict or is missing. *)
Definition section_or_missing (name : string) (cfg : config) : bool :=
  match lookup name cfg with
  | Some (Other _) => false
  | _ => true
  end.

(** [our_config_overrides] of the script (lines 170-188). *)
Definition our_config_overrides : config :=
  [("base",
    Dict
      [("video_input", PStr (str "webcam"));
       ("show_realtime_results", PBool false);
       ("calculate_angles", PBool true);
       ("nb_persons_to_detect", PInt 1);
       ("result_dir", PStr (str "Sports2D_Results_Bridge"));
       ("save_vid", PBool false);
       ("save_img", PBool false);
       ("save_pose", PBool true);
       ("save_angles", PBool true)]);
   ("pose", Dict [("det_frequency", PInt 5)])]%string.

(** A small configuration of the shape of [DEFAULT_CONFIG], for the
    examples. *)
Definition sample_defaults : config :=
  [("base",
    Dict
      [("video_input", PStr (str "demo.mp4"));
       ("nb_persons_to_detect", PStr (str "all"));
       ("save_vid", PBool true)]);
   ("pose", Dict [("det_frequency", PInt 4); ("mode", PStr (str "balanced"))]);
   ("logging", Dict [("use_custom_logging", PBool true)]);
   ("px_to_meters_conversion", Dict [("to_meters", PBool true)])]%string.

(** Overrides that also ask for custom logging and for another
    section. *)
Definition loud_overrides : config :=
  our_config_overrides
    ++ [("logging"%string, Dict [("use_custom_logging"%string, PBool true)]);
        ("px_to_meters_conversion"%string,
         Dict [("to_meters"%string, PBool false)])].

(** Overrides whose [base] entry is not a dict. *)
Definition broken_overrides : config :=
  [("base", Other (PStr (str "webcam")))]%string.

(** ** What the Registry lock covers in [send_data] *)

Definition is_copy (e : event) : bool :=
  match e with
  | EvCopy _ => true
  | _ => false
  end.

Definition is_remove (e : event) : bool :=
  match e with
  | EvRemove _ => true
  | _ => false
  end.

(** The actions of the fan-out: an operation on a consumer's socket, the
    copy of the member list, a removal from it. *)
Definition guarded (e : event) : bool :=
  is_socket_io e || is_copy e || is_remove e.

(** Does every event of [t] that satisfies [p] happen with the lock
    held? *)
Fixpoint under_lock (p : event -> bool) (held : bool) (t : list event)
  : bool :=
  match t with
  | [] => true
  | EvAcquire :: rest => under_lock p true rest
  | EvRelease :: rest => under_lock p false rest
  | e :: rest => (if p e then held else true) && under_lock p held rest
  end.

(** ** The coordinator

    [process_with_unity] runs in the main thread, beside the acceptor
    and the producer.  What these and the operator do is given by the
    environment of a run. *)

(** What one turn of the waiting loop (lines 149-150) meets: the producer
    thread is still running after the half second, it has ended, or the
    operator interrupts the wait. *)
Inductive poll : Type :=
| StillRunning
| Finished
| Interrupted.

(** Where else a [KeyboardInterrupt] may reach the main thread. *)
Inductive point : Type :=
| InSetup      (** lines 108-139, before the [try] *)
| InStartup    (** lines 141-143, before the producer thread exists *)
| InHandler    (** lines 152-157, in an [except] clause *)
| BeforeClose  (** line 159, before [bridge.close()] is entered *)
| AtLock       (** line 88, while [close] waits for the Registry lock *)
| AfterClose.  (** lines 161-166 *)

(** What happens around one run of [process_with_unity]. *)
Record run_env : Type := {
  (** the copy of [DEFAULT_CONFIG] made at line 114 *)
  defaults : config;
  (** line 108: creating the listening socket *)
  bridge_create : op_result;
  (** line 112: starting the acceptor thread *)
  acceptor_start : op_result;
  (** the exception raised where a step of lines 117-131 fails *)
  build_error : exn;
  (** line 145: starting the producer thread *)
  producer_start : op_result;
  (** the turns of the waiting loop *)
  polls : list poll;
  (** a [KeyboardInterrupt] outside the waiting loop, if there is one *)
  interrupt : option point;
  (** does [close] get the Registry lock?  It does not while a
      [send_data] of the producer holds it in a write that does not
      return. *)
  lock_released : bool;
  (** the bridge and its sockets when the coordinator closes it *)
  bridge_at_shutdown : bridge;
  net_at_shutdown : sockets;
  (** what [is_alive()] reports at line 161 and at line 164; after a
      [join] that was interrupted this need not be whether the thread
      still runs *)
  alive_after_close : bool;
  alive_after_grace : bool
}.

(** The closure of lines 133-135, which hands every frame to
    [bridge.send_data]: an object like any other to the configuration. *)
Definition process_callback_for_unity : PyVal := PObject 0.

(** Lines 108-139, before the [try]: the bridge, the acceptor thread and
    the configuration for the producer. *)
Definition setup (R : run_env) (initial_config_overrides : config)
  : outcome config * list event :=
  match bridge_create R with
  | Fails f => (Raise (exn_of f), [])
  | Done =>
      match acceptor_start R with
      | Fails f =>
          (Raise (exn_of f), [EvThreadStart "bridge.start" (Fails f)])
      | Done =>
          match interrupt R with
          | Some InSetup =>
              (Raise KeyboardInterrupt, [EvThreadStart "bridge.start" Done])
          | _ =>
              match
                build_config (defaults R) initial_config_overrides
                  process_callback_for_unity
              with
              | Some config_dict =>
                  (Return config_dict, [EvThreadStart "bridge.start" Done])
              | None =>
                  (Raise (build_error R),
                   [EvThreadStart "bridge.start" Done])
              end
          end
      end
  end.

(** Lines 149-150; the result is whether the thread can still be alive. *)
Fixpoint wait_loop (ps : list poll) : option (outcome bool) * list event :=
  match ps with
  | [] => (None, [])
  | Finished :: _ => (Some (Return false), [EvIsAlive false])
  | Interrupted :: _ =>
      (Some (Raise KeyboardInterrupt),
       [EvIsAlive true; EvJoin poll_timeout_ms])
  | StillRunning :: rest =>
      match wait_loop rest with
      | (r, t) => (r, EvIsAlive true :: EvJoin poll_timeout_ms :: t)
      end
  end.

(** [main_process_thread] when the [finally] block looks at it: [None],
    a thread that was not started or has been seen to have ended, or a
    thread that may still run. *)
Inductive producer : Type :=
| NoThread
| NotRunning
| MayRun.

(** The [try] block, lines 141-150. *)
Definition supervise (R : run_env)
  : option (outcome unit) * producer * list event :=
  match interrupt R with
  | Some InStartup =>
      (Some (Raise KeyboardInterrupt), NoThread,
       [EvLog INFO "Starting Sports2D.process in a new thread..."])
  | _ =>
      match producer_start R with
      | Fails f =>
          (Some (Raise (exn_of f)), NotRunning,
           [EvLog INFO "Starting Sports2D.process in a new thread...";
            EvThreadStart "Sports2D.process" (Fails f)])
      | Done =>
          match wait_loop (polls R) with
          | (Some (Return _), t) =>
              (Some (Return tt), NotRunning,
               EvLog INFO "Starting Sports2D.process in a new thread..."
                 :: EvThreadStart "Sports2D.process" Done :: t)
          | (Some (Raise e), t) =>
              (Some (Raise e), MayRun,
               EvLog INFO "Starting Sports2D.process in a new thread..."
                 :: EvThreadStart "Sports2D.process" Done :: t)
          | (None, t) =>
              (None, MayRun,
               EvLog INFO "Starting Sports2D.process in a new thread..."
                 :: EvThreadStart "Sports2D.process" Done :: t)
          end
      end
  end.

(** The [except] clauses, lines 152-157.  The result is the exception
    that is still to be raised when the [finally] block is done: none,
    unless the operator interrupts the clause. *)
Definition handlers (R : run_env) (r : outcome unit)
  : outcome unit * list event :=
  match r with
  | Return _ => (Return tt, [])
  | Raise e =>
      let line :=
        match e with
        | KeyboardInterrupt =>
            EvLog INFO
              "KeyboardInterrupt received. Shutting down bridge and Sports2D process."
        | _ => EvLog ERROR "Error during Sports2D.process execution"
        end in
      match interrupt R with
      | Some InHandler => (Raise KeyboardInterrupt, [line])
      | _ => (Return tt, [line])
      end
  end.

(** Lines 161-165. *)
Definition grace (R : run_env) (main_process_thread : producer)
  : list event :=
  match main_process_thread with
  | NoThread => []
  | NotRunning => [EvIsAlive false]
  | MayRun =>
      if alive_after_close R then
        [EvIsAlive true;
         EvLog INFO
           "Sports2D process thread is still alive, waiting for it to join (max 5s)...";
         EvJoin grace_timeout_ms;
         EvIsAlive (alive_after_grace R)]
          ++ (if alive_after_grace R
              then [EvLog WARNING
                      "Sports2D process thread did not terminate gracefully."]
              else [])
      else [EvIsAlive false]
  end.

(** [bridge.close()] at line 160.  It is [close] when the Registry lock
    can be taken; otherwise the call has logged its first line and waits
    at line 88, for ever unless the operator interrupts it. *)
Definition close_at_shutdown (R : run_env)
  : option (outcome unit) * bridge * list event :=
  if lock_released R then
    match close (net_at_shutdown R) (bridge_at_shutdown R) with
    | (r, b, t) => (Some r, b, t)
    end
  else
    (match interrupt R with
     | Some AtLock => Some (Raise KeyboardInterrupt)
     | _ => None
     end,
     bridge_at_shutdown R,
     [EvLog INFO "Closing server socket and all client connections."]).

(** The [finally] block, lines 158-166; [pending] is what the [except]
    clauses left to be raised. *)
Definition finally (R : run_env) (main_process_thread : producer)
  (pending : outcome unit)
  : option (outcome unit) * bridge * list event :=
  match interrupt R with
  | Some BeforeClose =>
      (Some (Raise KeyboardInterrupt), bridge_at_shutdown R, [])
  | _ =>
      match close_at_shutdown R with
      | (Some (Return _), b, t) =>
          match interrupt R with
          | Some AfterClose =>
              (Some (Raise KeyboardInterrupt), b,
               EvLog INFO "Initiating shutdown of the bridge..." :: t)
          | _ =>
              (Some pending, b,
               EvLog INFO "Initiating shutdown of the bridge..." :: t
                 ++ grace R main_process_thread
                 ++ [EvLog INFO "Sports2D Unity Bridge finished."])
          end
      | (r, b, t) =>
          (r, b, EvLog INFO "Initiating shutdown of the bridge..." :: t)
      end
  end.

(** [process_with_unity] (lines 107-166).  The result is [None] where
    the call does not return; the bridge is the one the call leaves
    behind. *)
Definition process_with_unity (R : run_env)
  (initial_config_overrides : config)
  : option (outcome unit) * bridge * list event :=
  match setup R initial_config_overrides with
  | (Raise e, t0) => (Some (Raise e), new_bridge, t0)
  | (Return _, t0) =>
      match supervise R with
      | (None, _, t) => (None, bridge_at_shutdown R, t0 ++ t)
      | (Some r, main_process_thread, t) =>
          match handlers R r with
          | (pending, th) =>
              match finally R main_process_thread pending with
              | (r', b, tf) => (r', b, t0 ++ t ++ th ++ tf)
              end
          end
      end
  end.

(** *** The course of a run *)

(** Do lines 108-139 go through? *)
Definition setup_succeeds (R : run_env) (initial_config_overrides : config)
  : bool :=
  match bridge_create R, acceptor_start R, interrupt R with
  | Done, Done, Some InSetup => false
  | Done, Done, _ =>
      match
        build_config (defaults R) initial_config_overrides
          process_callback_for_unity
      with
      | Some _ => true
      | None => false
      end
  | _, _, _ => false
  end.

(** How the wait for the producer ends. *)
Inductive ending : Type :=
| Completed
| Interrupt
| StartFailed.

Fixpoint loop_ending (ps : list poll) : option ending :=
  match ps with
  | [] => None
  | Finished :: _ => Some Completed
  | Interrupted :: _ => Some Interrupt
  | StillRunning :: rest => loop_ending rest
  end.

(** [None] while the producer keeps running and nobody interrupts. *)
Definition how_ended (R : run_env) : option ending :=
  match interrupt R with
  | Some InStartup => Some Interrupt
  | _ =>
      match producer_start R with
      | Fails _ => Some StartFailed
      | Done => loop_ending (polls R)
      end
  end.

(** Does the operator leave the coordinator alone once the wait is
    over? *)
Definition undisturbed (R : run_env) : bool :=
  match interrupt R with
  | Some InHandler | Some BeforeClose | Some AtLock | Some AfterClose =>
      false
  | _ => true
  end.

(** Is the producer thread, interrupted in the loop, reported alive
    after the close? *)
Definition lingers (R : run_env) : bool :=
  match interrupt R, producer_start R, loop_ending (polls R) with
  | Some InStartup, _, _ => false
  | _, Done, Some Interrupt => alive_after_close R
  | _, _, _ => false
  end.

(** A run in which the producer ends by itself after a second. *)
Definition usual_run : run_env :=
  {| defaults := sample_defaults;
     bridge_create := Done;
     acceptor_start := Done;
     build_error := AttributeError;
     producer_start := Done;
     polls := [StillRunning; StillRunning; Finished];
     interrupt := None;
     lock_released := true;
     bridge_at_shutdown := serving [1; 2];
     net_at_shutdown := all_fine;
     alive_after_close := false;
     alive_after_grace := false |}.
(** ** Normalisation: basic facts *)

Lemma convert_plain_id (v : PyVal) :
  plain v = true -> _convert_numpy_to_list v = v.
Proof.
  induction v using PyVal_nested_ind; simpl; intros Hp;
    try reflexivity; try discriminate.
  - f_equal. rewrite forallb_forall in Hp.
    induction H as [|x l Hx Hl IH]; simpl; [reflexivity|].
    rewrite Hx by (apply Hp; left; reflexivity).
    rewrite IH by (intros y Hy; apply Hp; right; exact Hy).
    reflexivity.
  - f_equal. rewrite forallb_forall in Hp.
    induction H as [|[k x] l Hx Hl IH]; simpl in *; [reflexivity|].
    rewrite Hx by (apply (Hp (k, x)); left; reflexivity).
    rewrite IH by (intros y Hy; apply Hp; right; exact Hy).
    reflexivity.
Qed.

Lemma convert_twice_iff (v : PyVal) :
  _convert_numpy_to_list (_convert_numpy_to_list v) = _convert_numpy_to_list v
  <-> tolist_fixed v.
Proof.
  induction v using PyVal_nested_ind; simpl; try tauto.
  - induction H as [|x l Hx Hl IH]; simpl; [tauto|].
    split.
    + intros E. injection E as E1 E2. split; [apply Hx; exact E1|].
      apply IH. f_equal. exact E2.
    + intros [F1 F2]. apply Hx in F1. apply IH in F2.
      injection F2 as F2. rewrite F1, F2. reflexivity.
  - induction H as [|[k x] l Hx Hl IH]; simpl in *; [tauto|].
    split.
    + intros E. injection E as E1 E2. split; [apply Hx; exact E1|].
      apply IH. f_equal. exact E2.
    + intros [F1 F2]. apply Hx in F1. apply IH in F2.
      injection F2 as F2. rewrite F1, F2. reflexivity.
Qed.

Lemma plain_tolist_fixed (v : PyVal) : plain v = true -> tolist_fixed v.
Proof.
  intros Hp. apply convert_twice_iff.
  rewrite (convert_plain_id v Hp). apply convert_plain_id. exact Hp.
Qed.

Lemma plain_convert_normalizable (v : PyVal) :
  normalizable v = true -> plain (_convert_numpy_to_list v) = true.
Proof.
  induction v using PyVal_nested_ind; simpl; intros Hn;
    try reflexivity; try discriminate; try exact Hn.
  - rewrite forallb_forall in Hn. apply forallb_forall.
    intros y Hy. apply in_map_iff in Hy. destruct Hy as [x [<- Hx]].
    rewrite Forall_forall in H. apply H; [exact Hx|]. apply Hn. exact Hx.
  - rewrite forallb_forall in Hn. apply forallb_forall.
    intros y Hy. apply in_map_iff in Hy. destruct Hy as [x [<- Hx]].
    simpl. rewrite Forall_forall in H. apply H; [exact Hx|].
    apply Hn. exact Hx.
Qed.

Lemma numeric_nested_plain (v : PyVal) :
  numeric_nested v = true -> plain v = true.
Proof.
  induction v using PyVal_nested_ind; simpl; intros Hn;
    try reflexivity; try discriminate.
  rewrite forallb_forall in Hn. apply forallb_forall.
  intros y Hy. rewrite Forall_forall in H. apply H; [exact Hy|].
  apply Hn. exact Hy.
Qed.

Lemma dict_get_convert (k : PyKey) (items : list (PyKey * PyVal)) :
  dict_get k
    (map (fun kv => (fst kv, _convert_numpy_to_list (snd kv))) items)
  = option_map _convert_numpy_to_list (dict_get k items).
Proof.
  induction items as [|[k' x] l IH]; simpl; [reflexivity|].
  destruct (key_eqb k k'); [reflexivity|exact IH].
Qed.

Lemma get_convert (p : list step) :
  forall data x,
    get p data = Some x ->
    get p (_convert_numpy_to_list data) = Some (_convert_numpy_to_list x).
Proof.
  induction p as [|s q IH]; intros data x Hg.
  - simpl in *. injection Hg as ->. reflexivity.
  - destruct s as [i|k]; destruct data; simpl in Hg; try discriminate; simpl.
    + rewrite nth_error_map.
      destruct (nth_error items i) as [y|]; [|discriminate].
      simpl. apply IH. exact Hg.
    + rewrite dict_get_convert.
      destruct (dict_get k items) as [y|]; [|discriminate].
      simpl. apply IH. exact Hg.
Qed.

(** C10 as stated fails: normalising the output of the normalisation of
    an array of arrays changes it again. *)
Lemma convert_not_idempotent :
  _convert_numpy_to_list (_convert_numpy_to_list ragged)
  <> _convert_numpy_to_list ragged.
Proof. discriminate. Qed.

(** C10, amended: the normalisation returns every plain value unchanged;
    and applying it to its own output returns that output exactly when
    every [tolist()] result met by the walk is itself left unchanged, as
    the plain results of numeric buffers are. *)
Theorem convert_idempotent_on_fixed (v : PyVal) :
  (plain v = true -> _convert_numpy_to_list v = v)
  /\ (tolist_fixed v <->
      _convert_numpy_to_list (_convert_numpy_to_list v)
      = _convert_numpy_to_list v)
  /\ (normalizable v = true -> tolist_fixed v).
Proof.
  split; [apply convert_plain_id|]. split.
  - symmetry. apply convert_twice_iff.
  - intros Hn. apply convert_twice_iff.
    apply convert_plain_id. apply plain_convert_normalizable. exact Hn.
Qed.

Lemma convert_idempotent_on_fixed_witness :
  _convert_numpy_to_list (PList [PInt 1; PStr (str "a")])
  = PList [PInt 1; PStr (str "a")]
  /\ _convert_numpy_to_list (_convert_numpy_to_list pose_record)
     = _convert_numpy_to_list pose_record.
Proof.
  split.
  - apply (proj1 (convert_idempotent_on_fixed (PList [PInt 1; PStr (str "a")]))).
    reflexivity.
  - apply (proj1 (proj2 (convert_idempotent_on_fixed pose_record))).
    apply (proj2 (proj2 (convert_idempotent_on_fixed pose_record))).
    reflexivity.
Defined.

(** ** The model on the spec's scenario *)

(** The pose record goes on the wire as the spec's scenario shows it. *)
Example scenario_payload :
  encode_payload repr_integral (_convert_numpy_to_list pose_record)
  = Some ("{" ++ quoted "frame" ++ ": 1, " ++ quoted "pose"
              ++ ": [[1.0, 2.0]]}" ++ String newline EmptyString)%string.
Proof. reflexivity. Qed.

(** Two consumers connect, then the listening socket is closed. *)
Example scenario_accept :
  start {| bind_result := Done; listen_result := Done;
           accepts := [Accepted 1; Accepted 2; AcceptFails SocketError] |}
    new_bridge
  = (Some (Return tt), serving [1; 2],
     [EvBind Done; EvListen Done; EvLog INFO "Waiting for Unity client";
      EvAccept (Accepted 1); EvLog INFO "Unity client connected";
      EvAcquire; EvRelease;
      EvAccept (Accepted 2); EvLog INFO "Unity client connected";
      EvAcquire; EvRelease;
      EvAccept (AcceptFails SocketError);
      EvLog ERROR "Socket error in accept (server socket likely closed)"]).
Proof. reflexivity. Qed.

(** Consumer [2] has gone when frame 3 is sent: consumer [1] gets the
    frame and only consumer [1] remains. *)
Example scenario_prune :
  exists p t,
    encode_payload repr_integral frame3 = Some p
    /\ send_data repr_integral frame3 consumer2_gone (serving [1; 2])
       = (Return tt, serving [1], t)
    /\ sent_to 1 t = [p]
    /\ sent_to 2 t = []
    /\ In (EvClose 2 Done) t.
Proof.
  eexists. eexists. split; [reflexivity|]. split; [reflexivity|].
  split; [reflexivity|]. split; [reflexivity|].
  simpl. tauto.
Qed.

(** ** [send_data] with nobody listening *)

(** C4: with an empty Registry [send_data] returns at once, whatever the
    record: the bridge is unchanged and nothing at all happens, neither
    the normalisation nor the serialisation.  This holds for a record
    given as an object graph too, even one whose normalisation would
    never end. *)
Theorem send_data_empty_registry
  (float_repr : spec_float -> list repr_char) (net : sockets) (b : bridge) :
  clients b = [] ->
  (forall data, send_data float_repr data net b = (Return tt, b, []))
  /\ (forall depth h r,
         send_data_ref float_repr depth h r net b = (Return tt, b, []))
  /\ (forall data,
         count is_encoding (events_of (send_data float_repr data net b)) = 0).
Proof.
  intros Hc.
  assert (Hw : forall n, send_data_with float_repr n net b = (Return tt, b, [])).
  { intros n. unfold send_data_with, send_data_body, bind, get_clients. rewrite Hc.
    reflexivity. }
  split; [|split].
  - intros data. apply Hw.
  - intros depth h r. apply Hw.
  - intros data. unfold send_data. rewrite Hw. reflexivity.
Qed.

Lemma send_data_empty_registry_witness :
  send_data repr_integral pose_record all_fine new_bridge
  = (Return tt, new_bridge, [])
  /\ send_data_ref repr_integral 1000 self_list 0 all_fine new_bridge
     = (Return tt, new_bridge, []).
Proof.
  destruct (send_data_empty_registry repr_integral all_fine new_bridge)
    as [H1 [H2 _]]; [reflexivity|].
  split; [apply H1 | apply H2].
Defined.

(** ** [close] *)

Lemma close_clients_returns (net : sockets) (cs : list sock) (b : bridge) :
  result_of (close_clients net cs b) = Return tt
  /\ bridge_of (close_clients net cs b) = b.
Proof.
  induction cs as [|c rest IH]; [split; reflexivity|].
  simpl. unfold bind at 1. unfold try_except.
  unfold bind at 2. unfold perform.
  destruct (shutdown_result net c) as [|f1].
  - destruct (close_result net c) as [|f2]; simpl.
    + destruct (close_clients net rest b) as [[r b'] t] eqn:E.
      simpl in *. exact IH.
    + destruct f2; simpl;
        destruct (close_clients net rest b) as [[r b'] t] eqn:E;
        simpl in *; exact IH.
  - destruct f1; simpl;
      destruct (close_clients net rest b) as [[r b'] t] eqn:E;
      simpl in *; exact IH.
Qed.

Lemma close_returns (net : sockets) (b : bridge) :
  result_of (close net b) = Return tt
  /\ bridge_of (close net b) = {| clients := []; server_socket := Closed |}.
Proof.
  destruct (close_clients_returns net (clients b) b) as [Hr Hb].
  unfold close, logging, emit, with_lock, bind, get_clients, set_clients,
    try_except, set_server, perform.
  destruct (close_clients net (clients b) b) as [[r b'] t].
  unfold result_of, bridge_of in Hr, Hb. simpl in Hr, Hb. subst r b'.
  simpl.
  destruct (server_close_result net) as [|f]; [split; reflexivity|].
  destruct f; split; reflexivity.
Qed.

(** C5: [close] never raises and leaves the Registry empty and the
    listening socket closed, whatever state the bridge was in (started
    or not) and however the sockets behave; a second [close] does not
    raise either and leaves the bridge exactly as the first one did. *)
Theorem close_idempotent (net1 net2 : sockets) (b : bridge) :
  let once := close net1 b in
  let twice := close net2 (bridge_of once) in
  result_of once = Return tt
  /\ clients (bridge_of once) = []
  /\ server_socket (bridge_of once) = Closed
  /\ result_of twice = Return tt
  /\ clients (bridge_of twice) = []
  /\ bridge_of twice = bridge_of once.
Proof.
  intros once twice.
  destruct (close_returns net1 b) as [Hr1 Hb1].
  destruct (close_returns net2 (bridge_of once)) as [Hr2 Hb2].
  fold once in Hr1, Hb1. fold twice in Hr2, Hb2.
  rewrite Hb2, Hb1. repeat split; assumption.
Qed.

(** ** [start] when the socket cannot listen *)

(** C7: when [bind] or [listen] raises [socket.error], [start] logs the
    error and returns: it does not raise, it never calls [accept], and
    the Registry is as it was, whatever connections are waiting. *)
Theorem start_bind_failure (L : listener) (b : bridge) :
  bind_result L = Fails SocketError
  \/ (bind_result L = Done /\ listen_result L = Fails SocketError) ->
  result_of (start L b) = Some (Return tt)
  /\ clients (bridge_of (start L b)) = clients b
  /\ count is_accept (events_of (start L b)) = 0
  /\ count is_acquire (events_of (start L b)) = 0
  /\ In (EvLog ERROR "Failed to bind or listen on socket")
        (events_of (start L b)).
Proof.
  intros [Hb | [Hb Hl]];
    unfold start, listen_setup, try_except, bind, perform, set_server,
      logging, emit, ret.
  - rewrite Hb. simpl. repeat split; auto.
  - rewrite Hb, Hl. simpl. repeat split; auto.
Qed.

(** ** One delivery *)

Lemma deliver_sent (net : sockets) (p : string) (c : sock) (b : bridge) :
  sendall_result net c = Sent ->
  deliver net p c b = (Return tt, b, [EvSendall c p Sent]).
Proof.
  intros H. unfold deliver, try_except, sendall. rewrite H. reflexivity.
Qed.

Lemma deliver_other (net : sockets) (p : string) (c : sock) (b : bridge) n :
  sendall_result net c = SendFails OtherError n ->
  deliver net p c b
  = (Return tt, b,
     [EvSendall c p (SendFails OtherError n);
      EvLog ERROR "Unexpected error sending data"]).
Proof.
  intros H. unfold deliver, try_except, sendall. rewrite H. reflexivity.
Qed.

Lemma deliver_pruned (net : sockets) (p : string) (c : sock) (b : bridge)
  n cs' :
  sendall_result net c = SendFails SocketError n ->
  getpeername_result net c = Done ->
  list_remove c (clients b) = Some cs' ->
  deliver net p c b
  = (Return tt, {| clients := cs'; server_socket := server_socket b |},
     [EvSendall c p (SendFails SocketError n);
      EvGetpeername c Done;
      EvLog WARNING "Socket error sending data. Removing client.";
      EvRemove c;
      EvClose c (close_result net c)]).
Proof.
  intros H Hg Hr.
  unfold deliver, try_except, sendall, on_socket_error, remove_client, bind,
    perform, logging, emit, get_clients.
  rewrite H. simpl. rewrite Hg. rewrite Hr. unfold set_clients.
  destruct (close_result net c) as [|f]; reflexivity.
Qed.

Lemma deliver_escapes (net : sockets) (p : string) (c : sock) (b : bridge)
  n f :
  sendall_result net c = SendFails SocketError n ->
  getpeername_result net c = Fails f ->
  deliver net p c b
  = (Raise (exn_of f), b,
     [EvSendall c p (SendFails SocketError n); EvGetpeername c (Fails f)]).
Proof.
  intros H Hg.
  unfold deliver, try_except, sendall, on_socket_error, bind, perform.
  rewrite H. simpl. rewrite Hg. reflexivity.
Qed.

Lemma fan_out_cons (net : sockets) (p : string) c rest (b : bridge) :
  fan_out net p (c :: rest) b
  = match deliver net p c b with
    | (Return _, b1, t1) =>
        match fan_out net p rest b1 with
        | (r, b2, t2) => (r, b2, t1 ++ t2)
        end
    | (Raise e, b1, t1) => (Raise e, b1, t1)
    end.
Proof. reflexivity. Qed.

(** ** Removing from a list without repetitions *)

Lemma list_remove_filter (c : sock) (l : list sock) :
  NoDup l -> In c l ->
  list_remove c l = Some (filter (fun x => negb (Nat.eqb x c)) l).
Proof.
  induction l as [|y r IH]; intros Hnd Hin; [destruct Hin|].
  inversion Hnd as [|? ? Hny Hr]; subst. simpl.
  destruct (Nat.eqb c y) eqn:E.
  - apply Nat.eqb_eq in E. subst y. rewrite Nat.eqb_refl. simpl.
    f_equal. symmetry. apply forallb_filter_id. apply forallb_forall.
    intros x Hx. destruct (Nat.eqb x c) eqn:E; [|reflexivity].
    apply Nat.eqb_eq in E. subst x. contradiction.
  - assert (Hyc : Nat.eqb y c = false) by (rewrite Nat.eqb_sym; exact E).
    rewrite Hyc. simpl. destruct Hin as [->|Hin].
    + rewrite Nat.eqb_refl in E. discriminate.
    + rewrite (IH Hr Hin). reflexivity.
Qed.

Lemma filter_filter (f g : sock -> bool) (l : list sock) :
  filter f (filter g l) = filter (fun x => g x && f x) l.
Proof.
  induction l as [|y r IH]; simpl; [reflexivity|].
  destruct (g y); simpl; [destruct (f y)|]; rewrite IH; reflexivity.
Qed.

Lemma mem_In (c : sock) (l : list sock) : mem c l = true <-> In c l.
Proof.
  unfold mem. rewrite existsb_exists. split.
  - intros [x [Hx E]]. apply Nat.eqb_eq in E. subst. exact Hx.
  - intros H. exists c. split; [exact H | apply Nat.eqb_refl].
Qed.

Lemma sent_to_app (c : sock) (t1 t2 : list event) :
  sent_to c (t1 ++ t2) = sent_to c t1 ++ sent_to c t2.
Proof.
  induction t1 as [|e t IH]; simpl; [reflexivity|].
  destruct e; try exact IH.
  destruct r; [|exact IH].
  destruct (Nat.eqb c c0); simpl; rewrite IH; reflexivity.
Qed.

Lemma append_nil_r (s : string) : (s ++ EmptyString)%string = s.
Proof. induction s as [|c s IH]; simpl; [reflexivity|]. rewrite IH. reflexivity. Qed.

Lemma append_assoc (s1 s2 s3 : string) :
  ((s1 ++ s2) ++ s3 = s1 ++ (s2 ++ s3))%string.
Proof. induction s1 as [|c s IH]; simpl; [reflexivity|]. rewrite IH. reflexivity. Qed.

Lemma received_by_app (c : sock) (t1 t2 : list event) :
  received_by c (t1 ++ t2)
  = (received_by c t1 ++ received_by c t2)%string.
Proof.
  induction t1 as [|e t IH]; simpl; [reflexivity|].
  destruct e; try exact IH.
  destruct (Nat.eqb c c0); [|exact IH].
  destruct r; rewrite IH; symmetry; apply append_assoc.
Qed.

Lemma sendall_calls_app (t1 t2 : list event) :
  sendall_calls (t1 ++ t2) = sendall_calls t1 ++ sendall_calls t2.
Proof.
  induction t1 as [|e t IH]; simpl; [reflexivity|].
  destruct e; try exact IH. simpl. rewrite IH. reflexivity.
Qed.

Lemma lock_free_app (t1 t2 : list event) :
  lock_free (t1 ++ t2) = lock_free t1 && lock_free t2.
Proof. apply forallb_app. Qed.

(** ** The fan-out isolates write failures *)

Lemma fan_out_isolates (net : sockets) (p : string) :
  forall (snapshot : list sock) (b : bridge),
    NoDup snapshot ->
    NoDup (clients b) ->
    incl snapshot (clients b) ->
    (forall c, In c snapshot -> peer_known net c) ->
    exists t,
      fan_out net p snapshot b
      = (Return tt,
         {| clients :=
              filter (fun x => negb (mem x snapshot && write_failed net x))
                (clients b);
            server_socket := server_socket b |},
         t)
      /\ (forall c,
             sent_to c t = if mem c snapshot then share net p c else [])
      /\ (forall c,
             received_by c t
             = if mem c snapshot then written net p c else EmptyString)
      /\ sendall_calls t = map (fun c => (c, p)) snapshot
      /\ lock_free t = true.
Proof.
  induction snapshot as [|c rest IH]; intros b Hs Hb Hincl Hpeer.
  - exists []. simpl. unfold ret. split; [|auto].
    f_equal. f_equal. destruct b as [cs sv]. simpl. f_equal.
    symmetry. apply forallb_filter_id. apply forallb_forall. reflexivity.
  - inversion Hs as [|? ? Hnc Hrest]; subst.
    assert (Hmemc : mem c rest = false).
    { destruct (mem c rest) eqn:E; [|reflexivity].
      apply mem_In in E. contradiction. }
    assert (Hinc : In c (clients b)) by (apply Hincl; left; reflexivity).
    rewrite fan_out_cons.
    destruct (sendall_result net c) as [|f n] eqn:Hsend; [|destruct f].
    + (* the write succeeds *)
      rewrite (deliver_sent net p c b Hsend).
      destruct (IH b Hrest Hb) as [t [Hrun [Hsent [Hrecv [Hcalls Hfree]]]]].
      { intros x Hx. apply Hincl. right. exact Hx. }
      { intros x Hx. apply Hpeer. right. exact Hx. }
      rewrite Hrun. eexists. split; [|split; [|split; [|split]]].
      * f_equal. f_equal. f_equal. apply filter_ext. intros x. simpl.
        destruct (Nat.eqb x c) eqn:E; [|reflexivity].
        apply Nat.eqb_eq in E. subst x. unfold write_failed.
        rewrite Hsend, Hmemc. reflexivity.
      * intros x. simpl. rewrite Hsent.
        destruct (Nat.eqb x c) eqn:E; simpl.
        -- apply Nat.eqb_eq in E. subst x. rewrite Hmemc.
           unfold share. rewrite Hsend. reflexivity.
        -- reflexivity.
      * intros x. simpl. rewrite Hrecv.
        destruct (Nat.eqb x c) eqn:E; simpl; [|reflexivity].
        apply Nat.eqb_eq in E. subst x. rewrite Hmemc.
        unfold written. rewrite Hsend. apply append_nil_r.
      * simpl. rewrite Hcalls. reflexivity.
      * exact Hfree.
    + (* socket.error: the consumer is pruned *)
      assert (Hg : getpeername_result net c = Done).
      { apply (Hpeer c (or_introl eq_refl) n). exact Hsend. }
      rewrite (deliver_pruned net p c b n _ Hsend Hg (list_remove_filter c (clients b) Hb Hinc)).
      set (b1 := {| clients := filter (fun x => negb (Nat.eqb x c)) (clients b);
                    server_socket := server_socket b |}).
      destruct (IH b1 Hrest) as [t [Hrun [Hsent [Hrecv [Hcalls Hfree]]]]].
      { apply NoDup_filter. exact Hb. }
      { intros x Hx. simpl. apply filter_In. split.
        - apply Hincl. right. exact Hx.
        - destruct (Nat.eqb x c) eqn:E; [|reflexivity].
          apply Nat.eqb_eq in E. subst x. contradiction. }
      { intros x Hx. apply Hpeer. right. exact Hx. }
      rewrite Hrun. eexists. split; [|split; [|split; [|split]]].
      * f_equal. f_equal. simpl. f_equal. rewrite filter_filter.
        apply filter_ext. intros x.
        destruct (Nat.eqb x c) eqn:E; simpl; [|reflexivity].
        apply Nat.eqb_eq in E. subst x. unfold write_failed.
        rewrite Hsend. reflexivity.
      * intros x. simpl. rewrite Hsent.
        destruct (Nat.eqb x c) eqn:E; simpl; [|reflexivity].
        apply Nat.eqb_eq in E. subst x. rewrite Hmemc.
        unfold share. rewrite Hsend. reflexivity.
      * intros x. simpl. rewrite Hrecv.
        destruct (Nat.eqb x c) eqn:E; simpl; [|reflexivity].
        apply Nat.eqb_eq in E. subst x. rewrite Hmemc.
        unfold written. rewrite Hsend. apply append_nil_r.
      * simpl. rewrite Hcalls. reflexivity.
      * exact Hfree.
    + (* another exception: logged, the consumer stays *)
      rewrite (deliver_other net p c b n Hsend).
      destruct (IH b Hrest Hb) as [t [Hrun [Hsent [Hrecv [Hcalls Hfree]]]]].
      { intros x Hx. apply Hincl. right. exact Hx. }
      { intros x Hx. apply Hpeer. right. exact Hx. }
      rewrite Hrun. eexists. split; [|split; [|split; [|split]]].
      * f_equal. f_equal. f_equal. apply filter_ext. intros x. simpl.
        destruct (Nat.eqb x c) eqn:E; [|reflexivity].
        apply Nat.eqb_eq in E. subst x. unfold write_failed.
        rewrite Hsend, Hmemc. reflexivity.
      * intros x. simpl. rewrite Hsent.
        destruct (Nat.eqb x c) eqn:E; simpl; [|reflexivity].
        apply Nat.eqb_eq in E. subst x. rewrite Hmemc.
        unfold share. rewrite Hsend. reflexivity.
      * intros x. simpl. rewrite Hrecv.
        destruct (Nat.eqb x c) eqn:E; simpl; [|reflexivity].
        apply Nat.eqb_eq in E. subst x. rewrite Hmemc.
        unfold written. rewrite Hsend. apply append_nil_r.
      * simpl. rewrite Hcalls. reflexivity.
      * exact Hfree.
Qed.

(** ** The serialised text holds no line break *)

Lemma no_newline_empty : no_newline EmptyString.
Proof. intros H. exact H. Qed.

Lemma no_newline_String (c : ascii) (s : string) :
  c <> newline -> no_newline s -> no_newline (String c s).
Proof.
  intros Hc Hs [H|H]; [exact (Hc H) | exact (Hs H)].
Qed.

Lemma list_ascii_of_string_app (s1 s2 : string) :
  list_ascii_of_string (s1 ++ s2)
  = list_ascii_of_string s1 ++ list_ascii_of_string s2.
Proof.
  induction s1 as [|c s IH]; simpl; [reflexivity|]. rewrite IH. reflexivity.
Qed.

Lemma no_newline_app (s1 s2 : string) :
  no_newline s1 -> no_newline s2 -> no_newline (s1 ++ s2).
Proof.
  unfold no_newline. rewrite list_ascii_of_string_app.
  intros H1 H2 H. apply in_app_or in H. tauto.
Qed.

Lemma no_newline_concat (sep : string) (l : list string) :
  no_newline sep -> Forall no_newline l -> no_newline (String.concat sep l).
Proof.
  intros Hsep Hl. induction Hl as [|x r Hx Hr IH]; simpl.
  - apply no_newline_empty.
  - destruct r as [|y r']; [exact Hx|].
    apply no_newline_app; [exact Hx|].
    apply no_newline_app; [exact Hsep | exact IH].
Qed.

Ltac no_newline_literal :=
  repeat (apply no_newline_String; [discriminate|]);
  try apply no_newline_empty.

Lemma no_newline_quoted (s : string) : no_newline s -> no_newline (quoted s).
Proof.
  intros H. unfold quoted. apply no_newline_String; [discriminate|].
  apply no_newline_app; [exact H|]. no_newline_literal.
Qed.

Lemma hex_chars_nth (n : nat) : nth n hex_chars "0"%char <> newline.
Proof.
  destruct (nth_in_or_default n hex_chars "0"%char) as [H|H].
  - revert H. generalize (nth n hex_chars "0"%char). intros a H.
    simpl in H. intros ->.
    repeat (destruct H as [H|H]; [discriminate H|]). exact H.
  - rewrite H. discriminate.
Qed.

Lemma no_newline_uescape (n : N) : no_newline (uescape n).
Proof.
  unfold uescape, hex4, hex_digit.
  apply no_newline_String; [discriminate|].
  apply no_newline_String; [discriminate|].
  repeat (apply no_newline_String; [apply hex_chars_nth|]).
  apply no_newline_empty.
Qed.

Lemma printable_not_newline (c : N) :
  (32 <= c)%N -> (c <= 126)%N -> ascii_of_N c <> newline.
Proof.
  intros Hlo Hhi E.
  assert (H : N_of_ascii (ascii_of_N c) = N_of_ascii newline) by (rewrite E; reflexivity).
  rewrite N_ascii_embedding in H by lia.
  change (N_of_ascii newline) with 10%N in H. lia.
Qed.

Lemma no_newline_encode_char (c : N) : no_newline (encode_char c).
Proof.
  unfold encode_char, esc.
  repeat match goal with
         | |- no_newline (if (c =? ?k)%N then _ else _) =>
             destruct (c =? k)%N; [no_newline_literal|]
         end.
  destruct ((32 <=? c) && (c <=? 126))%N eqn:E.
  - apply andb_true_iff in E. destruct E as [E1 E2].
    apply N.leb_le in E1. apply N.leb_le in E2.
    apply no_newline_String; [|apply no_newline_empty].
    apply printable_not_newline; assumption.
  - destruct (c <? 65536)%N.
    + apply no_newline_uescape.
    + apply no_newline_app; apply no_newline_uescape.
Qed.

Lemma no_newline_encode_basestring_ascii (s : pystr) :
  no_newline (encode_basestring_ascii s).
Proof.
  unfold encode_basestring_ascii. apply no_newline_quoted.
  apply no_newline_concat; [apply no_newline_empty|].
  apply Forall_forall. intros x Hx. apply in_map_iff in Hx.
  destruct Hx as [c [<- _]]. apply no_newline_encode_char.
Qed.

Lemma no_newline_string_of_uint (d : Decimal.uint) :
  no_newline (NilEmpty.string_of_uint d).
Proof.
  induction d; simpl;
    try (apply no_newline_String; [discriminate | assumption]).
  apply no_newline_empty.
Qed.

Lemma no_newline_int_repr (z : Z) : no_newline (int_repr z).
Proof.
  unfold int_repr, NilZero.string_of_int, NilZero.string_of_uint.
  destruct (Z.to_int z) as [d|d].
  - destruct d; try apply no_newline_string_of_uint. no_newline_literal.
  - apply no_newline_String; [discriminate|].
    destruct d; try apply no_newline_string_of_uint. no_newline_literal.
Qed.

Lemma list_ascii_of_string_of_list (l : list ascii) :
  list_ascii_of_string (string_of_list_ascii l) = l.
Proof. induction l as [|a r IH]; simpl; [reflexivity|]. rewrite IH. reflexivity. Qed.

Lemma no_newline_floatstr (float_repr : spec_float -> list repr_char)
  (f : spec_float) : no_newline (floatstr float_repr f).
Proof.
  assert (H : forall l, no_newline
                          (string_of_list_ascii (map repr_char_ascii l))).
  { intros l. unfold no_newline. rewrite list_ascii_of_string_of_list.
    intros Hin. apply in_map_iff in Hin. destruct Hin as [c [Hc _]].
    destruct c; simpl in Hc; try discriminate Hc.
    exact (hex_chars_nth _ Hc). }
  destruct f as [s|s| |s m e]; simpl; try apply H.
  - destruct s; no_newline_literal.
  - no_newline_literal.
Qed.

Lemma traverse_Forall {A B : Type} (f : A -> option B) (Q : B -> Prop)
  (l : list A) :
  Forall (fun x => forall y, f x = Some y -> Q y) l ->
  forall ys, traverse f l = Some ys -> Forall Q ys.
Proof.
  induction 1 as [|x r Hx Hr IH]; simpl; intros ys E.
  - injection E as <-. constructor.
  - destruct (f x) as [y|] eqn:Ef; [|discriminate].
    destruct (traverse f r) as [ys'|]; [|discriminate].
    injection E as <-. constructor; [apply Hx; reflexivity | apply IH; reflexivity].
Qed.

Lemma no_newline_json_key (float_repr : spec_float -> list repr_char)
  (k : PyKey) (s : string) :
  json_key float_repr k = Some s -> no_newline s.
Proof.
  destruct k as [t|z|f|[|]| |n]; simpl; intros E; try discriminate;
    injection E as <-.
  - apply no_newline_encode_basestring_ascii.
  - apply no_newline_quoted, no_newline_int_repr.
  - apply no_newline_quoted, no_newline_floatstr.
  - no_newline_literal.
  - no_newline_literal.
  - no_newline_literal.
Qed.

Lemma no_newline_dumps (float_repr : spec_float -> list repr_char)
  (v : PyVal) :
  forall s, dumps float_repr v = Some s -> no_newline s.
Proof.
  induction v using PyVal_nested_ind; simpl; intros out E;
    try discriminate.
  - injection E as <-. no_newline_literal.
  - destruct b; injection E as <-; no_newline_literal.
  - injection E as <-. apply no_newline_int_repr.
  - injection E as <-. apply no_newline_floatstr.
  - injection E as <-. apply no_newline_encode_basestring_ascii.
  - destruct (traverse (dumps float_repr) items) as [parts|] eqn:T;
      [|discriminate].
    injection E as <-. apply no_newline_String; [discriminate|].
    apply no_newline_app; [|no_newline_literal].
    apply no_newline_concat; [no_newline_literal|].
    exact (traverse_Forall _ _ items H parts T).
  - destruct (traverse (dumps float_repr) items) as [parts|] eqn:T;
      [|discriminate].
    injection E as <-. apply no_newline_String; [discriminate|].
    apply no_newline_app; [|no_newline_literal].
    apply no_newline_concat; [no_newline_literal|].
    exact (traverse_Forall _ _ items H parts T).
  - match type of E with
    | match traverse ?f items with _ => _ end = _ =>
        destruct (traverse f items) as [parts|] eqn:T; [|discriminate];
        assert (HF : Forall (fun kv => forall y, f kv = Some y -> no_newline y) items)
    end.
    { eapply Forall_impl; [|exact H]. intros [k x] Hx y. simpl.
      destruct (json_key float_repr k) as [ks|] eqn:Ek; [|discriminate].
      destruct (dumps float_repr x) as [xs|] eqn:Ex; [|discriminate].
      intros Ey. injection Ey as <-.
      apply no_newline_app; [exact (no_newline_json_key _ _ _ Ek)|].
      repeat (apply no_newline_String; [discriminate|]).
      apply Hx. exact Ex. }
    injection E as <-. apply no_newline_String; [discriminate|].
    apply no_newline_app; [|no_newline_literal].
    apply no_newline_concat; [no_newline_literal|].
    exact (traverse_Forall _ _ items HF parts T).
  - injection E as <-. apply no_newline_floatstr.
  - injection E as <-. apply no_newline_encode_basestring_ascii.
Qed.

(** ** [send_data] with somebody listening *)

Lemma send_data_body_run (normalize : outcome PyVal)
  (encode : PyVal -> outcome string) (format_error : outcome unit)
  (net : sockets) (b : bridge) :
  clients b <> [] ->
  send_data_body normalize encode format_error net b
  = match normalize with
    | Raise e => (Raise e, b, [EvConvert])
    | Return v =>
        match encode v with
        | Return p =>
            match fan_out net p (clients b) b with
            | (r, b', t) =>
                (r, b',
                 EvConvert :: EvDumps :: EvAcquire :: EvCopy (clients b)
                   :: t ++ [EvRelease])
            end
        | Raise TypeError =>
            match format_error with
            | Return _ =>
                (Return tt, b,
                 [EvConvert; EvDumps;
                  EvLog ERROR "JSON serialization error"])
            | Raise e => (Raise e, b, [EvConvert; EvDumps])
            end
        | Raise e => (Raise e, b, [EvConvert; EvDumps])
        end
    end.
Proof.
  intros Hne.
  assert (Hm : forall (A : Type) (l : list sock) (x y : A),
             l <> [] -> match l with [] => x | _ :: _ => y end = y).
  { intros A [|c l] x y H; [contradiction | reflexivity]. }
  unfold send_data_body, serialize_with, bind, get_clients, emit, lift,
    try_except, with_lock, logging, emit, ret.
  rewrite (Hm _ _ _ _ Hne).
  destruct normalize as [v|e]; [|reflexivity].
  destruct (encode v) as [p|e].
  - simpl.
    destruct (fan_out net p (clients b) b) as [[r b'] t].
    simpl. rewrite ?app_nil_r. reflexivity.
  - destruct e; try reflexivity.
    destruct format_error as [u|e']; reflexivity.
Qed.

Lemma send_data_with_run (float_repr : spec_float -> list repr_char)
  (normalize : outcome PyVal) (net : sockets) (b : bridge) :
  clients b <> [] ->
  send_data_with float_repr normalize net b
  = match normalize with
    | Raise e => (Raise e, b, [EvConvert])
    | Return v =>
        match encode_payload float_repr v with
        | None =>
            (Return tt, b,
             [EvConvert; EvDumps; EvLog ERROR "JSON serialization error"])
        | Some p =>
            match fan_out net p (clients b) b with
            | (r, b', t) =>
                (r, b',
                 EvConvert :: EvDumps :: EvAcquire :: EvCopy (clients b)
                   :: t ++ [EvRelease])
            end
        end
    end.
Proof.
  intros Hne. unfold send_data_with.
  rewrite (send_data_body_run _ _ _ _ _ Hne).
  destruct normalize as [v|e]; [|reflexivity].
  destruct (encode_payload float_repr v); reflexivity.
Qed.

Lemma encode_payload_one_line (float_repr : spec_float -> list repr_char)
  (v : PyVal) (p : string) :
  encode_payload float_repr v = Some p -> one_line p.
Proof.
  unfold encode_payload.
  destruct (dumps float_repr v) as [s|] eqn:E; [|discriminate].
  intros H. injection H as <-. exists s. split; [reflexivity|].
  exact (no_newline_dumps float_repr v s E).
Qed.

Lemma stream_app (l1 l2 : list string) :
  stream (l1 ++ l2) = (stream l1 ++ stream l2)%string.
Proof.
  induction l1 as [|x r IH]; simpl; [reflexivity|].
  rewrite IH. symmetry. apply append_assoc.
Qed.

(** One [send_data] call seen from a consumer whose own write
    succeeds. *)
Lemma send_data_once (float_repr : spec_float -> list repr_char)
  (data : PyVal) (net : sockets) (b : bridge) (c : sock) :
  NoDup (clients b) ->
  In c (clients b) ->
  healthy net c ->
  (forall c', peer_known net c') ->
  exists b' t,
    send_data float_repr data net b = (Return tt, b', t)
    /\ NoDup (clients b')
    /\ In c (clients b')
    /\ sent_to c t
       = match encode_payload float_repr (_convert_numpy_to_list data) with
         | Some p => [p]
         | None => []
         end
    /\ received_by c t = stream (sent_to c t).
Proof.
  intros Hnd Hin Hok Hpeer.
  assert (Hne : clients b <> []).
  { intros E. rewrite E in Hin. destruct Hin. }
  unfold send_data. rewrite (send_data_with_run _ _ _ _ Hne).
  destruct (encode_payload float_repr (_convert_numpy_to_list data)) as [p|].
  - destruct (fan_out_isolates net p (clients b) b Hnd Hnd
                (incl_refl _) (fun x _ => Hpeer x))
      as [t [Hrun [Hsent [Hrecv [_ _]]]]].
    rewrite Hrun.
    assert (Hmem : mem c (clients b) = true) by (apply mem_In; exact Hin).
    assert (Hs : sent_to c t = [p]).
    { rewrite Hsent, Hmem. unfold share. rewrite Hok. reflexivity. }
    eexists. eexists. split; [reflexivity|].
    split; [|split; [|split]].
    + simpl. apply NoDup_filter. exact Hnd.
    + simpl. apply filter_In. split; [exact Hin|].
      unfold write_failed. rewrite Hok. rewrite andb_false_r. reflexivity.
    + simpl. rewrite sent_to_app. simpl. rewrite app_nil_r. exact Hs.
    + simpl. rewrite received_by_app, sent_to_app. simpl.
      rewrite app_nil_r, append_nil_r, Hs, Hrecv, Hmem.
      unfold written. rewrite Hok. simpl. symmetry. apply append_nil_r.
  - exists b. eexists. split; [reflexivity|].
    repeat split; assumption.
Qed.

(** Delivery in order, where no call raises: a consumer of the Registry
    whose writes succeed is sent, by a sequence of [send_data] calls,
    exactly the records that serialise, one [sendall] per record and in
    the order of the calls; the bytes it receives are these payloads one
    after the other, and each payload is the serialised text, which
    holds no line break, followed by one newline.  Other consumers may
    fail and be pruned meanwhile, as long as [getpeername()] answers on
    their sockets. *)
Theorem send_all_in_order (float_repr : spec_float -> list repr_char)
  (calls : list (PyVal * sockets)) (b : bridge) (c : sock) :
  NoDup (clients b) ->
  In c (clients b) ->
  (forall call, In call calls ->
                healthy (snd call) c /\ forall c', peer_known (snd call) c') ->
  let run := send_all float_repr calls b in
  result_of run = Return tt
  /\ In c (clients (bridge_of run))
  /\ sent_to c (events_of run) = encoded_records float_repr calls
  /\ received_by c (events_of run)
     = stream (encoded_records float_repr calls)
  /\ Forall one_line (encoded_records float_repr calls).
Proof.
  revert b. induction calls as [|[data net] rest IH]; intros b Hnd Hin Hcalls.
  - simpl. repeat split; [exact Hin | constructor].
  - destruct (Hcalls (data, net) (or_introl eq_refl)) as [Hok Hpeer].
    simpl in Hok, Hpeer.
    destruct (send_data_once float_repr data net b c Hnd Hin Hok Hpeer)
      as [b1 [t1 [Hrun [Hnd1 [Hin1 [Hsent Hrecv]]]]]].
    specialize (IH b1 Hnd1 Hin1
                  (fun call Hc => Hcalls call (or_intror Hc))).
    simpl in IH. destruct IH as [Hr [Hi [Hs [Hb Hall]]]].
    simpl. unfold bind. rewrite Hrun.
    destruct (send_all float_repr rest b1) as [[r b2] t2].
    unfold result_of, bridge_of, events_of in *. simpl in *.
    split; [exact Hr|]. split; [exact Hi|].
    unfold encoded_records in *. simpl.
    rewrite sent_to_app, received_by_app, stream_app, Hs, Hb, Hrecv, Hsent.
    split; [reflexivity|]. split; [reflexivity|].
    apply Forall_app. split; [|exact Hall].
    destruct (encode_payload float_repr (_convert_numpy_to_list data))
      as [p|] eqn:E; [|constructor].
    constructor; [|constructor].
    exact (encode_payload_one_line float_repr _ p E).
Qed.

Lemma send_all_in_order_witness :
  sent_to 1 (events_of (send_all repr_integral scenario (serving [1; 2])))
  = encoded_records repr_integral scenario
  /\ List.length (encoded_records repr_integral scenario) = 2
  /\ clients (bridge_of (send_all repr_integral scenario (serving [1; 2])))
     = [1].
Proof.
  split; [|split; reflexivity].
  apply (send_all_in_order repr_integral scenario (serving [1; 2]) 1).
  - repeat constructor; simpl; intuition discriminate.
  - left. reflexivity.
  - intros call [<-|[<-|[<-|[]]]]; (split; [reflexivity|]);
      intros c' n _; reflexivity.
Defined.

(** ** A write failure whose handler fails *)

(** C2, the defect: when the write to the first consumer raises
    [socket.error] and [getpeername()], called while the warning is
    formatted (line 76), raises too, the exception leaves [send_data]:
    the consumer is neither removed nor closed and no later consumer is
    written to. *)
Theorem send_data_getpeername_escapes
  (float_repr : spec_float -> list repr_char) (data : PyVal) (p : string)
  (net : sockets) (b : bridge) (c : sock) (rest : list sock)
  (n : nat) (f : failure) :
  clients b = c :: rest ->
  encode_payload float_repr (_convert_numpy_to_list data) = Some p ->
  sendall_result net c = SendFails SocketError n ->
  getpeername_result net c = Fails f ->
  send_data float_repr data net b
  = (Raise (exn_of f), b,
     [EvConvert; EvDumps; EvAcquire; EvCopy (c :: rest);
      EvSendall c p (SendFails SocketError n);
      EvGetpeername c (Fails f);
      EvRelease]).
Proof.
  intros Hc He Hs Hg.
  assert (Hne : clients b <> []) by (rewrite Hc; discriminate).
  unfold send_data. rewrite (send_data_with_run _ _ _ _ Hne), He, Hc.
  rewrite fan_out_cons, (deliver_escapes net p c b n f Hs Hg).
  reflexivity.
Qed.

Lemma send_data_getpeername_escapes_witness :
  exists p t,
    send_data repr_integral frame3 peer_gone (serving [1; 2])
    = (Raise OSError, serving [1; 2], t)
    /\ encode_payload repr_integral frame3 = Some p
    /\ sendall_calls t = [(1, p)]
    /\ sent_to 2 t = [].
Proof.
  assert (E : exists p, encode_payload repr_integral frame3 = Some p)
    by (eexists; reflexivity).
  destruct E as [p E]. exists p. eexists.
  split; [|split; [exact E|split]].
  - apply (send_data_getpeername_escapes repr_integral frame3 p peer_gone
             (serving [1; 2]) 1 [2] 0 SocketError);
      [reflexivity | exact E | reflexivity | reflexivity].
  - reflexivity.
  - reflexivity.
Defined.

(** What C2 asks for does hold when [getpeername()] answers: the call
    returns, exactly the consumers whose write raised [socket.error] are
    removed, and every consumer whose write succeeds is sent the
    payload. *)
Lemma send_data_isolates (float_repr : spec_float -> list repr_char)
  (data : PyVal) (p : string) (net : sockets) (b : bridge) :
  NoDup (clients b) ->
  clients b <> [] ->
  (forall c, peer_known net c) ->
  encode_payload float_repr (_convert_numpy_to_list data) = Some p ->
  exists t,
    send_data float_repr data net b
    = (Return tt,
       {| clients := filter (fun x => negb (write_failed net x)) (clients b);
          server_socket := server_socket b |},
       t)
    /\ (forall c, In c (clients b) -> sent_to c t = share net p c)
    /\ sendall_calls t = map (fun c => (c, p)) (clients b).
Proof.
  intros Hnd Hne Hpeer He.
  unfold send_data. rewrite (send_data_with_run _ _ _ _ Hne), He.
  destruct (fan_out_isolates net p (clients b) b Hnd Hnd
              (incl_refl _) (fun x _ => Hpeer x))
    as [t [Hrun [Hsent [_ [Hcalls _]]]]].
  rewrite Hrun. eexists. split; [|split].
  - f_equal. f_equal. f_equal. apply filter_ext_in. intros x Hx.
    apply mem_In in Hx. rewrite Hx. reflexivity.
  - intros c Hc. simpl. rewrite sent_to_app. simpl. rewrite app_nil_r.
    rewrite Hsent. apply mem_In in Hc. rewrite Hc. reflexivity.
  - simpl. rewrite sendall_calls_app. simpl. rewrite app_nil_r. exact Hcalls.
Qed.

(** ** Records that do not serialise *)

Lemma traverse_fails {A B : Type} (f : A -> option B) (l : list A) (x : A) :
  In x l -> f x = None -> traverse f l = None.
Proof.
  induction l as [|y r IH]; intros Hin Hx; [destruct Hin|].
  simpl. destruct Hin as [->|Hin].
  - rewrite Hx. reflexivity.
  - destruct (f y); [|reflexivity]. rewrite (IH Hin Hx). reflexivity.
Qed.





(** ** The limits of the interpreter *)

Lemma traverse_map {A B : Type} (f : A -> option B) (g : A -> B)
  (l : list A) :
  Forall (fun x => f x = Some (g x)) l -> traverse f l = Some (map g l).
Proof.
  induction 1 as [|x r Hx _ IH]; simpl; [reflexivity|].
  rewrite Hx, IH. reflexivity.
Qed.

Lemma traverse_sound {A B : Type} (f : A -> option B) (g : A -> B)
  (l : list A) :
  (forall x y, f x = Some y -> y = g x) ->
  forall ys, traverse f l = Some ys -> ys = map g l.
Proof.
  intros Hfg. induction l as [|x r IH]; simpl; intros ys E.
  - injection E as <-. reflexivity.
  - destruct (f x) as [y|] eqn:Ef; [|discriminate].
    destruct (traverse f r) as [ys'|]; [|discriminate].
    injection E as <-. rewrite (Hfg x y Ef), (IH ys' eq_refl). reflexivity.
Qed.

(** Where the bounded walk returns, it returns what
    [_convert_numpy_to_list] computes. *)
Lemma convert_limited_sound (depth : nat) :
  forall item out,
    convert_limited depth item = Some out ->
    out = _convert_numpy_to_list item.
Proof.
  induction depth as [|d IH]; intros item out E; [discriminate|].
  destruct item; simpl in E; try (injection E as <-; reflexivity).
  - destruct (traverse (convert_limited d) items) as [l|] eqn:T;
      [|discriminate].
    injection E as <-. simpl.
    rewrite (traverse_sound _ _convert_numpy_to_list items IH l T).
    reflexivity.
  - match type of E with
    | match traverse ?f items with _ => _ end = _ =>
        destruct (traverse f items) as [l|] eqn:T; [|discriminate]
    end.
    injection E as <-. simpl.
    erewrite (traverse_sound _
                (fun kv => (fst kv, _convert_numpy_to_list (snd kv)))
                items _ l T).
    reflexivity.
    Unshelve.
    intros [k x] y. simpl.
    destruct (convert_limited d x) as [v|] eqn:U; [|discriminate].
    intros Ey. injection Ey as <-. rewrite (IH x v U). reflexivity.
Qed.

(** The bounded walk returns on every record whose nesting the
    interpreter allows. *)
Lemma convert_limited_returns (item : PyVal) :
  forall depth,
    walk_depth item <= depth ->
    convert_limited depth item = Some (_convert_numpy_to_list item).
Proof.
  induction item using PyVal_nested_ind; intros [|d] Hd; simpl in Hd;
    try lia; try reflexivity.
  - simpl. apply le_S_n in Hd.
    rewrite (traverse_map _ _convert_numpy_to_list items); [reflexivity|].
    apply list_max_le in Hd. rewrite Forall_map in Hd.
    rewrite Forall_forall in *. intros x Hx. apply (H x Hx), (Hd x Hx).
  - simpl. apply le_S_n in Hd.
    rewrite (traverse_map _
               (fun kv => (fst kv, _convert_numpy_to_list (snd kv))) items);
      [reflexivity|].
    apply list_max_le in Hd. rewrite Forall_map in Hd.
    rewrite Forall_forall in *. intros x Hx.
    rewrite (H x Hx d (Hd x Hx)). reflexivity.
Qed.

Lemma traverse_out_option {A B : Type} (g : A -> outcome B)
  (f : A -> option B) (l : list A) :
  Forall (fun x => g x = or_TypeError (f x)) l ->
  traverse_out g l = or_TypeError (traverse f l).
Proof.
  induction 1 as [|x r Hx _ IH]; simpl; [reflexivity|].
  rewrite Hx, IH. destruct (f x); [|reflexivity].
  destruct (traverse f r); reflexivity.
Qed.

Lemma json_key_limited_fits (I : interpreter)
  (float_repr : spec_float -> list repr_char) (k : PyKey) :
  key_fits I k = true ->
  json_key_limited I float_repr k = or_TypeError (json_key float_repr k).
Proof.
  destruct k; simpl; intros Hk; try reflexivity.
  unfold int_text. rewrite Hk. reflexivity.
Qed.

(** On a value within the limits, [json.dumps] in the interpreter is
    [dumps], with [TypeError] for [None]. *)
Lemma dumps_limited_fits (I : interpreter)
  (float_repr : spec_float -> list repr_char) (v : PyVal) :
  forall depth,
    fits I depth v = true ->
    dumps_limited I float_repr depth v = or_TypeError (dumps float_repr v).
Proof.
  induction v using PyVal_nested_ind; intros depth Hf; simpl in Hf;
    try reflexivity.
  - simpl. unfold int_text. rewrite Hf. reflexivity.
  - destruct depth as [|d]; [discriminate|]. simpl.
    rewrite (traverse_out_option _ (dumps float_repr) items).
    + destruct (traverse (dumps float_repr) items); reflexivity.
    + rewrite forallb_forall in Hf. rewrite Forall_forall in *.
      intros x Hx. apply (H x Hx), (Hf x Hx).
  - destruct depth as [|d]; [discriminate|]. simpl.
    rewrite (traverse_out_option _ (dumps float_repr) items).
    + destruct (traverse (dumps float_repr) items); reflexivity.
    + rewrite forallb_forall in Hf. rewrite Forall_forall in *.
      intros x Hx. apply (H x Hx), (Hf x Hx).
  - destruct depth as [|d]; [discriminate|]. simpl.
    match goal with
    | |- _ = or_TypeError (match traverse ?f items with _ => _ end) =>
        rewrite (traverse_out_option _ f items);
          [destruct (traverse f items); reflexivity|]
    end.
    rewrite forallb_forall in Hf. rewrite Forall_forall in *.
    intros [k x] Hx. simpl.
    specialize (Hf (k, x) Hx). simpl in Hf.
    apply andb_prop in Hf. destruct Hf as [Hk Hv].
    rewrite (json_key_limited_fits I float_repr k Hk).
    pose proof (H (k, x) Hx d Hv) as Hvx. simpl in Hvx. rewrite Hvx.
    destruct (json_key float_repr k); [|reflexivity].
    destruct (dumps float_repr x); reflexivity.
Qed.

Lemma encode_limited_fits (I : interpreter)
  (float_repr : spec_float -> list repr_char) (v : PyVal) :
  fits I (encoder_depth I) v = true ->
  encode_limited I float_repr v
  = or_TypeError (encode_payload float_repr v).
Proof.
  intros Hf. unfold encode_limited, encode_payload.
  rewrite (dumps_limited_fits I float_repr v _ Hf).
  destruct (dumps float_repr v); reflexivity.
Qed.

(** Within the limits of the interpreter, and where the record can be
    shown in a log line, [send_data] in the interpreter is [send_data]. *)
Lemma send_data_py_within_limits (I : interpreter)
  (float_repr : spec_float -> list repr_char) (data : PyVal)
  (net : sockets) (b : bridge) :
  walk_depth data <= recursion_limit I ->
  fits I (encoder_depth I) (_convert_numpy_to_list data) = true ->
  repr_raises I data = None ->
  send_data_py I float_repr data net b = send_data float_repr data net b.
Proof.
  intros Hd Hf Hr.
  unfold send_data_py, send_data, send_data_with.
  rewrite (convert_limited_returns data _ Hd), Hr.
  unfold send_data_body, bind, get_clients.
  destruct (clients b) as [|c rest]; [reflexivity|].
  unfold emit, lift, serialize_with, try_except, bind, emit, lift, ret.
  rewrite (encode_limited_fits I float_repr _ Hf).
  reflexivity.
Qed.

(** On a record that is a finite tree the walk over the object graph
    is the bounded walk over the tree. *)
Lemma traverse_along {A B C : Type} (u : A -> option B) (f : A -> option C)
  (g : B -> option C) (l : list A) :
  (forall x y, u x = Some y -> f x = g y) ->
  forall ys, traverse u l = Some ys -> traverse f l = traverse g ys.
Proof.
  intros Hfg. induction l as [|x r IH]; simpl; intros ys E.
  - injection E as <-. reflexivity.
  - destruct (u x) as [y|] eqn:Eu; [|discriminate].
    destruct (traverse u r) as [ys'|]; [|discriminate].
    injection E as <-. simpl.
    rewrite (Hfg x y Eu), (IH ys' eq_refl). reflexivity.
Qed.

Lemma convert_ref_unfold (depth : nat) (h : heap) :
  forall r t,
    unfold depth h r = Some t ->
    convert_ref depth h r = convert_limited depth t.
Proof.
  induction depth as [|d IH]; intros r t E; [discriminate|].
  simpl in E. change (convert_ref (S d) h r) with
    (match h r with
     | OValue v => convert_limited (S d) v
     | OList items =>
         match traverse (convert_ref d h) items with
         | Some l => Some (PList l)
         | None => None
         end
     | ODict items =>
         match
           traverse
             (fun kv =>
                match convert_ref d h (snd kv) with
                | Some v => Some (fst kv, v)
                | None => None
                end) items
         with
         | Some l => Some (PDict l)
         | None => None
         end
     end).
  destruct (h r) as [v|items|items].
  - injection E as <-. reflexivity.
  - destruct (traverse (unfold d h) items) as [l|] eqn:T; [|discriminate].
    injection E as <-. simpl.
    rewrite (traverse_along _ (convert_ref d h) (convert_limited d)
               items IH l T).
    reflexivity.
  - match type of E with
    | match traverse ?f items with _ => _ end = _ =>
        destruct (traverse f items) as [l|] eqn:T; [|discriminate]
    end.
    injection E as <-. simpl.
    erewrite (traverse_along _ _
                (fun kv =>
                   match convert_limited d (snd kv) with
                   | Some v => Some (fst kv, v)
                   | None => None
                   end)
                items _ l T).
    reflexivity.
    Unshelve.
    intros [k x] [k' y]. simpl.
    destruct (unfold d h x) as [v|] eqn:U; [|discriminate].
    intros Ey. injection Ey as <- <-. rewrite (IH x v U). reflexivity.
Qed.

(** C6 as stated fails: a buffer held in a tuple is not converted.
    Tuples are not walked, so the record comes out as it went in and is
    not made of plain values. *)
Lemma convert_leaves_buffer_in_tuple :
  _convert_numpy_to_list tuple_record = tuple_record
  /\ get [Key (KStr (str "pose"))] (_convert_numpy_to_list tuple_record)
     = Some (PTuple [PArrayLike (PList [PFloat (S754_finite false 1 0)])])
  /\ plain (_convert_numpy_to_list tuple_record) = false.
Proof. repeat split. Qed.

(** C6, amended: the normalisation of a record nested no deeper than
    the interpreter allows returns; a numeric buffer found in the record
    at a position reached through lists and dicts is replaced at that
    same position by its plain nested numeric sequence, the very values
    and shape [tolist()] gives; a tuple found at such a position is left
    as it is, with what it holds; and when all leaves are plain or such
    buffers, the whole normalised record is built from plain lists,
    dicts and primitives. *)
Theorem convert_buffer_in_place (depth : nat) (data : PyVal)
  (p : list step) (buf : PyVal) :
  walk_depth data <= depth ->
  get p data = Some (PArrayLike buf) ->
  numeric_nested buf = true ->
  convert_limited depth data = Some (_convert_numpy_to_list data)
  /\ get p (_convert_numpy_to_list data) = Some buf
  /\ plain buf = true
  /\ (forall q items,
         get q data = Some (PTuple items) ->
         get q (_convert_numpy_to_list data) = Some (PTuple items))
  /\ (normalizable data = true ->
      plain (_convert_numpy_to_list data) = true).
Proof.
  intros Hd Hg Hn. split; [|split; [|split; [|split]]].
  - apply convert_limited_returns. exact Hd.
  - apply (get_convert p data _ Hg).
  - apply numeric_nested_plain. exact Hn.
  - intros q items Hq. apply (get_convert q data _ Hq).
  - apply plain_convert_normalizable.
Qed.

Lemma convert_buffer_in_place_witness :
  convert_limited 1000 pose_record
  = Some (_convert_numpy_to_list pose_record)
  /\ get [Key (KStr (str "pose"))] (_convert_numpy_to_list pose_record)
     = Some (PList [PList [PFloat (S754_finite false 1 0);
                           PFloat (S754_finite false 1 1)]])
  /\ plain (_convert_numpy_to_list pose_record) = true.
Proof.
  destruct (convert_buffer_in_place 1000 pose_record
              [Key (KStr (str "pose"))]
              (PList [PList [PFloat (S754_finite false 1 0);
                             PFloat (S754_finite false 1 1)]]))
    as [H0 [H1 [_ [_ H3]]]].
  - simpl. lia.
  - reflexivity.
  - reflexivity.
  - split; [exact H0|]. split; [exact H1 | apply H3; reflexivity].
Defined.

(** A record nested deeper than the interpreter allows, finite as it
    may be, is not normalised: the [RecursionError] of line 61 leaves
    [send_data]. *)
Lemma send_data_py_too_deep (I : interpreter)
  (float_repr : spec_float -> list repr_char) (data : PyVal)
  (net : sockets) (b : bridge) :
  clients b <> [] ->
  convert_limited (recursion_limit I) data = None ->
  send_data_py I float_repr data net b
  = (Raise RecursionError, b, [EvConvert]).
Proof.
  intros Hne Hc. unfold send_data_py.
  rewrite (send_data_body_run _ _ _ _ _ Hne), Hc. reflexivity.
Qed.



(** C1, the defect: a record that is normalised and serialised is not
    sent to every consumer.  When the write to the first consumer of the
    Registry raises [socket.error] and [getpeername()], called while the
    warning is formatted (line 76), raises too, [send_data] ends with
    that exception and no other consumer, healthy as it may be, is
    written a single byte of the record, though it stays in the
    Registry. *)
Theorem send_data_starves_other_consumers (I : interpreter)
  (float_repr : spec_float -> list repr_char) (data v : PyVal)
  (payload : string) (net : sockets) (b : bridge) (c : sock)
  (rest : list sock) (n : nat) (f : failure) :
  clients b = c :: rest ->
  convert_limited (recursion_limit I) data = Some v ->
  encode_limited I float_repr v = Return payload ->
  sendall_result net c = SendFails SocketError n ->
  getpeername_result net c = Fails f ->
  let run := send_data_py I float_repr data net b in
  result_of run = Raise (exn_of f)
  /\ bridge_of run = b
  /\ forall c', c' <> c ->
       attempts_to c' (events_of run) = []
       /\ received_by c' (events_of run) = EmptyString.
Proof.
  intros Hc Hv He Hs Hg run.
  assert (Hne : clients b <> []) by (rewrite Hc; discriminate).
  assert (Hrun : run
                 = (Raise (exn_of f), b,
                    [EvConvert; EvDumps; EvAcquire; EvCopy (c :: rest);
                     EvSendall c payload (SendFails SocketError n);
                     EvGetpeername c (Fails f);
                     EvRelease])).
  { unfold run, send_data_py.
    rewrite (send_data_body_run _ _ _ _ _ Hne), Hv, He, Hc.
    rewrite fan_out_cons, (deliver_escapes net payload c b n f Hs Hg).
    reflexivity. }
  rewrite Hrun. split; [reflexivity|]. split; [reflexivity|].
  intros c' Hne'. apply Nat.eqb_neq in Hne'.
  unfold events_of. simpl. rewrite Hne'. split; reflexivity.
Qed.

Lemma send_data_starves_other_consumers_witness :
  healthy peer_gone 2
  /\ In 2 (clients (serving [1; 2]))
  /\ (exists payload,
        encode_limited cpython repr_integral frame3 = Return payload)
  /\ result_of
       (send_data_py cpython repr_integral frame3 peer_gone (serving [1; 2]))
     = Raise OSError
  /\ attempts_to 2
       (events_of
          (send_data_py cpython repr_integral frame3 peer_gone
             (serving [1; 2])))
     = [].
Proof.
  assert (E : exists payload,
             encode_limited cpython repr_integral frame3 = Return payload)
    by (eexists; reflexivity).
  destruct E as [payload E].
  destruct (send_data_starves_other_consumers cpython repr_integral frame3
              frame3 payload peer_gone (serving [1; 2]) 1 [2] 0 SocketError
              eq_refl eq_refl E eq_refl eq_refl) as [H1 [_ H3]].
  split; [reflexivity|]. split; [right; left; reflexivity|].
  split; [exists payload; exact E|]. split; [exact H1|].
  apply (H3 2). discriminate.
Defined.

(** ** The lock during [send_data] *)

Lemma deliver_lock_free (net : sockets) (p : string) (c : sock) (b : bridge) :
  lock_free (events_of (deliver net p c b)) = true.
Proof.
  unfold deliver, try_except, sendall, on_socket_error, remove_client, bind,
    perform, logging, emit, get_clients, set_clients, ret, raise.
  destruct (sendall_result net c) as [|[|] n]; simpl; try reflexivity.
  destruct (getpeername_result net c) as [|[|]]; simpl; try reflexivity.
  destruct (list_remove c (clients b)); simpl; try reflexivity.
  destruct (close_result net c) as [|[|]]; reflexivity.
Qed.

Lemma fan_out_lock_free (net : sockets) (p : string) :
  forall snapshot b,
    lock_free (events_of (fan_out net p snapshot b)) = true.
Proof.
  induction snapshot as [|c rest IH]; intros b; [reflexivity|].
  rewrite fan_out_cons.
  pose proof (deliver_lock_free net p c b) as Hd.
  destruct (deliver net p c b) as [[[u|e] b1] t1]; [|exact Hd].
  pose proof (IH b1) as Hr.
  destruct (fan_out net p rest b1) as [[r b2] t2].
  unfold events_of in *. simpl in *.
  rewrite lock_free_app, Hd, Hr. reflexivity.
Qed.

Lemma lock_free_under_lock (t : list event) (rest : list event) :
  lock_free t = true ->
  io_under_lock true (t ++ rest) = io_under_lock true rest
  /\ (forall h, lock_held h (t ++ rest) = lock_held h rest)
  /\ count is_acquire t = 0.
Proof.
  induction t as [|e r IH]; intros Hf; [repeat split|].
  simpl in Hf. apply andb_true_iff in Hf. destruct Hf as [He Hr].
  destruct (IH Hr) as [H1 [H2 H3]].
  destruct e; try discriminate He; simpl; rewrite ?H1;
    repeat split; try (intros h; apply H2); try exact H3.
Qed.

(** What [io_under_lock] says: before every socket operation of the
    trace the lock has been taken and not yet released. *)
Lemma io_under_lock_spec (t : list event) :
  forall held pre e post,
    io_under_lock held t = true ->
    t = pre ++ e :: post ->
    is_socket_io e = true ->
    lock_held held pre = true.
Proof.
  induction t as [|x r IH]; intros held pre e post Hio Ht He.
  - destruct pre; discriminate.
  - destruct pre as [|y pre'].
    + injection Ht as -> ->. simpl.
      destruct e; try discriminate He; simpl in Hio;
        apply andb_true_iff in Hio; tauto.
    + injection Ht as -> ->.
      destruct y; simpl in *;
        try (apply andb_true_iff in Hio; destruct Hio as [_ Hio]);
        eapply IH; eauto.
Qed.

Lemma lock_free_under (p : event -> bool) (t rest : list event) :
  lock_free t = true ->
  under_lock p true (t ++ rest) = under_lock p true rest.
Proof.
  induction t as [|e r IH]; intros Hf; [reflexivity|].
  simpl in Hf. apply andb_true_iff in Hf. destruct Hf as [He Hr].
  destruct e; try discriminate He; simpl; rewrite (IH Hr);
    destruct (p _); reflexivity.
Qed.

Lemma deliver_calls (net : sockets) (p : string) (c : sock) (b : bridge) :
  sendall_calls (events_of (deliver net p c b)) = [(c, p)]
  /\ count is_copy (events_of (deliver net p c b)) = 0.
Proof.
  unfold deliver, try_except, sendall, on_socket_error, remove_client, bind,
    perform, logging, emit, get_clients, set_clients, ret, raise.
  destruct (sendall_result net c) as [|[|] n]; simpl; try (split; reflexivity).
  destruct (getpeername_result net c) as [|[|]]; simpl;
    try (split; reflexivity).
  destruct (list_remove c (clients b)); simpl; try (split; reflexivity).
  destruct (close_result net c) as [|[|]]; split; reflexivity.
Qed.

Lemma fan_out_targets (net : sockets) (p : string) :
  forall snapshot b,
    incl (map fst (sendall_calls (events_of (fan_out net p snapshot b))))
      snapshot
    /\ count is_copy (events_of (fan_out net p snapshot b)) = 0.
Proof.
  induction snapshot as [|c rest IH]; intros b.
  - split; [apply incl_refl | reflexivity].
  - rewrite fan_out_cons.
    destruct (deliver_calls net p c b) as [Hd Hc].
    destruct (deliver net p c b) as [[[u|e] b1] t1].
    + destruct (IH b1) as [Hi Hn].
      destruct (fan_out net p rest b1) as [[r b2] t2].
      unfold events_of, count in *. simpl in *.
      rewrite sendall_calls_app, map_app, Hd, filter_app, length_app, Hc, Hn.
      simpl.
      split; [|reflexivity].
      intros x [<-|Hx]; [left; reflexivity | right; apply Hi; exact Hx].
    + unfold events_of in *. simpl in *. rewrite Hd, Hc. simpl.
      split; [|reflexivity].
      intros x [<-|[]]. left. reflexivity.
Qed.

(** C8 as stated fails: the write to the consumer happens between the
    acquisition of the lock and its release, and the lock is taken once,
    not twice. *)
Lemma sendall_under_lock :
  exists pre p post,
    events_of (send_data repr_integral frame3 all_fine (serving [1]))
    = pre ++ EvSendall 1 p Sent :: post
    /\ lock_held false pre = true
    /\ count is_acquire
         (events_of (send_data repr_integral frame3 all_fine (serving [1])))
       = 1.
Proof.
  exists [EvConvert; EvDumps; EvAcquire; EvCopy [1]]. eexists.
  exists [EvRelease]. repeat split.
Qed.

(** C8, amended: during every [send_data] call the Registry lock is
    taken at most once and held for the whole fan-out.  Under that one
    acquisition the member list is copied, once, as the Registry then
    is; only members of that copy are written to; and every write to a
    consumer, every [getpeername] and [close] and every removal from the
    Registry happen while the lock is held.  The lock is free again when
    the call ends, also when it ends with an exception.  This holds
    whatever the normalisation, the serialiser and the sockets do. *)
Theorem send_data_io_under_lock (normalize : outcome PyVal)
  (encode : PyVal -> outcome string) (format_error : outcome unit)
  (net : sockets) (b : bridge) :
  let t := events_of (send_data_body normalize encode format_error net b) in
  under_lock guarded false t = true
  /\ count is_acquire t <= 1
  /\ count is_copy t = count is_acquire t
  /\ (forall members,
         In (EvCopy members) t ->
         members = clients b
         /\ incl (map fst (sendall_calls t)) members)
  /\ lock_held false t = false.
Proof.
  intros t. subst t.
  assert (Hnone : forall t0 : list event,
             (forall e, In e t0 -> is_lock_event e = false
                                   /\ guarded e = false) ->
             under_lock guarded false t0 = true
             /\ count is_acquire t0 = 0
             /\ count is_copy t0 = 0
             /\ (forall members, ~ In (EvCopy members) t0)
             /\ lock_held false t0 = false).
  { induction t0 as [|e r IH]; intros H.
    - repeat split. intros members [].
    - destruct (H e (or_introl eq_refl)) as [He1 He2].
      destruct (IH (fun x Hx => H x (or_intror Hx)))
        as [I1 [I2 [I3 [I4 I5]]]].
      unfold count in *.
      destruct e; try discriminate He1; try discriminate He2; simpl;
        rewrite ?I1; repeat split; try assumption;
        intros members [Hm|Hm]; try discriminate Hm;
        exact (I4 members Hm). }
  assert (Hquiet : forall (m : list sock) t0,
             In t0 [[]; [EvConvert]; [EvConvert; EvDumps];
                    [EvConvert; EvDumps;
                     EvLog ERROR "JSON serialization error"]] ->
             under_lock guarded false t0 = true
             /\ count is_acquire t0 <= 1
             /\ count is_copy t0 = count is_acquire t0
             /\ (forall members,
                    In (EvCopy members) t0 ->
                    members = m
                    /\ incl (map fst (sendall_calls t0)) members)
             /\ lock_held false t0 = false).
  { intros m t0 Ht0.
    destruct (Hnone t0) as [I1 [I2 [I3 [I4 I5]]]].
    - intros e He.
      repeat (destruct Ht0 as [<-|Ht0];
              [simpl in He;
               repeat (destruct He as [<-|He]; [split; reflexivity|]);
               destruct He|]).
      destruct Ht0.
    - rewrite I2, I3. repeat split; try assumption.
      + apply Nat.le_0_l.
      + exfalso. exact (I4 members H).
      + exfalso. exact (I4 members H). }
  destruct (clients b) as [|c0 cs0] eqn:Hc.
  - unfold send_data_body, bind, get_clients. rewrite Hc.
    apply Hquiet. left. reflexivity.
  - assert (Hne : clients b <> []) by (rewrite Hc; discriminate).
    rewrite <- Hc. rewrite (send_data_body_run _ _ _ _ _ Hne).
    destruct normalize as [v|e];
      [|apply Hquiet; right; left; reflexivity].
    destruct (encode v) as [p|e].
    + pose proof (fan_out_lock_free net p (clients b) b) as Hf.
      destruct (fan_out_targets net p (clients b) b) as [Hi Hn].
      destruct (fan_out net p (clients b) b) as [[r b'] t].
      unfold events_of, count in *. simpl in *.
      destruct (lock_free_under_lock t [EvRelease] Hf) as [_ [H2 H3]].
      rewrite (lock_free_under guarded t [EvRelease] Hf), H2. simpl.
      unfold count in H3.
      rewrite !filter_app, !length_app, H3, Hn. simpl.
      split; [reflexivity|]. split; [apply Nat.le_refl|].
      split; [reflexivity|]. split; [|reflexivity].
      intros members [Hm|[Hm|[Hm|[Hm|Hm]]]]; try discriminate Hm.
      * injection Hm as <-. split; [reflexivity|].
        rewrite sendall_calls_app. simpl. rewrite app_nil_r. exact Hi.
      * exfalso. apply in_app_or in Hm. destruct Hm as [Hm|Hm].
        -- assert (Hz : forall l : list event,
                      List.length (filter is_copy l) = 0 ->
                      ~ In (EvCopy members) l).
           { induction l as [|x l' IHl]; intros Hl Hx; [exact Hx|].
             simpl in Hl, Hx. destruct Hx as [Hx|Hx].
             - subst x. discriminate Hl.
             - destruct (is_copy x); [discriminate Hl|].
               exact (IHl Hl Hx). }
           exact (Hz t Hn Hm).
        -- simpl in Hm. destruct Hm as [Hm|Hm]; [discriminate Hm | exact Hm].
    + destruct e;
        try (apply Hquiet; right; right; left; reflexivity).
      destruct format_error as [u|e'].
      * apply Hquiet. right. right. right. left. reflexivity.
      * apply Hquiet. right. right. left. reflexivity.
Qed.

Lemma start_bind_failure_witness :
  start address_in_use new_bridge
  = (Some (Return tt), new_bridge,
     [EvBind (Fails SocketError);
      EvLog ERROR "Failed to bind or listen on socket"])
  /\ count is_accept (events_of (start address_in_use new_bridge)) = 0.
Proof.
  split; [reflexivity|].
  apply (start_bind_failure address_in_use new_bridge).
  left. reflexivity.
Defined.

(** ** The coordinator *)

Lemma uncounted_counts (t : list event) :
  uncounted t = true ->
  count is_close_call t = 0
  /\ count is_grace_join t = 0
  /\ count is_warning t = 0.
Proof.
  unfold uncounted, count.
  induction t as [|e r IH]; intros H; [repeat split|].
  simpl in H. apply andb_true_iff in H. destruct H as [He Hr].
  destruct (IH Hr) as [H1 [H2 H3]].
  unfold counted in He. apply negb_true_iff in He.
  apply orb_false_iff in He. destruct He as [He He3].
  apply orb_false_iff in He. destruct He as [He1 He2].
  simpl. rewrite He1, He2, He3. repeat split; assumption.
Qed.

Lemma uncounted_app (t1 t2 : list event) :
  uncounted (t1 ++ t2) = uncounted t1 && uncounted t2.
Proof. apply forallb_app. Qed.

Lemma count_app (p : event -> bool) (t1 t2 : list event) :
  count p (t1 ++ t2) = count p t1 + count p t2.
Proof. unfold count. rewrite filter_app, length_app. reflexivity. Qed.

Lemma close_clients_uncounted (net : sockets) (cs : list sock) (b : bridge) :
  uncounted (events_of (close_clients net cs b)) = true.
Proof.
  induction cs as [|c rest IH]; [reflexivity|].
  pose proof (close_clients_returns net rest b) as [_ Hb].
  simpl. unfold bind at 1. unfold try_except, bind, perform, logging, emit.
  destruct (shutdown_result net c) as [|[|]];
    [destruct (close_result net c) as [|[|]]| |]; simpl;
    destruct (close_clients net rest b) as [[r b'] t];
    unfold events_of in *; simpl in *; exact IH.
Qed.

Lemma close_events (net : sockets) (b : bridge) :
  exists t,
    events_of (close net b)
    = EvLog INFO "Closing server socket and all client connections." :: t
    /\ uncounted t = true.
Proof.
  pose proof (close_clients_uncounted net (clients b) b) as Hu.
  destruct (close_clients_returns net (clients b) b) as [Hr Hb].
  unfold close, logging, emit, with_lock, bind, get_clients, set_clients,
    try_except, set_server, perform.
  destruct (close_clients net (clients b) b) as [[r b'] t].
  unfold result_of, bridge_of, events_of in *. simpl in Hr, Hb, Hu. subst r b'.
  simpl.
  destruct (server_close_result net) as [|[|]]; simpl;
    eexists; (split; [reflexivity|]);
    rewrite ?app_nil_r; simpl;
    repeat rewrite uncounted_app; rewrite Hu; reflexivity.
Qed.

Lemma wait_loop_spec (ps : list poll) :
  fst (wait_loop ps)
  = match loop_ending ps with
    | None => None
    | Some Interrupt => Some (Raise KeyboardInterrupt)
    | Some _ => Some (Return false)
    end
  /\ uncounted (snd (wait_loop ps)) = true
  /\ (loop_ending ps <> Some StartFailed).
Proof.
  induction ps as [|p rest IH]; [repeat split; discriminate|].
  destruct p; simpl.
  - destruct (wait_loop rest) as [r t]. simpl in *. exact IH.
  - repeat split; discriminate.
  - repeat split; discriminate.
Qed.

Lemma count_nil (p : event -> bool) : count p [] = 0.
Proof. reflexivity. Qed.

Lemma count_cons (p : event -> bool) (e : event) (t : list event) :
  count p (e :: t) = (if p e then 1 else 0) + count p t.
Proof. unfold count. simpl. destruct (p e); reflexivity. Qed.

Lemma setup_spec (R : run_env) (overrides : config) :
  uncounted (snd (setup R overrides)) = true
  /\ (if setup_succeeds R overrides
      then exists config_dict, fst (setup R overrides) = Return config_dict
      else exists e, fst (setup R overrides) = Raise e).
Proof.
  unfold setup, setup_succeeds.
  destruct (bridge_create R) as [|fb]; [|split; [reflexivity|eexists; reflexivity]].
  destruct (acceptor_start R) as [|fa];
    [|split; [reflexivity|eexists; reflexivity]].
  destruct (build_config (defaults R) overrides process_callback_for_unity);
    destruct (interrupt R) as [[]|];
    (split; [reflexivity|eexists; reflexivity]).
Qed.

Lemma grace_counts (R : run_env) (st : producer) :
  count is_close_call (grace R st) = 0
  /\ count is_grace_join (grace R st)
     = match st with
       | MayRun => if alive_after_close R then 1 else 0
       | _ => 0
       end
  /\ count is_warning (grace R st)
     = match st with
       | MayRun => if alive_after_close R && alive_after_grace R then 1 else 0
       | _ => 0
       end.
Proof.
  unfold grace. destruct st; [repeat split | repeat split |].
  destruct (alive_after_close R); [|repeat split].
  destruct (alive_after_grace R); repeat split.
Qed.

(** The [try] block ends as the wait does, and leaves the producer
    thread in the state [lingers] reads. *)
Lemma supervise_spec (R : run_env) :
  exists r st t,
    supervise R = (r, st, t)
    /\ uncounted t = true
    /\ match how_ended R with
       | None => r = None
       | Some Completed => r = Some (Return tt)
       | Some _ => exists e, r = Some (Raise e)
       end
    /\ (r <> None ->
        match st with
        | MayRun => alive_after_close R
        | _ => false
        end = lingers R).
Proof.
  unfold supervise, how_ended, lingers.
  destruct (interrupt R) as [[]|];
    try (eexists; eexists; eexists; split; [reflexivity|];
         split; [reflexivity|]; split; [eexists; reflexivity|];
         reflexivity);
    (destruct (producer_start R) as [|f];
     [|eexists; eexists; eexists; split; [reflexivity|];
       split; [reflexivity|]; split; [eexists; reflexivity|]; reflexivity];
     destruct (wait_loop_spec (polls R)) as [Hr [Hu Hn]];
     destruct (wait_loop (polls R)) as [r t]; simpl in Hr, Hu; subst r;
     destruct (loop_ending (polls R)) as [[| |]|];
     [ eexists; eexists; eexists; split; [reflexivity|];
       split; [exact Hu|]; split; [reflexivity|]; reflexivity
     | eexists; eexists; eexists; split; [reflexivity|];
       split; [exact Hu|]; split; [eexists; reflexivity|]; reflexivity
     | contradiction Hn; reflexivity
     | eexists; eexists; eexists; split; [reflexivity|];
       split; [exact Hu|]; split; [reflexivity|];
       intros H; contradiction H; reflexivity ]).
Qed.

Lemma handlers_spec (R : run_env) (r : outcome unit) :
  exists pending th,
    handlers R r = (pending, th)
    /\ uncounted th = true
    /\ (pending = Return tt \/ pending = Raise KeyboardInterrupt)
    /\ (undisturbed R = true -> pending = Return tt).
Proof.
  unfold handlers, undisturbed.
  destruct r as [u|e].
  - eexists. eexists. split; [reflexivity|]. split; [reflexivity|].
    split; [left|]; reflexivity.
  - destruct (interrupt R) as [[]|]; destruct e;
      (eexists; eexists; split; [reflexivity|]; split; [reflexivity|];
       split; [first [left; reflexivity | right; reflexivity]|];
       first [reflexivity | discriminate]).
Qed.

(** The [finally] block: what it returns, the bridge it leaves, and its
    trace around the events of [close]. *)
Lemma finally_spec (R : run_env) (st : producer) (pending : outcome unit) :
  exists r b t,
    finally R st pending = (r, b, t)
    /\ match interrupt R with
       | Some BeforeClose =>
           r = Some (Raise KeyboardInterrupt) /\ t = []
       | i =>
           if lock_released R then
             b = closed_bridge
             /\ exists post,
                  t = EvLog INFO "Initiating shutdown of the bridge..."
                        :: events_of
                             (close (net_at_shutdown R) (bridge_at_shutdown R))
                        ++ post
                  /\ count is_close_call post = 0
                  /\ match i with
                     | Some AfterClose =>
                         r = Some (Raise KeyboardInterrupt) /\ post = []
                     | _ =>
                         r = Some pending
                         /\ post = grace R st
                                     ++ [EvLog INFO
                                           "Sports2D Unity Bridge finished."]
                     end
           else
             t = [EvLog INFO "Initiating shutdown of the bridge...";
                  EvLog INFO
                    "Closing server socket and all client connections."]
             /\ r = match i with
                    | Some AtLock => Some (Raise KeyboardInterrupt)
                    | _ => None
                    end
       end.
Proof.
  destruct (close_returns (net_at_shutdown R) (bridge_at_shutdown R))
    as [Hr Hb].
  destruct (grace_counts R st) as [G1 _].
  assert (Hpost : count is_close_call
                    (grace R st
                       ++ [EvLog INFO "Sports2D Unity Bridge finished."])
                  = 0).
  { rewrite count_app, G1. reflexivity. }
  unfold finally, close_at_shutdown.
  destruct (close (net_at_shutdown R) (bridge_at_shutdown R))
    as [[rc bc] tc].
  unfold result_of, bridge_of, events_of in *. simpl in Hr, Hb. subst rc bc.
  destruct (lock_released R); destruct (interrupt R) as [[]|]; simpl;
    eexists; eexists; eexists; (split; [reflexivity|]);
    try (split; reflexivity);
    (split; [reflexivity|]);
    first [ exists (grace R st
                      ++ [EvLog INFO "Sports2D Unity Bridge finished."]);
            split; [reflexivity|]; split; [exact Hpost|];
            split; reflexivity
          | exists []; rewrite app_nil_r;
            split; [reflexivity|]; split; [reflexivity|];
            split; reflexivity ].
Qed.

(** C9 as stated fails: when building the configuration raises, as it
    does for overrides whose [base] entry is not a dict, the coordinator
    exits with the exception, the acceptor thread already started, and
    [bridge.close()] is never called. *)
Lemma process_with_unity_exits_unclosed :
  process_with_unity usual_run broken_overrides
  = (Some (Raise AttributeError), new_bridge,
     [EvThreadStart "bridge.start" Done])
  /\ count is_close_call
       (events_of (process_with_unity usual_run broken_overrides)) = 0.
Proof. split; reflexivity. Qed.

Lemma lingers_grace (R : run_env) (st : producer) :
  match st with
  | MayRun => alive_after_close R
  | _ => false
  end = lingers R ->
  count is_grace_join (grace R st) = (if lingers R then 1 else 0)
  /\ count is_warning (grace R st)
     = (if lingers R && alive_after_grace R then 1 else 0).
Proof.
  intros <-. destruct (grace_counts R st) as [_ [G2 G3]].
  rewrite G2, G3. destruct st; split; reflexivity.
Qed.

(** C9, amended: [process_with_unity] never calls [bridge.close()]
    twice and never waits for the producer with the five second timeout
    twice.  When it returns normally it has called [close] exactly once,
    [close] has run to its end and the bridge is closed; it has then
    waited for the producer, once and for five seconds at most, only if
    the thread, interrupted in the loop, was reported alive after the
    close, and logged the warning only if it was still reported alive
    after that.  When the set-up of lines 108-139 raises or is
    interrupted, the call ends with that exception and without a call of
    [close].  After the set-up: while the producer runs and nobody
    interrupts, the coordinator waits and has not called [close]; when
    the wait ends, by the completion of the producer, by an interrupt or
    because the producer could not be started, the coordinator returns
    normally if the operator leaves it alone and [close] gets the
    Registry lock; it does not return, [close] waiting for the lock, if
    the lock is never released; and it ends with [KeyboardInterrupt],
    [close] not called, if the interrupt arrives before line 160. *)
Theorem process_with_unity_closes_once (R : run_env) (overrides : config) :
  let run := process_with_unity R overrides in
  let t := events_of run in
  count is_close_call t <= 1
  /\ count is_grace_join t <= 1
  /\ (result_of run = Some (Return tt) ->
      count is_close_call t = 1
      /\ bridge_of run = closed_bridge
      /\ count is_grace_join t = (if lingers R then 1 else 0)
      /\ count is_warning t
         = (if lingers R && alive_after_grace R then 1 else 0)
      /\ exists pre post,
           t = pre
                 ++ events_of
                      (close (net_at_shutdown R) (bridge_at_shutdown R))
                 ++ post
           /\ count is_close_call pre = 0)
  /\ (setup_succeeds R overrides = false ->
      (exists e, result_of run = Some (Raise e))
      /\ count is_close_call t = 0)
  /\ (setup_succeeds R overrides = true ->
      match how_ended R with
      | None => result_of run = None /\ count is_close_call t = 0
      | Some _ =>
          (undisturbed R = true -> lock_released R = true ->
           result_of run = Some (Return tt))
          /\ (undisturbed R = true -> lock_released R = false ->
              result_of run = None /\ count is_close_call t = 1)
          /\ (interrupt R = Some BeforeClose ->
              result_of run = Some (Raise KeyboardInterrupt)
              /\ count is_close_call t = 0)
      end).
Proof.
  intros run t.
  destruct (setup_spec R overrides) as [Hu0 Hs].
  destruct (supervise_spec R) as [r [st [ts [Hsup [Huts [Hend Hst]]]]]].
  destruct (close_events (net_at_shutdown R) (bridge_at_shutdown R))
    as [tc [Htc Hutc]].
  destruct (uncounted_counts tc Hutc) as [C1 [C2 C3]].
  subst run t. unfold process_with_unity. rewrite Hsup.
  destruct (setup R overrides) as [[config_dict|e0] t0]; simpl in Hu0, Hs.
  - (* the set-up goes through *)
    destruct (setup_succeeds R overrides);
      [|destruct Hs as [e He]; discriminate].
    destruct (uncounted_counts t0 Hu0) as [P1 [P2 P3]].
    destruct (uncounted_counts ts Huts) as [S1 [S2 S3]].
    destruct r as [r0|].
    + (* the wait ends *)
      destruct (handlers_spec R r0) as [pending [th [Hh [Huth [Hp Hq]]]]].
      rewrite Hh.
      destruct (uncounted_counts th Huth) as [H1 [H2 H3]].
      destruct (finally_spec R st pending) as [rf [bf [tf [Hf Hshape]]]].
      rewrite Hf.
      destruct (lingers_grace R st (Hst ltac:(discriminate))) as [G2 G3].
      destruct (grace_counts R st) as [G1 _].
      assert (Hnone : how_ended R <> None).
      { destruct (how_ended R) as [[| |]|]; discriminate. }
      unfold result_of, bridge_of, events_of in *. simpl.
      assert (Hg : (if lingers R then 1 else 0) <= 1)
        by (destruct (lingers R); lia).
      assert (Hpre : count is_close_call
                       (t0 ++ ts ++ th
                          ++ [EvLog INFO
                                "Initiating shutdown of the bridge..."])
                     = 0).
      { rewrite !count_app, P1, S1, H1. reflexivity. }
      unfold undisturbed in *.
      destruct (interrupt R) as [[]|] eqn:Hi;
        try (destruct Hshape as [-> ->]);
        try (destruct (lock_released R) eqn:Hl;
             [ destruct Hshape as [-> [post [-> [Hc0 [-> ->]]]]]
             | destruct Hshape as [-> ->] ]);
        rewrite ?Htc, ?app_nil_r;
        repeat rewrite ?count_app, ?count_cons;
        simpl;
        rewrite ?count_app, ?count_nil, ?P1, ?P2, ?P3, ?S1, ?S2, ?S3,
          ?H1, ?H2, ?H3, ?C1, ?C2, ?C3, ?G1, ?G2, ?G3;
        simpl; rewrite ?Nat.add_0_r;
        (split; [lia|]); (split; [lia|]);
        (split;
         [ intros Hret; try discriminate Hret;
           (split; [reflexivity|]); (split; [reflexivity|]);
           (split; [reflexivity|]); (split; [reflexivity|]);
           exists (t0 ++ ts ++ th
                     ++ [EvLog INFO "Initiating shutdown of the bridge..."]);
           exists (grace R st
                     ++ [EvLog INFO "Sports2D Unity Bridge finished."]);
           (split; [rewrite <- !app_assoc; reflexivity | exact Hpre])
         | ]);
        (split; [discriminate|]);
        intros _;
        (destruct (how_ended R) as [e|];
         [|contradiction Hnone; reflexivity]);
        (split;
         [ intros Hund Hlock; try discriminate Hund; try discriminate Hlock;
           rewrite (Hq eq_refl); reflexivity
         | ]);
        (split;
         [ intros Hund Hlock; try discriminate Hund; try discriminate Hlock;
           split; reflexivity
         | ]);
        intros Hb; try discriminate Hb; split; reflexivity.
    + (* the wait goes on *)
      unfold result_of, bridge_of, events_of. simpl.
      rewrite !count_app, P1, P2, S1, S2. simpl.
      split; [lia|]. split; [lia|].
      split; [discriminate|]. split; [discriminate|].
      intros _. destruct (how_ended R) as [[| |]|];
        [ discriminate Hend
        | destruct Hend as [e He]; discriminate He
        | destruct Hend as [e He]; discriminate He
        | split; reflexivity ].
  - (* the set-up raises *)
    destruct (setup_succeeds R overrides);
      [destruct Hs as [c He]; discriminate|].
    destruct (uncounted_counts t0 Hu0) as [P1 [P2 P3]].
    unfold result_of, bridge_of, events_of. simpl. rewrite P1, P2.
    split; [lia|]. split; [lia|].
    split; [discriminate|].
    split; [|discriminate].
    intros _. split; [exists e0|]; reflexivity.
Qed.

Lemma process_with_unity_closes_once_witness :
  result_of (process_with_unity usual_run our_config_overrides)
  = Some (Return tt)
  /\ count is_close_call
       (events_of (process_with_unity usual_run our_config_overrides)) = 1
  /\ bridge_of (process_with_unity usual_run our_config_overrides)
     = closed_bridge
  /\ count is_grace_join
       (events_of (process_with_unity usual_run our_config_overrides)) = 0.
Proof.
  destruct (process_with_unity_closes_once usual_run our_config_overrides)
    as [_ [_ [Hret [_ Hcourse]]]].
  assert (Hr : result_of (process_with_unity usual_run our_config_overrides)
               = Some (Return tt)).
  { apply (proj1 (Hcourse eq_refl)); reflexivity. }
  destruct (Hret Hr) as [H1 [H2 [H3 _]]].
  split; [exact Hr|]. split; [exact H1|]. split; [exact H2 | exact H3].
Defined.


(** ** What is and what is not serialised *)

Lemma dict_get_In (k : PyKey) (items : list (PyKey * PyVal)) (v : PyVal) :
  dict_get k items = Some v -> exists k', In (k', v) items.
Proof.
  induction items as [|[k0 x] r IH]; simpl; [discriminate|].
  destruct (key_eqb k k0).
  - intros E. injection E as ->. exists k0. left. reflexivity.
  - intros E. destruct (IH E) as [k' Hk]. exists k'. right. exact Hk.
Qed.

Lemma dumps_fails_upwards (float_repr : spec_float -> list repr_char)
  (p : list step) :
  forall v x,
    get p v = Some x -> dumps float_repr x = None ->
    dumps float_repr v = None.
Proof.
  induction p as [|s q IH]; intros v x Hg Hx.
  - simpl in Hg. injection Hg as ->. exact Hx.
  - destruct s as [i|k]; destruct v; simpl in Hg; try discriminate.
    + destruct (nth_error items i) as [y|] eqn:En; [|discriminate].
      simpl.
      rewrite (traverse_fails (dumps float_repr) items y
                 (nth_error_In _ _ En) (IH y x Hg Hx)).
      reflexivity.
    + destruct (dict_get k items) as [y|] eqn:Ed; [|discriminate].
      destruct (dict_get_In k items y Ed) as [k' Hin].
      simpl.
      erewrite (traverse_fails _ items (k', y) Hin); [reflexivity|].
      simpl. rewrite (IH y x Hg Hx).
      destruct (json_key float_repr k'); reflexivity.
Qed.

(** X1: tuples are not walked.  A tuple found in a record through lists
    and dicts comes out of the normalisation as it went in, so when it
    holds an array the record does not serialise: for a record within
    the limits of the interpreter that can be shown in a log line,
    [send_data] logs the error, writes to nobody and leaves the bridge as
    it was. *)
Theorem array_in_tuple_drops_record (I : interpreter)
  (float_repr : spec_float -> list repr_char) (data v : PyVal)
  (p : list step) (items : list PyVal) (net : sockets) (b : bridge) :
  get p data = Some (PTuple items) ->
  existsb is_array_like items = true ->
  clients b <> [] ->
  convert_limited (recursion_limit I) data = Some v ->
  fits I (encoder_depth I) v = true ->
  repr_raises I data = None ->
  get p v = Some (PTuple items)
  /\ send_data_py I float_repr data net b
     = (Return tt, b,
        [EvConvert; EvDumps; EvLog ERROR "JSON serialization error"]).
Proof.
  intros Hg Ha Hne Hv Hf Hr.
  pose proof (get_convert p data _ Hg) as Hc. simpl in Hc.
  pose proof (convert_limited_sound _ _ _ Hv) as Ev.
  split; [rewrite Ev; exact Hc|].
  assert (Ht : dumps float_repr (PTuple items) = None).
  { apply existsb_exists in Ha. destruct Ha as [x [Hx Hax]].
    simpl. rewrite (traverse_fails (dumps float_repr) items x Hx);
      [reflexivity|].
    destruct x; try discriminate Hax. reflexivity. }
  unfold send_data_py.
  rewrite (send_data_body_run _ _ _ _ _ Hne), Hv.
  rewrite (encode_limited_fits I float_repr v Hf), Ev.
  unfold encode_payload.
  rewrite (dumps_fails_upwards float_repr p _ _ Hc Ht), Hr. reflexivity.
Qed.

Lemma array_in_tuple_drops_record_witness :
  send_data_py cpython repr_integral tuple_record all_fine (serving [1; 2])
  = (Return tt, serving [1; 2],
     [EvConvert; EvDumps; EvLog ERROR "JSON serialization error"]).
Proof.
  apply (array_in_tuple_drops_record cpython repr_integral tuple_record
           tuple_record
           [Key (KStr (str "pose"))]
           [PArrayLike (PList [PFloat (S754_finite false 1 0)])]
           all_fine (serving [1; 2])).
  - reflexivity.
  - reflexivity.
  - discriminate.
  - reflexivity.
  - reflexivity.
  - reflexivity.
Defined.

Lemma traverse_succeeds {A B : Type} (f : A -> option B) (l : list A) :
  Forall (fun x => exists y, f x = Some y) l ->
  exists ys, traverse f l = Some ys.
Proof.
  induction 1 as [|x r [y Hy] Hr [ys IH]]; simpl.
  - exists []. reflexivity.
  - rewrite Hy, IH. exists (y :: ys). reflexivity.
Qed.

Lemma json_keyed_convert (v : PyVal) :
  json_keyed v = true -> json_keyed (_convert_numpy_to_list v) = true.
Proof.
  induction v using PyVal_nested_ind; simpl; intros Hk;
    try reflexivity; try exact Hk.
  - rewrite forallb_forall in Hk. apply forallb_forall.
    intros y Hy. apply in_map_iff in Hy. destruct Hy as [x [<- Hx]].
    rewrite Forall_forall in H. apply H; [exact Hx | apply Hk; exact Hx].
  - rewrite forallb_forall in Hk. apply forallb_forall.
    intros y Hy. apply in_map_iff in Hy. destruct Hy as [[k x] [<- Hx]].
    specialize (Hk (k, x) Hx). simpl in *.
    apply andb_true_iff in Hk. destruct Hk as [Hk1 Hk2].
    rewrite Hk1. simpl.
    rewrite Forall_forall in H. apply (H (k, x) Hx). exact Hk2.
Qed.

Lemma json_key_ok_some (float_repr : spec_float -> list repr_char)
  (k : PyKey) :
  json_key_ok k = true -> exists s, json_key float_repr k = Some s.
Proof.
  destruct k as [s|z|f|[|]| |n]; simpl; intros H;
    try discriminate; eexists; reflexivity.
Qed.

Lemma dumps_plain (float_repr : spec_float -> list repr_char) (v : PyVal) :
  plain v = true -> json_keyed v = true ->
  exists s, dumps float_repr v = Some s.
Proof.
  induction v using PyVal_nested_ind; simpl; intros Hp Hk;
    try discriminate; try (eexists; reflexivity).
  - destruct b; eexists; reflexivity.
  - rewrite forallb_forall in Hp, Hk.
    destruct (traverse_succeeds (dumps float_repr) items) as [ys Hys].
    { rewrite Forall_forall in *. intros x Hx.
      apply H; [exact Hx | apply Hp; exact Hx | apply Hk; exact Hx]. }
    rewrite Hys. eexists. reflexivity.
  - rewrite forallb_forall in Hp, Hk.
    match goal with
    | |- exists s, match traverse ?f items with _ => _ end = _ =>
        destruct (traverse_succeeds f items) as [ys Hys]
    end.
    { rewrite Forall_forall in *. intros [k x] Hx.
      specialize (Hk (k, x) Hx). specialize (Hp (k, x) Hx). simpl in *.
      apply andb_true_iff in Hk. destruct Hk as [Hk1 Hk2].
      destruct (json_key_ok_some float_repr k Hk1) as [ks Hks].
      destruct (H (k, x) Hx Hp Hk2) as [xs Hxs]. simpl in Hxs.
      rewrite Hks, Hxs. eexists. reflexivity. }
    rewrite Hys. eexists. reflexivity.
Qed.

(** X2: [send_data] does not drop a record made of numbers, strings,
    booleans, [None], lists, dicts with keys the serialiser can write,
    and arrays whose [tolist()] is such a value, when the record is
    within the limits of the interpreter: it is serialised, and the
    fan-out over the Registry is run with its payload, one line of text. *)
Theorem plain_records_always_encode (I : interpreter)
  (float_repr : spec_float -> list repr_char) (data v : PyVal)
  (net : sockets) (b : bridge) :
  normalizable data = true ->
  json_keyed data = true ->
  convert_limited (recursion_limit I) data = Some v ->
  fits I (encoder_depth I) v = true ->
  clients b <> [] ->
  exists payload,
    encode_limited I float_repr v = Return payload
    /\ one_line payload
    /\ send_data_py I float_repr data net b
       = (result_of (fan_out net payload (clients b) b),
          bridge_of (fan_out net payload (clients b) b),
          EvConvert :: EvDumps :: EvAcquire :: EvCopy (clients b)
            :: events_of (fan_out net payload (clients b) b)
            ++ [EvRelease]).
Proof.
  intros Hn Hk Hv Hf Hne.
  pose proof (convert_limited_sound _ _ _ Hv) as Ev.
  destruct (dumps_plain float_repr (_convert_numpy_to_list data)
              (plain_convert_normalizable data Hn)
              (json_keyed_convert data Hk)) as [s Hs].
  assert (Hp : encode_payload float_repr v
               = Some (s ++ String newline EmptyString)%string).
  { unfold encode_payload. rewrite Ev, Hs. reflexivity. }
  exists (s ++ String newline EmptyString)%string.
  assert (He : encode_limited I float_repr v
               = Return (s ++ String newline EmptyString)%string).
  { rewrite (encode_limited_fits I float_repr v Hf), Hp. reflexivity. }
  split; [exact He|].
  split; [exact (encode_payload_one_line float_repr v _ Hp)|].
  unfold send_data_py.
  rewrite (send_data_body_run _ _ _ _ _ Hne), Hv, He.
  destruct (fan_out net (s ++ String newline EmptyString) (clients b) b)
    as [[r b'] t].
  reflexivity.
Qed.

Lemma plain_records_always_encode_witness :
  exists payload,
    encode_limited cpython repr_integral
      (_convert_numpy_to_list pose_record) = Return payload
    /\ sent_to 2
         (events_of
            (send_data_py cpython repr_integral pose_record all_fine
               (serving [1; 2])))
       = [payload].
Proof.
  destruct (plain_records_always_encode cpython repr_integral pose_record
              (_convert_numpy_to_list pose_record) all_fine
              (serving [1; 2]) eq_refl eq_refl eq_refl eq_refl)
    as [payload [He [_ Hrun]]]; [discriminate|].
  exists payload. split; [exact He|].
  rewrite Hrun. reflexivity.
Defined.

(** ** The payload is ASCII *)

Lemma ascii_text_String (c : ascii) (s : string) :
  ascii_text (String c s) = printable c && ascii_text s.
Proof. reflexivity. Qed.

Lemma ascii_text_app (s1 s2 : string) :
  ascii_text (s1 ++ s2) = ascii_text s1 && ascii_text s2.
Proof.
  unfold ascii_text. rewrite list_ascii_of_string_app. apply forallb_app.
Qed.

Lemma ascii_text_concat (sep : string) (l : list string) :
  ascii_text sep = true ->
  Forall (fun s => ascii_text s = true) l ->
  ascii_text (String.concat sep l) = true.
Proof.
  intros Hsep Hl. induction Hl as [|x r Hx Hr IH]; simpl; [reflexivity|].
  destruct r as [|y r']; [exact Hx|].
  rewrite !ascii_text_app, Hx, Hsep, IH. reflexivity.
Qed.

Lemma ascii_text_quoted (s : string) :
  ascii_text s = true -> ascii_text (quoted s) = true.
Proof.
  intros H. unfold quoted.
  rewrite ascii_text_String, ascii_text_app, H. reflexivity.
Qed.

Lemma hex_chars_printable (n : nat) :
  printable (nth n hex_chars "0"%char) = true.
Proof.
  destruct (nth_in_or_default n hex_chars "0"%char) as [H|H].
  - assert (Hall : forallb printable hex_chars = true) by reflexivity.
    rewrite forallb_forall in Hall. apply Hall. exact H.
  - rewrite H. reflexivity.
Qed.

Lemma ascii_text_uescape (n : N) : ascii_text (uescape n) = true.
Proof.
  unfold uescape, hex4, hex_digit.
  rewrite !ascii_text_String, !hex_chars_printable. reflexivity.
Qed.

Lemma ascii_text_encode_char (c : N) : ascii_text (encode_char c) = true.
Proof.
  unfold encode_char, esc.
  repeat match goal with
         | |- ascii_text (if (c =? ?k)%N then _ else _) = true =>
             destruct (c =? k)%N; [reflexivity|]
         end.
  destruct ((32 <=? c) && (c <=? 126))%N eqn:E.
  - rewrite ascii_text_String. unfold printable.
    assert (Hc : (c < 256)%N).
    { apply andb_true_iff in E. destruct E as [_ E2].
      apply N.leb_le in E2. lia. }
    rewrite (N_ascii_embedding c Hc), E. reflexivity.
  - destruct (c <? 65536)%N.
    + apply ascii_text_uescape.
    + rewrite ascii_text_app, !ascii_text_uescape. reflexivity.
Qed.

Lemma ascii_text_encode_basestring_ascii (s : pystr) :
  ascii_text (encode_basestring_ascii s) = true.
Proof.
  unfold encode_basestring_ascii. apply ascii_text_quoted.
  apply ascii_text_concat; [reflexivity|].
  apply Forall_forall. intros x Hx. apply in_map_iff in Hx.
  destruct Hx as [c [<- _]]. apply ascii_text_encode_char.
Qed.

Lemma ascii_text_string_of_uint (d : Decimal.uint) :
  ascii_text (NilEmpty.string_of_uint d) = true.
Proof.
  induction d; simpl; try reflexivity;
    rewrite ascii_text_String, IHd; reflexivity.
Qed.

Lemma ascii_text_int_repr (z : Z) : ascii_text (int_repr z) = true.
Proof.
  unfold int_repr, NilZero.string_of_int, NilZero.string_of_uint.
  destruct (Z.to_int z) as [d|d].
  - destruct d; try apply ascii_text_string_of_uint. reflexivity.
  - rewrite ascii_text_String.
    destruct d; try (rewrite ascii_text_string_of_uint; reflexivity).
    reflexivity.
Qed.

Lemma ascii_text_floatstr (float_repr : spec_float -> list repr_char)
  (f : spec_float) : ascii_text (floatstr float_repr f) = true.
Proof.
  assert (H : forall l, ascii_text
                          (string_of_list_ascii (map repr_char_ascii l))
                        = true).
  { intros l. unfold ascii_text. rewrite list_ascii_of_string_of_list.
    apply forallb_forall. intros a Ha. apply in_map_iff in Ha.
    destruct Ha as [c [<- _]].
    destruct c; simpl; try reflexivity. apply hex_chars_printable. }
  destruct f as [s|s| |s m e]; simpl; try apply H.
  - destruct s; reflexivity.
  - reflexivity.
Qed.

Lemma ascii_text_json_key (float_repr : spec_float -> list repr_char)
  (k : PyKey) (s : string) :
  json_key float_repr k = Some s -> ascii_text s = true.
Proof.
  destruct k as [t|z|f|[|]| |n]; simpl; intros E; try discriminate;
    injection E as <-; try reflexivity.
  - apply ascii_text_encode_basestring_ascii.
  - apply ascii_text_quoted, ascii_text_int_repr.
  - apply ascii_text_quoted, ascii_text_floatstr.
Qed.

Lemma ascii_text_dumps (float_repr : spec_float -> list repr_char)
  (v : PyVal) :
  forall s, dumps float_repr v = Some s -> ascii_text s = true.
Proof.
  induction v using PyVal_nested_ind; simpl; intros out E;
    try discriminate.
  - injection E as <-. reflexivity.
  - destruct b; injection E as <-; reflexivity.
  - injection E as <-. apply ascii_text_int_repr.
  - injection E as <-. apply ascii_text_floatstr.
  - injection E as <-. apply ascii_text_encode_basestring_ascii.
  - destruct (traverse (dumps float_repr) items) as [parts|] eqn:T;
      [|discriminate].
    injection E as <-. rewrite ascii_text_String, ascii_text_app.
    rewrite (ascii_text_concat ", " parts eq_refl
               (traverse_Forall _ _ items H parts T)).
    reflexivity.
  - destruct (traverse (dumps float_repr) items) as [parts|] eqn:T;
      [|discriminate].
    injection E as <-. rewrite ascii_text_String, ascii_text_app.
    rewrite (ascii_text_concat ", " parts eq_refl
               (traverse_Forall _ _ items H parts T)).
    reflexivity.
  - match type of E with
    | match traverse ?f items with _ => _ end = _ =>
        destruct (traverse f items) as [parts|] eqn:T; [|discriminate];
        assert (HF : Forall (fun kv => forall y, f kv = Some y ->
                                                 ascii_text y = true) items)
    end.
    { eapply Forall_impl; [|exact H]. intros [k x] Hx y. simpl in *.
      destruct (json_key float_repr k) as [ks|] eqn:Ek; [|discriminate].
      destruct (dumps float_repr x) as [xs|] eqn:Ex; [|discriminate].
      intros Ey. injection Ey as <-.
      rewrite ascii_text_app, (ascii_text_json_key _ _ _ Ek).
      rewrite !ascii_text_String, (Hx xs eq_refl). reflexivity. }
    injection E as <-. rewrite ascii_text_String, ascii_text_app.
    rewrite (ascii_text_concat ", " parts eq_refl
               (traverse_Forall _ _ items HF parts T)).
    reflexivity.
  - injection E as <-. apply ascii_text_floatstr.
  - injection E as <-. apply ascii_text_encode_basestring_ascii.
Qed.

(** X3: whatever the record, the text [json.dumps] returns for it is made
    of printable ASCII characters only, so encoding the payload as UTF-8
    (line 66) cannot fail and yields one byte per character: the
    serialised text and then the newline. *)
Theorem payload_is_ascii (float_repr : spec_float -> list repr_char)
  (v : PyVal) (payload : string) :
  encode_payload float_repr v = Some payload ->
  exists text,
    payload = (text ++ String newline EmptyString)%string
    /\ ascii_text text = true.
Proof.
  unfold encode_payload.
  destruct (dumps float_repr v) as [s|] eqn:E; [|discriminate].
  intros H. injection H as <-. exists s. split; [reflexivity|].
  exact (ascii_text_dumps float_repr v s E).
Qed.

Lemma payload_is_ascii_witness :
  exists text,
    encode_payload repr_integral
      (PDict [(KStr [233; 128512]%N, PStr [10; 34; 8364]%N)])
    = Some (text ++ String newline EmptyString)%string
    /\ ascii_text text = true.
Proof.
  destruct (payload_is_ascii repr_integral
              (PDict [(KStr [233; 128512]%N, PStr [10; 34; 8364]%N)])
              _ eq_refl) as [text [H1 H2]].
  exists text. split; [|exact H2].
  rewrite <- H1. reflexivity.
Defined.

(** ** The Registry under [send_data] *)

Lemma list_remove_sub (c : sock) (l l' : list sock) :
  list_remove c l = Some l' ->
  incl l' l
  /\ List.length l' <= List.length l
  /\ (NoDup l -> NoDup l').
Proof.
  revert l'. induction l as [|y r IH]; intros l' E; [discriminate|].
  simpl in E. destruct (Nat.eqb c y).
  - injection E as <-. split; [|split].
    + intros x Hx. right. exact Hx.
    + simpl. apply Nat.le_succ_diag_r.
    + intros H. inversion H. assumption.
  - destruct (list_remove c r) as [r'|]; [|discriminate].
    injection E as <-. destruct (IH r' eq_refl) as [Hi [Hl Hn]].
    split; [|split].
    + intros x [->|Hx]; [left; reflexivity | right; apply Hi; exact Hx].
    + simpl. apply le_n_S. exact Hl.
    + intros H. inversion H as [|? ? Hy Hr]; subst. constructor.
      * intros Hin. apply Hy. apply Hi. exact Hin.
      * apply Hn. exact Hr.
Qed.

Lemma shrunk_refl (b : bridge) : shrunk b b.
Proof.
  split; [reflexivity|]. split; [apply incl_refl|].
  split; [apply Nat.le_refl | auto].
Qed.

Lemma shrunk_trans (b1 b2 b3 : bridge) :
  shrunk b3 b2 -> shrunk b2 b1 -> shrunk b3 b1.
Proof.
  intros [S1 [I1 [L1 N1]]] [S2 [I2 [L2 N2]]].
  split; [congruence|]. split; [|split].
  - intros x Hx. apply I2, I1, Hx.
  - eapply Nat.le_trans; eassumption.
  - auto.
Qed.

Lemma deliver_shrinks (net : sockets) (p : string) (c : sock) (b : bridge) :
  shrunk (bridge_of (deliver net p c b)) b.
Proof.
  unfold deliver, try_except, sendall, on_socket_error, remove_client, bind,
    perform, logging, emit, get_clients, set_clients, ret, raise.
  destruct (sendall_result net c) as [|[|] n]; simpl; try apply shrunk_refl.
  destruct (getpeername_result net c) as [|[|]]; simpl;
    try apply shrunk_refl.
  destruct (list_remove c (clients b)) as [cs'|] eqn:E; simpl;
    [|apply shrunk_refl].
  destruct (list_remove_sub c (clients b) cs' E) as [Hi [Hl Hn]].
  destruct (close_result net c) as [|[|]]; simpl;
    (split; [reflexivity|]; split; [exact Hi|]; split; [exact Hl|exact Hn]).
Qed.

Lemma fan_out_shrinks (net : sockets) (p : string) :
  forall snapshot b, shrunk (bridge_of (fan_out net p snapshot b)) b.
Proof.
  induction snapshot as [|c rest IH]; intros b; [apply shrunk_refl|].
  rewrite fan_out_cons.
  pose proof (deliver_shrinks net p c b) as Hd.
  destruct (deliver net p c b) as [[[u|e] b1] t1]; [|exact Hd].
  pose proof (IH b1) as Hr.
  destruct (fan_out net p rest b1) as [[r b2] t2].
  unfold bridge_of in *. simpl in *.
  exact (shrunk_trans _ _ _ Hr Hd).
Qed.

(** X4: whatever the record and however the sockets behave, also when an
    exception leaves the call, [send_data] never adds a consumer to the
    Registry and never touches the listening socket: the consumers left
    are among those present before, no more of them, and without
    repetition if there was none. *)
Theorem send_data_registry_shrinks
  (float_repr : spec_float -> list repr_char) (normalize : outcome PyVal)
  (net : sockets) (b : bridge) :
  shrunk (bridge_of (send_data_with float_repr normalize net b)) b.
Proof.
  destruct (clients b) as [|c0 cs0] eqn:Hc.
  - unfold send_data_with, send_data_body, bind, get_clients. rewrite Hc.
    apply shrunk_refl.
  - assert (Hne : clients b <> []) by (rewrite Hc; discriminate).
    rewrite (send_data_with_run _ _ _ _ Hne).
    destruct normalize as [v|e]; [|apply shrunk_refl].
    destruct (encode_payload float_repr v) as [p|]; [|apply shrunk_refl].
    pose proof (fan_out_shrinks net p (clients b) b) as Hf.
    destruct (fan_out net p (clients b) b) as [[r b'] t].
    exact Hf.
Qed.

Lemma closed_in_app (t1 t2 : list event) :
  closed_in (t1 ++ t2) = closed_in t1 ++ closed_in t2.
Proof.
  induction t1 as [|e t IH]; simpl; [reflexivity|].
  destruct e; try exact IH. simpl. rewrite IH. reflexivity.
Qed.

Lemma fan_out_closed_in (net : sockets) (p : string) :
  forall (snapshot : list sock) (b : bridge),
    NoDup snapshot ->
    NoDup (clients b) ->
    incl snapshot (clients b) ->
    (forall c, In c snapshot -> peer_known net c) ->
    closed_in (events_of (fan_out net p snapshot b))
    = filter (write_failed net) snapshot.
Proof.
  induction snapshot as [|c rest IH]; intros b Hs Hb Hincl Hpeer;
    [reflexivity|].
  inversion Hs as [|? ? Hnc Hrest]; subst.
  assert (Hinc : In c (clients b)) by (apply Hincl; left; reflexivity).
  rewrite fan_out_cons. simpl. unfold write_failed at 1.
  destruct (sendall_result net c) as [|[|] n] eqn:Hsend.
  - rewrite (deliver_sent net p c b Hsend).
    specialize (IH b Hrest Hb (fun x Hx => Hincl x (or_intror Hx))
                  (fun x Hx => Hpeer x (or_intror Hx))).
    destruct (fan_out net p rest b) as [[r b2] t2].
    unfold events_of in *. simpl in *. exact IH.
  - assert (Hg : getpeername_result net c = Done).
    { apply (Hpeer c (or_introl eq_refl) n). exact Hsend. }
    rewrite (deliver_pruned net p c b n _ Hsend Hg
               (list_remove_filter c (clients b) Hb Hinc)).
    set (b1 := {| clients := filter (fun x => negb (Nat.eqb x c)) (clients b);
                  server_socket := server_socket b |}).
    assert (IH1 : closed_in (events_of (fan_out net p rest b1))
                  = filter (write_failed net) rest).
    { apply IH; [exact Hrest | apply NoDup_filter; exact Hb | |].
      - intros x Hx. simpl. apply filter_In. split.
        + apply Hincl. right. exact Hx.
        + destruct (Nat.eqb x c) eqn:E; [|reflexivity].
          apply Nat.eqb_eq in E. subst x. contradiction.
      - intros x Hx. apply Hpeer. right. exact Hx. }
    destruct (fan_out net p rest b1) as [[r b2] t2].
    unfold events_of in *. simpl in *. rewrite IH1. reflexivity.
  - rewrite (deliver_other net p c b n Hsend).
    specialize (IH b Hrest Hb (fun x Hx => Hincl x (or_intror Hx))
                  (fun x Hx => Hpeer x (or_intror Hx))).
    destruct (fan_out net p rest b) as [[r b2] t2].
    unfold events_of in *. simpl in *. exact IH.
Qed.

(** X5: when a record serialises and every consumer whose write raises
    [socket.error] still answers [getpeername()], [send_data] returns and
    has removed from the Registry exactly the consumers whose write raised
    [socket.error], keeping the others in their order, also those whose
    write raised another exception; the sockets it closed are exactly the
    removed ones, each once. *)
Theorem send_data_prunes_exactly
  (float_repr : spec_float -> list repr_char) (data : PyVal) (p : string)
  (net : sockets) (b : bridge) :
  NoDup (clients b) ->
  clients b <> [] ->
  (forall c, peer_known net c) ->
  encode_payload float_repr (_convert_numpy_to_list data) = Some p ->
  result_of (send_data float_repr data net b) = Return tt
  /\ bridge_of (send_data float_repr data net b)
     = {| clients := filter (fun c => negb (write_failed net c)) (clients b);
          server_socket := server_socket b |}
  /\ closed_in (events_of (send_data float_repr data net b))
     = filter (write_failed net) (clients b).
Proof.
  intros Hnd Hne Hpeer He.
  pose proof (fan_out_closed_in net p (clients b) b Hnd Hnd
                (incl_refl _) (fun x _ => Hpeer x)) as Hcl.
  destruct (fan_out_isolates net p (clients b) b Hnd Hnd
              (incl_refl _) (fun x _ => Hpeer x))
    as [t [Hrun _]].
  unfold send_data. rewrite (send_data_with_run _ _ _ _ Hne), He.
  rewrite Hrun in *. unfold result_of, bridge_of, events_of in *.
  simpl in *. split; [reflexivity|]. split.
  - f_equal. apply filter_ext_in. intros x Hx.
    apply mem_In in Hx. rewrite Hx. reflexivity.
  - rewrite closed_in_app. simpl. rewrite app_nil_r. exact Hcl.
Qed.

Lemma send_data_prunes_exactly_witness :
  clients (bridge_of (send_data repr_integral frame3 mixed_failures
                        (serving [1; 2; 3; 4])))
  = [1; 3; 4]
  /\ closed_in (events_of (send_data repr_integral frame3 mixed_failures
                             (serving [1; 2; 3; 4])))
     = [2].
Proof.
  assert (E : exists p, encode_payload repr_integral
                          (_convert_numpy_to_list frame3) = Some p)
    by (eexists; reflexivity).
  destruct E as [p E].
  destruct (send_data_prunes_exactly repr_integral frame3 p mixed_failures
              (serving [1; 2; 3; 4])) as [_ [H2 H3]].
  - repeat constructor; simpl; intuition discriminate.
  - discriminate.
  - intros c n _. reflexivity.
  - exact E.
  - rewrite H2, H3. split; reflexivity.
Defined.

(** X6: under the same conditions every consumer of the Registry is
    written to exactly once, in Registry order and with the same bytes,
    the one encoded payload; a consumer whose write succeeds has been
    sent that payload in full, one whose write raised has not. *)
Theorem send_data_writes_each_once
  (float_repr : spec_float -> list repr_char) (data : PyVal) (p : string)
  (net : sockets) (b : bridge) :
  NoDup (clients b) ->
  clients b <> [] ->
  (forall c, peer_known net c) ->
  encode_payload float_repr (_convert_numpy_to_list data) = Some p ->
  sendall_calls (events_of (send_data float_repr data net b))
  = map (fun c => (c, p)) (clients b)
  /\ forall c, In c (clients b) ->
               sent_to c (events_of (send_data float_repr data net b))
               = share net p c.
Proof.
  intros Hnd Hne Hpeer He.
  destruct (fan_out_isolates net p (clients b) b Hnd Hnd
              (incl_refl _) (fun x _ => Hpeer x))
    as [t [Hrun [Hsent [_ [Hcalls _]]]]].
  unfold send_data. rewrite (send_data_with_run _ _ _ _ Hne), He, Hrun.
  unfold events_of. simpl. split.
  - rewrite sendall_calls_app. simpl. rewrite app_nil_r. exact Hcalls.
  - intros c Hc. rewrite sent_to_app. simpl. rewrite app_nil_r.
    rewrite Hsent. apply mem_In in Hc. rewrite Hc. reflexivity.
Qed.

Lemma send_data_writes_each_once_witness :
  map fst (sendall_calls
             (events_of (send_data repr_integral frame3 mixed_failures
                           (serving [1; 2; 3; 4]))))
  = [1; 2; 3; 4]
  /\ sent_to 2 (events_of (send_data repr_integral frame3 mixed_failures
                             (serving [1; 2; 3; 4])))
     = [].
Proof.
  assert (E : exists p, encode_payload repr_integral
                          (_convert_numpy_to_list frame3) = Some p)
    by (eexists; reflexivity).
  destruct E as [p E].
  destruct (send_data_writes_each_once repr_integral frame3 p mixed_failures
              (serving [1; 2; 3; 4])) as [H1 H2].
  - repeat constructor; simpl; intuition discriminate.
  - discriminate.
  - intros c n _. reflexivity.
  - exact E.
  - rewrite H1. split; [reflexivity|].
    rewrite (H2 2) by (simpl; tauto). reflexivity.
Defined.

(** ** Sequences of calls and pruned consumers *)

Lemma attempts_to_app (c : sock) (t1 t2 : list event) :
  attempts_to c (t1 ++ t2) = attempts_to c t1 ++ attempts_to c t2.
Proof.
  induction t1 as [|e t IH]; simpl; [reflexivity|].
  destruct e; try exact IH.
  destruct (Nat.eqb c c0); simpl; rewrite IH; reflexivity.
Qed.

Lemma attempts_to_calls (c : sock) (p : string) (l : list sock)
  (t : list event) :
  NoDup l ->
  sendall_calls t = map (fun x => (x, p)) l ->
  attempts_to c t = if mem c l then [p] else [].
Proof.
  revert l. induction t as [|e t IH]; intros l Hnd Hc.
  - destruct l; [reflexivity | discriminate].
  - destruct e; simpl in *; try (apply IH; assumption).
    destruct l as [|y l']; [discriminate|].
    simpl in Hc. injection Hc as -> -> Hc.
    inversion Hnd as [|? ? Hy Hr]; subst.
    rewrite (IH l' Hr Hc). unfold mem. simpl. fold (mem c l').
    destruct (Nat.eqb c y) eqn:E; [|reflexivity].
    apply Nat.eqb_eq in E. subst y.
    destruct (mem c l') eqn:Em; [|reflexivity].
    apply mem_In in Em. contradiction.
Qed.

Lemma mem_filter (f : sock -> bool) (c : sock) (l : list sock) :
  mem c (filter f l) = mem c l && f c.
Proof.
  induction l as [|y r IH]; [reflexivity|].
  simpl. destruct (f y) eqn:Ef; unfold mem in *; simpl; rewrite IH.
  - destruct (Nat.eqb c y) eqn:E; [|reflexivity].
    apply Nat.eqb_eq in E. subst y. rewrite Ef.
    simpl. reflexivity.
  - destruct (Nat.eqb c y) eqn:E; [|reflexivity].
    apply Nat.eqb_eq in E. subst y. rewrite Ef.
    simpl. rewrite andb_false_r. reflexivity.
Qed.

(** One call, seen from every consumer at once. *)
Lemma send_data_step (float_repr : spec_float -> list repr_char)
  (data : PyVal) (net : sockets) (b : bridge) :
  NoDup (clients b) ->
  (forall c, peer_known net c) ->
  exists b' t,
    send_data float_repr data net b = (Return tt, b', t)
    /\ NoDup (clients b')
    /\ server_socket b' = server_socket b
    /\ match encode_payload float_repr (_convert_numpy_to_list data) with
       | None =>
           clients b' = clients b
           /\ (forall c, attempts_to c t = [])
           /\ (forall c, sent_to c t = [])
       | Some p =>
           (forall c, mem c (clients b')
                      = mem c (clients b) && negb (write_failed net c))
           /\ (forall c, attempts_to c t
                         = if mem c (clients b) then [p] else [])
           /\ (forall c, sent_to c t
                         = if mem c (clients b) then share net p c else [])
       end.
Proof.
  intros Hnd Hpeer.
  destruct (clients b) as [|c0 cs0] eqn:Hc.
  - exists b, []. unfold send_data, send_data_with, send_data_body, bind, get_clients.
    rewrite Hc. split; [reflexivity|]. split; [constructor|].
    split; [reflexivity|].
    destruct (encode_payload float_repr (_convert_numpy_to_list data));
      rewrite ?Hc; repeat split.
  - assert (Hne : clients b <> []) by (rewrite Hc; discriminate).
    rewrite <- Hc in *. clear Hc c0 cs0.
    unfold send_data. rewrite (send_data_with_run _ _ _ _ Hne).
    destruct (encode_payload float_repr (_convert_numpy_to_list data))
      as [p|].
    + destruct (fan_out_isolates net p (clients b) b Hnd Hnd
                  (incl_refl _) (fun x _ => Hpeer x))
        as [t [Hrun [Hsent [_ [Hcalls _]]]]].
      rewrite Hrun. eexists. eexists. split; [reflexivity|]. simpl.
      split; [apply NoDup_filter; exact Hnd|]. split; [reflexivity|].
      split; [|split].
      * intros c. rewrite mem_filter.
        destruct (mem c (clients b)); reflexivity.
      * intros c. rewrite attempts_to_app. simpl. rewrite app_nil_r.
        exact (attempts_to_calls c p (clients b) t Hnd Hcalls).
      * intros c. rewrite sent_to_app. simpl. rewrite app_nil_r.
        apply Hsent.
    + exists b. eexists. split; [reflexivity|].
      split; [exact Hnd|]. repeat split.
Qed.

Lemma send_all_step (float_repr : spec_float -> list repr_char)
  (calls : list (PyVal * sockets)) :
  forall (b : bridge),
    NoDup (clients b) ->
    (forall call, In call calls -> forall c, peer_known (snd call) c) ->
    exists b' t,
      send_all float_repr calls b = (Return tt, b', t)
      /\ (forall c, attempts_to c t
                    = if mem c (clients b) then attempts float_repr c calls
                      else [])
      /\ (forall c, sent_to c t
                    = if mem c (clients b) then deliveries float_repr c calls
                      else []).
Proof.
  induction calls as [|[data net] rest IH]; intros b Hnd Hpeer.
  - exists b, []. split; [reflexivity|].
    split; intros c; destruct (mem c (clients b)); reflexivity.
  - destruct (send_data_step float_repr data net b Hnd
                (Hpeer (data, net) (or_introl eq_refl)))
      as [b1 [t1 [Hrun [Hnd1 [_ Hcase]]]]].
    destruct (IH b1 Hnd1 (fun call Hc => Hpeer call (or_intror Hc)))
      as [b2 [t2 [Hrun2 [Hatt Hsent]]]].
    exists b2, (t1 ++ t2). split.
    { simpl. unfold bind. rewrite Hrun, Hrun2. reflexivity. }
    simpl.
    destruct (encode_payload float_repr (_convert_numpy_to_list data))
      as [p|].
    + destruct Hcase as [Hmem [Ha Hs]].
      split; intros c;
        rewrite ?attempts_to_app, ?sent_to_app, ?Ha, ?Hs, ?Hatt, ?Hsent,
          Hmem;
        destruct (mem c (clients b)); simpl; try reflexivity;
        destruct (write_failed net c); simpl;
        rewrite ?app_nil_r; reflexivity.
    + destruct Hcase as [Hcl [Ha Hs]].
      split; intros c;
        rewrite ?attempts_to_app, ?sent_to_app, ?Ha, ?Hs, ?Hatt, ?Hsent,
          Hcl; reflexivity.
Qed.

(** X7: over a sequence of [send_data] calls a consumer of the Registry
    is tried with the records that serialise, in call order, up to and
    including the first one on which its write raises [socket.error];
    after that it is pruned and no later record is ever tried on it.
    A socket that is not in the Registry is never written to.  (Every
    failed write is taken to be followed by a [getpeername()] that
    answers.) *)
Theorem send_all_never_retries_pruned
  (float_repr : spec_float -> list repr_char)
  (calls : list (PyVal * sockets)) (b : bridge) (c : sock) :
  NoDup (clients b) ->
  (forall call, In call calls -> forall c', peer_known (snd call) c') ->
  result_of (send_all float_repr calls b) = Return tt
  /\ attempts_to c (events_of (send_all float_repr calls b))
     = if mem c (clients b) then attempts float_repr c calls else [].
Proof.
  intros Hnd Hpeer.
  destruct (send_all_step float_repr calls b Hnd Hpeer)
    as [b' [t [Hrun [Hatt _]]]].
  rewrite Hrun. split; [reflexivity | apply Hatt].
Qed.

Lemma send_all_never_retries_pruned_witness :
  List.length
    (attempts_to 2
       (events_of (send_all repr_integral scenario_then_more
                     (serving [1; 2]))))
  = 2
  /\ List.length
       (attempts_to 1
          (events_of (send_all repr_integral scenario_then_more
                        (serving [1; 2]))))
     = 3.
Proof.
  assert (Hnd : NoDup (clients (serving [1; 2])))
    by (repeat constructor; simpl; intuition discriminate).
  assert (Hpeer : forall call, In call scenario_then_more ->
                               forall c', peer_known (snd call) c').
  { intros call [<-|[<-|[<-|[<-|[]]]]] c' n _; reflexivity. }
  split.
  - rewrite (proj2 (send_all_never_retries_pruned repr_integral
                      scenario_then_more (serving [1; 2]) 2 Hnd Hpeer)).
    reflexivity.
  - rewrite (proj2 (send_all_never_retries_pruned repr_integral
                      scenario_then_more (serving [1; 2]) 1 Hnd Hpeer)).
    reflexivity.
Defined.

(** ** What [close] does to the sockets *)

Lemma shutdowns_app (t1 t2 : list event) :
  shutdowns (t1 ++ t2) = shutdowns t1 ++ shutdowns t2.
Proof.
  induction t1 as [|e t IH]; simpl; [reflexivity|].
  destruct e; try exact IH. simpl. rewrite IH. reflexivity.
Qed.

Lemma close_clients_teardown (net : sockets) (cs : list sock) (b : bridge) :
  shutdowns (events_of (close_clients net cs b)) = cs
  /\ closed_in (events_of (close_clients net cs b))
     = filter (shutdown_ok net) cs
  /\ lock_free (events_of (close_clients net cs b)) = true
  /\ count is_server_close (events_of (close_clients net cs b)) = 0.
Proof.
  induction cs as [|c rest IH]; [repeat split|].
  simpl. unfold bind at 1. unfold try_except, bind, perform, logging, emit.
  unfold shutdown_ok at 1.
  destruct (shutdown_result net c) as [|[|]];
    [destruct (close_result net c) as [|[|]]| |]; simpl;
    destruct (close_clients net rest b) as [[r b'] t];
    unfold events_of, count in *; simpl in *;
    destruct IH as [H1 [H2 [H3 H4]]]; rewrite H1, H2, H3, H4; repeat split.
Qed.

Lemma close_shape (net : sockets) (b : bridge) :
  exists post,
    events_of (close net b)
    = EvLog INFO "Closing server socket and all client connections."
        :: EvAcquire
        :: events_of (close_clients net (clients b) b)
        ++ EvRelease :: EvServerClose (server_close_result net) :: post
    /\ (post = [] \/ exists msg, post = [EvLog ERROR msg]).
Proof.
  destruct (close_clients_returns net (clients b) b) as [Hr Hb].
  unfold close, logging, emit, with_lock, bind, get_clients, set_clients,
    try_except, set_server, perform.
  destruct (close_clients net (clients b) b) as [[r b'] t].
  unfold result_of, bridge_of, events_of in *. simpl in Hr, Hb. subst r b'.
  simpl.
  destruct (server_close_result net) as [|[|]]; simpl; eexists;
    (split;
     [rewrite ?app_nil_r; rewrite <- ?app_assoc; simpl; reflexivity|]);
    [left; reflexivity | right; eexists; reflexivity
     | right; eexists; reflexivity].
Qed.

(** X8: [close] calls [shutdown()] on every consumer of the Registry
    exactly once, in Registry order; it calls [close()] on a consumer's
    socket exactly when that [shutdown()] returned, so the socket of a
    consumer whose [shutdown()] raised (one that has already
    disconnected, say) leaves the Registry without the bridge having
    closed it. *)
Theorem close_shuts_down_every_client (net : sockets) (b : bridge) :
  shutdowns (events_of (close net b)) = clients b
  /\ closed_in (events_of (close net b))
     = filter (shutdown_ok net) (clients b)
  /\ clients (bridge_of (close net b)) = [].
Proof.
  destruct (close_shape net b) as [post [Ht Hpost]].
  destruct (close_clients_teardown net (clients b) b) as [H1 [H2 _]].
  destruct (close_returns net b) as [_ Hb].
  rewrite Ht, Hb. simpl. rewrite shutdowns_app, closed_in_app, H1, H2.
  simpl.
  destruct Hpost as [->|[msg ->]]; simpl; rewrite !app_nil_r;
    repeat split.
Qed.

Lemma close_shuts_down_every_client_witness :
  shutdowns (events_of (close consumer2_disconnected (serving [1; 2; 3])))
  = [1; 2; 3]
  /\ closed_in (events_of (close consumer2_disconnected (serving [1; 2; 3])))
     = [1; 3].
Proof.
  destruct (close_shuts_down_every_client consumer2_disconnected
              (serving [1; 2; 3])) as [H1 [H2 _]].
  split; [exact H1 | exact H2].
Defined.

(** X9: [close] takes the Registry lock exactly once and has released it
    when it returns; every [shutdown()] and [close()] on a consumer's
    socket happens while the lock is held, and the listening socket is
    closed once, after the lock has been released and after every
    consumer has been dealt with. *)
Theorem close_lock_discipline (net : sockets) (b : bridge) :
  count is_acquire (events_of (close net b)) = 1
  /\ lock_held false (events_of (close net b)) = false
  /\ io_under_lock false (events_of (close net b)) = true
  /\ count is_server_close (events_of (close net b)) = 1
  /\ exists pre post,
       events_of (close net b)
       = pre ++ EvServerClose (server_close_result net) :: post
       /\ lock_held false pre = false
       /\ shutdowns pre = clients b
       /\ shutdowns post = []
       /\ closed_in post = [].
Proof.
  destruct (close_shape net b) as [post [Ht Hpost]].
  destruct (close_clients_teardown net (clients b) b) as [H1 [_ [Hf Hsc]]].
  set (tc := events_of (close_clients net (clients b) b)) in *.
  destruct (lock_free_under_lock tc
              (EvRelease :: EvServerClose (server_close_result net) :: post)
              Hf) as [L1 [L2 L3]].
  destruct (lock_free_under_lock tc [EvRelease] Hf) as [_ [L4 _]].
  rewrite Ht. split; [|split; [|split; [|split]]].
  - change (S (count is_acquire
                 (tc ++ EvRelease
                     :: EvServerClose (server_close_result net) :: post))
            = 1).
    rewrite count_app, L3.
    destruct Hpost as [->|[msg ->]]; reflexivity.
  - simpl. rewrite L2. simpl.
    destruct Hpost as [->|[msg ->]]; reflexivity.
  - simpl. rewrite L1. simpl.
    destruct Hpost as [->|[msg ->]]; reflexivity.
  - change (count is_server_close
              (tc ++ EvRelease
                  :: EvServerClose (server_close_result net) :: post)
            = 1).
    rewrite count_app, Hsc.
    destruct Hpost as [->|[msg ->]]; reflexivity.
  - exists (EvLog INFO "Closing server socket and all client connections."
              :: EvAcquire :: tc ++ [EvRelease]), post.
    split; [simpl; rewrite <- app_assoc; reflexivity|].
    split; [simpl; rewrite L4; reflexivity|].
    split; [simpl; rewrite shutdowns_app, H1; simpl; apply app_nil_r|].
    destruct Hpost as [->|[msg ->]]; split; reflexivity.
Qed.

(** ** What [start] admits *)

Lemma accept_loop_spec (script : list accept_result) :
  forall b,
    result_of (accept_loop script b)
    = (if gives_up script then Some (Return tt) else None)
    /\ bridge_of (accept_loop script b)
       = {| clients := clients b ++ admitted script;
            server_socket := server_socket b |}
    /\ count is_acquire (events_of (accept_loop script b))
       = List.length (admitted script)
    /\ lock_held false (events_of (accept_loop script b)) = false
    /\ accept_outside_lock false (events_of (accept_loop script b)) = true
    /\ count is_accept (events_of (accept_loop script b))
       = List.length (admitted script) + (if gives_up script then 1 else 0).
Proof.
  induction script as [|a rest IH]; intros b.
  - simpl. rewrite app_nil_r. destruct b. repeat split.
  - destruct a as [c|[|]].
    + simpl.
      match goal with
      | |- context [accept_loop rest ?b1] =>
          specialize (IH b1);
          destruct (accept_loop rest b1) as [[r b2] t2]
      end.
      unfold result_of, bridge_of, events_of, count in *. simpl in *.
      destruct IH as [H1 [H2 [H3 [H4 [H5 H6]]]]].
      rewrite <- app_assoc in H2. simpl in H2.
      split; [exact H1|]. split; [exact H2|].
      split; [rewrite H3; reflexivity|].
      split; [exact H4|]. split; [exact H5 | rewrite H6; reflexivity].
    + simpl. rewrite app_nil_r. destruct b. repeat split.
    + simpl. rewrite app_nil_r. destruct b. repeat split.
Qed.

Lemma start_run (L : listener) (b : bridge) :
  bind_result L = Done ->
  listen_result L = Done ->
  start L b
  = match accept_loop (accepts L)
            {| clients := clients b; server_socket := Listening |} with
    | (r, b2, t2) =>
        (r, b2,
         EvBind Done :: EvListen Done
           :: EvLog INFO "Waiting for Unity client" :: t2)
    end.
Proof.
  intros Hb Hl.
  unfold start, listen_setup, try_except, bind, perform, set_server,
    logging, emit, ret.
  rewrite Hb, Hl. simpl.
  destruct (accept_loop (accepts L)
              {| clients := clients b; server_socket := Listening |})
    as [[r b2] t2].
  reflexivity.
Qed.

Lemma start_bridge (L : listener) (b : bridge) :
  bind_result L = Done ->
  listen_result L = Done ->
  bridge_of (start L b)
  = {| clients := clients b ++ admitted (accepts L);
       server_socket := Listening |}.
Proof.
  intros Hb Hl. rewrite (start_run L b Hb Hl).
  destruct (accept_loop_spec (accepts L)
              {| clients := clients b; server_socket := Listening |})
    as [_ [H2 _]].
  destruct (accept_loop (accepts L)
              {| clients := clients b; server_socket := Listening |})
    as [[r b2] t2].
  exact H2.
Qed.

(** X11: once the socket listens, [start] appends every accepted
    consumer to the end of the Registry, in the order of arrival and
    without removing anybody, until an [accept] raises; it returns then,
    without raising, and stays blocked in [accept] otherwise.  What
    arrives after the failing [accept] is not admitted. *)
Theorem start_admits_in_order (L : listener) (b : bridge) :
  bind_result L = Done ->
  listen_result L = Done ->
  result_of (start L b)
  = (if gives_up (accepts L) then Some (Return tt) else None)
  /\ bridge_of (start L b)
     = {| clients := clients b ++ admitted (accepts L);
          server_socket := Listening |}
  /\ count is_accept (events_of (start L b))
     = List.length (admitted (accepts L))
       + (if gives_up (accepts L) then 1 else 0).
Proof.
  intros Hb Hl. rewrite (start_run L b Hb Hl).
  destruct (accept_loop_spec (accepts L)
              {| clients := clients b; server_socket := Listening |})
    as [H1 [H2 [_ [_ [_ H6]]]]].
  destruct (accept_loop (accepts L)
              {| clients := clients b; server_socket := Listening |})
    as [[r b2] t2].
  unfold result_of, bridge_of, events_of in *. simpl in *.
  repeat split; assumption.
Qed.

Lemma start_admits_in_order_witness :
  start three_then_closed (serving [9])
  = (Some (Return tt), serving [9; 1; 2; 3],
     events_of (start three_then_closed (serving [9])))
  /\ count is_accept (events_of (start three_then_closed (serving [9]))) = 4.
Proof.
  destruct (start_admits_in_order three_then_closed (serving [9])
              eq_refl eq_refl) as [H1 [H2 H3]].
  split; [|exact H3].
  destruct (start three_then_closed (serving [9])) as [[r b'] t].
  unfold result_of, bridge_of, events_of in *. simpl in *.
  rewrite H1, H2. reflexivity.
Defined.

(** X12: [start] takes the Registry lock once for every consumer it
    adds and for nothing else; it never calls [accept] while it holds the
    lock, and the lock is free when it returns, when it raises and while
    it is blocked. *)
Theorem start_lock_discipline (L : listener) (b : bridge) :
  lock_held false (events_of (start L b)) = false
  /\ accept_outside_lock false (events_of (start L b)) = true
  /\ count is_acquire (events_of (start L b))
     = List.length (clients (bridge_of (start L b)))
       - List.length (clients b).
Proof.
  destruct (bind_result L) as [|fb] eqn:Hb.
  - destruct (listen_result L) as [|fl] eqn:Hl.
    + rewrite (start_run L b Hb Hl).
      destruct (accept_loop_spec (accepts L)
                  {| clients := clients b; server_socket := Listening |})
        as [_ [H2 [H3 [H4 [H5 _]]]]].
      destruct (accept_loop (accepts L)
                  {| clients := clients b; server_socket := Listening |})
        as [[r b2] t2].
      unfold result_of, bridge_of, events_of, count in *. simpl in *.
      subst b2. simpl. rewrite length_app, Nat.add_comm, Nat.add_sub.
      repeat split; assumption.
    + unfold start, listen_setup, try_except, bind, perform, set_server,
        logging, emit, ret.
      rewrite Hb, Hl. destruct fl; simpl; rewrite Nat.sub_diag;
        repeat split.
  - unfold start, listen_setup, try_except, bind, perform, set_server,
      logging, emit, ret.
    rewrite Hb. destruct fb; simpl; rewrite Nat.sub_diag; repeat split.
Qed.

Lemma deliveries_healthy (float_repr : spec_float -> list repr_char)
  (c : sock) (calls : list (PyVal * sockets)) :
  (forall call, In call calls -> healthy (snd call) c) ->
  deliveries float_repr c calls = encoded_records float_repr calls.
Proof.
  induction calls as [|[data net] rest IH]; intros Hok; [reflexivity|].
  unfold encoded_records in *. simpl.
  pose proof (Hok (data, net) (or_introl eq_refl)) as Hc.
  unfold healthy in Hc. simpl in Hc.
  rewrite (IH (fun call H => Hok call (or_intror H))).
  destruct (encode_payload float_repr (_convert_numpy_to_list data));
    [|reflexivity].
  unfold share, write_failed. rewrite Hc. reflexivity.
Qed.

(** X13: a consumer admitted by [start] on a fresh bridge is sent, by
    the [send_data] calls that follow, every record that serialises, in
    call order, as long as its own writes succeed; consumers that fail
    meanwhile are pruned without disturbing it.  (Accepted sockets are
    distinct, and every failed write is taken to be followed by a
    [getpeername()] that answers.) *)
Theorem admitted_consumers_are_served
  (float_repr : spec_float -> list repr_char) (L : listener)
  (calls : list (PyVal * sockets)) (c : sock) :
  bind_result L = Done ->
  listen_result L = Done ->
  NoDup (admitted (accepts L)) ->
  In c (admitted (accepts L)) ->
  (forall call, In call calls ->
                healthy (snd call) c /\ forall c', peer_known (snd call) c') ->
  sent_to c
    (events_of (send_all float_repr calls (bridge_of (start L new_bridge))))
  = encoded_records float_repr calls.
Proof.
  intros Hb Hl Hnd Hin Hcalls.
  rewrite (start_bridge L new_bridge Hb Hl). simpl.
  destruct (send_all_step float_repr calls
              {| clients := admitted (accepts L);
                 server_socket := Listening |} Hnd
              (fun call Hc => proj2 (Hcalls call Hc)))
    as [b' [t [Hrun [_ Hsent]]]].
  rewrite Hrun. unfold events_of. simpl. rewrite Hsent. simpl.
  apply mem_In in Hin. rewrite Hin.
  apply deliveries_healthy. intros call Hc. apply (Hcalls call Hc).
Qed.

Lemma admitted_consumers_are_served_witness :
  sent_to 1
    (events_of (send_all repr_integral scenario
                  (bridge_of (start three_then_closed new_bridge))))
  = encoded_records repr_integral scenario
  /\ List.length (encoded_records repr_integral scenario) = 2.
Proof.
  split; [|reflexivity].
  apply (admitted_consumers_are_served repr_integral three_then_closed
           scenario 1).
  - reflexivity.
  - reflexivity.
  - repeat constructor; simpl; intuition discriminate.
  - left. reflexivity.
  - intros call [<-|[<-|[<-|[]]]]; (split; [reflexivity|]);
      intros c' n _; reflexivity.
Defined.

(** ** The configuration built for the producer *)

Lemma lookup_assign_same {A : Type} (k : string) (v : A)
  (d : list (string * A)) :
  lookup k (assign k v d) = Some v.
Proof.
  induction d as [|[k' v'] r IH]; simpl.
  - rewrite String.eqb_refl. reflexivity.
  - destruct (String.eqb k k') eqn:E; simpl; rewrite E; [reflexivity|].
    exact IH.
Qed.

Lemma lookup_assign_other {A : Type} (q k : string) (v : A)
  (d : list (string * A)) :
  String.eqb q k = false ->
  lookup q (assign k v d) = lookup q d.
Proof.
  intros Hq. induction d as [|[k' v'] r IH]; simpl.
  - rewrite Hq. reflexivity.
  - destruct (String.eqb k k') eqn:E; simpl.
    + apply String.eqb_eq in E. subst k'. rewrite Hq. reflexivity.
    + rewrite IH. reflexivity.
Qed.

Lemma lookup_not_in {A : Type} (k : string) (d : list (string * A)) :
  ~ In k (map fst d) -> lookup k d = None.
Proof.
  induction d as [|[k' v'] r IH]; intros H; [reflexivity|].
  simpl in *. destruct (String.eqb k k') eqn:E.
  - apply String.eqb_eq in E. subst k'. exfalso. apply H. left. reflexivity.
  - apply IH. intros Hin. apply H. right. exact Hin.
Qed.

Lemma lookup_fold_assign (items : options) :
  forall (opts : options) (k : string),
    NoDup (map fst items) ->
    lookup k (fold_left (fun o kv => assign (fst kv) (snd kv) o) items opts)
    = match lookup k items with
      | Some v => Some v
      | None => lookup k opts
      end.
Proof.
  induction items as [|[k1 v1] rest IH]; intros opts k Hnd; [reflexivity|].
  simpl in *. inversion Hnd as [|? ? Hk1 Hrest]; subst.
  rewrite (IH _ k Hrest).
  destruct (String.eqb k k1) eqn:E.
  - apply String.eqb_eq in E. subst k1.
    rewrite (lookup_not_in k rest Hk1). apply lookup_assign_same.
  - destruct (lookup k rest); [reflexivity|].
    apply lookup_assign_other. exact E.
Qed.

Lemma ensure_section_other (q name : string) (cfg : config) :
  String.eqb q name = false ->
  lookup q (ensure_section name cfg) = lookup q cfg.
Proof.
  intros Hq. unfold ensure_section.
  destruct (lookup name cfg); [reflexivity|].
  apply lookup_assign_other. exact Hq.
Qed.

Lemma ensure_section_same (name : string) (cfg : config) :
  lookup name (ensure_section name cfg)
  = match lookup name cfg with
    | Some e => Some e
    | None => Some (Dict [])
    end.
Proof.
  unfold ensure_section. destruct (lookup name cfg) eqn:E; [exact E|].
  apply lookup_assign_same.
Qed.

Lemma set_options_dict (name : string) (items : options) :
  forall (cfg : config) (opts : options),
    lookup name cfg = Some (Dict opts) ->
    exists cfg',
      set_options name items cfg = Some cfg'
      /\ lookup name cfg'
         = Some (Dict (fold_left (fun o kv => assign (fst kv) (snd kv) o)
                         items opts))
      /\ forall q, String.eqb q name = false -> lookup q cfg' = lookup q cfg.
Proof.
  induction items as [|[k v] rest IH]; intros cfg opts Hl.
  - exists cfg. repeat split. exact Hl.
  - simpl. unfold set_option. rewrite Hl.
    destruct (IH (assign name (Dict (assign k v opts)) cfg)
                (assign k v opts) (lookup_assign_same _ _ _))
      as [cfg' [Hrun [Hs Ho]]].
    exists cfg'. split; [exact Hrun|]. split; [exact Hs|].
    intros q Hq. rewrite (Ho q Hq). apply lookup_assign_other. exact Hq.
Qed.

Lemma set_options_other (name : string) (items : options) (cfg c1 : config)
  (v : PyVal) :
  lookup name cfg = Some (Other v) ->
  set_options name items cfg = Some c1 ->
  items = [] /\ c1 = cfg.
Proof.
  intros Hl. destruct items as [|[k x] rest]; simpl.
  - intros E. injection E as <-. split; reflexivity.
  - unfold set_option. rewrite Hl. discriminate.
Qed.

Lemma apply_overrides_spec (name : string) (overrides cfg c1 : config) :
  apply_overrides name overrides cfg = Some c1 ->
  exists items,
    section_overrides name overrides = Some items
    /\ (NoDup (map fst items) ->
        forall k,
          lookup k (section_of name c1)
          = match lookup k items with
            | Some v => Some v
            | None => lookup k (section_of name cfg)
            end)
    /\ (forall q, String.eqb q name = false -> lookup q c1 = lookup q cfg).
Proof.
  unfold apply_overrides.
  destruct (section_overrides name overrides) as [items|]; [|discriminate].
  intros Hrun. exists items. split; [reflexivity|].
  pose proof (ensure_section_same name cfg) as Hs.
  destruct (lookup name cfg) as [[opts|v]|] eqn:El.
  - destruct (set_options_dict name items _ opts Hs) as [c [Hc [Hn Ho]]].
    rewrite Hc in Hrun. injection Hrun as <-. split.
    + intros Hnd k. unfold section_of. rewrite Hn, El.
      apply lookup_fold_assign. exact Hnd.
    + intros q Hq. rewrite (Ho q Hq). apply ensure_section_other. exact Hq.
  - destruct (set_options_other name items _ c1 v Hs Hrun) as [-> ->].
    split.
    + intros _ k. unfold section_of. rewrite Hs, El. reflexivity.
    + intros q Hq. apply ensure_section_other. exact Hq.
  - destruct (set_options_dict name items _ [] Hs) as [c [Hc [Hn Ho]]].
    rewrite Hc in Hrun. injection Hrun as <-. split.
    + intros Hnd k. unfold section_of. rewrite Hn, El.
      apply lookup_fold_assign. exact Hnd.
    + intros q Hq. rewrite (Ho q Hq). apply ensure_section_other. exact Hq.
Qed.

(** The four steps of a successful [build_config]. *)
Lemma build_config_steps (defaults overrides : config) (callback : PyVal)
  (cfg : config) :
  build_config defaults overrides callback = Some cfg ->
  exists c1 c2 opts,
    apply_overrides "base" overrides defaults = Some c1
    /\ apply_overrides "pose" overrides c1 = Some c2
    /\ lookup "logging" (ensure_section "logging" c2) = Some (Dict opts)
    /\ cfg
       = assign "process_callback_for_unity" (Other callback)
           (assign "logging"
              (Dict (assign "use_custom_logging" (PBool false) opts))
              (ensure_section "logging" c2)).
Proof.
  unfold build_config.
  destruct (apply_overrides "base" overrides defaults) as [c1|] eqn:E1;
    [|discriminate].
  destruct (apply_overrides "pose" overrides c1) as [c2|] eqn:E2;
    [|discriminate].
  unfold set_option.
  destruct (lookup "logging" (ensure_section "logging" c2))
    as [[opts|v]|] eqn:El; try discriminate.
  intros E. injection E as <-.
  exists c1, c2, opts. repeat split; assumption.
Qed.

Lemma build_config_keeps (defaults overrides : config) (callback : PyVal)
  (cfg : config) :
  build_config defaults overrides callback = Some cfg ->
  exists c1 c2,
    apply_overrides "base" overrides defaults = Some c1
    /\ apply_overrides "pose" overrides c1 = Some c2
    /\ lookup "base" cfg = lookup "base" c1
    /\ lookup "pose" cfg = lookup "pose" c2
    /\ lookup "pose" c1 = lookup "pose" defaults
    /\ lookup "logging" c2 = lookup "logging" defaults
    /\ (forall q,
           String.eqb q "base" = false ->
           String.eqb q "pose" = false ->
           String.eqb q "logging" = false ->
           String.eqb q "process_callback_for_unity" = false ->
           lookup q cfg = lookup q defaults).
Proof.
  intros Hb.
  destruct (build_config_steps _ _ _ _ Hb) as [c1 [c2 [opts [E1 [E2 [El ->]]]]]].
  destruct (apply_overrides_spec _ _ _ _ E1) as [i1 [_ [_ O1]]].
  destruct (apply_overrides_spec _ _ _ _ E2) as [i2 [_ [_ O2]]].
  exists c1, c2. split; [exact E1|]. split; [exact E2|].
  split; [|split; [|split; [|split]]].
  - rewrite lookup_assign_other by reflexivity.
    rewrite lookup_assign_other by reflexivity.
    rewrite ensure_section_other by reflexivity.
    apply O2. reflexivity.
  - rewrite lookup_assign_other by reflexivity.
    rewrite lookup_assign_other by reflexivity.
    apply ensure_section_other. reflexivity.
  - apply O1. reflexivity.
  - rewrite O2 by reflexivity. apply O1. reflexivity.
  - intros q Q1 Q2 Q3 Q4.
    rewrite (lookup_assign_other _ _ _ _ Q4).
    rewrite (lookup_assign_other _ _ _ _ Q3).
    rewrite (ensure_section_other _ _ _ Q3).
    rewrite (O2 q Q2). apply (O1 q Q1).
Qed.

(** X14: in the configuration handed to the producer, an option of the
    [base] or [pose] section has the value the overrides give it, and
    the value of [DEFAULT_CONFIG] when the overrides do not mention it;
    options the defaults lack are added. *)
Theorem build_config_overrides_win (defaults overrides : config)
  (callback : PyVal) (cfg : config) (name : string) (items : options) :
  build_config defaults overrides callback = Some cfg ->
  name = "base"%string \/ name = "pose"%string ->
  section_overrides name overrides = Some items ->
  NoDup (map fst items) ->
  forall k,
    lookup k (section_of name cfg)
    = match lookup k items with
      | Some v => Some v
      | None => lookup k (section_of name defaults)
      end.
Proof.
  intros Hb Hname Hov Hnd k.
  destruct (build_config_keeps _ _ _ _ Hb)
    as [c1 [c2 [E1 [E2 [K1 [K2 [K3 _]]]]]]].
  destruct Hname as [-> | ->].
  - destruct (apply_overrides_spec _ _ _ _ E1) as [i1 [S1 [M1 _]]].
    rewrite Hov in S1. injection S1 as <-.
    unfold section_of at 1. rewrite K1. apply (M1 Hnd k).
  - destruct (apply_overrides_spec _ _ _ _ E2) as [i2 [S2 [M2 _]]].
    rewrite Hov in S2. injection S2 as <-.
    unfold section_of at 1. rewrite K2.
    fold (section_of "pose" c2). rewrite (M2 Hnd k).
    unfold section_of. rewrite K3. reflexivity.
Qed.

Lemma build_config_overrides_win_witness :
  exists cfg,
    build_config sample_defaults our_config_overrides (PObject 0) = Some cfg
    /\ lookup "video_input" (section_of "base" cfg)
       = Some (PStr (str "webcam"))
    /\ lookup "save_pose" (section_of "base" cfg) = Some (PBool true)
    /\ lookup "mode" (section_of "pose" cfg) = Some (PStr (str "balanced")).
Proof.
  assert (Hnd1 : NoDup (map fst (section_of "base" our_config_overrides))).
  { simpl. repeat constructor; simpl; intuition discriminate. }
  assert (Hnd2 : NoDup (map fst (section_of "pose" our_config_overrides))).
  { simpl. repeat constructor; simpl; intuition discriminate. }
  eexists. split; [reflexivity|].
  split; [|split].
  - rewrite (build_config_overrides_win sample_defaults our_config_overrides
               (PObject 0) _ "base" _ eq_refl (or_introl eq_refl) eq_refl
               Hnd1 "video_input").
    reflexivity.
  - rewrite (build_config_overrides_win sample_defaults our_config_overrides
               (PObject 0) _ "base" _ eq_refl (or_introl eq_refl) eq_refl
               Hnd1 "save_pose").
    reflexivity.
  - rewrite (build_config_overrides_win sample_defaults our_config_overrides
               (PObject 0) _ "pose" _ eq_refl (or_intror eq_refl) eq_refl
               Hnd2 "mode").
    reflexivity.
Defined.

(** X15: whatever [DEFAULT_CONFIG] and the overrides say, the
    configuration handed to the producer has [use_custom_logging] set to
    [False] in its [logging] section, with the other logging options as
    in the defaults, and carries the bridge's callback under
    [process_callback_for_unity]. *)
Theorem build_config_forces_logging_and_callback
  (defaults overrides : config) (callback : PyVal) (cfg : config) :
  build_config defaults overrides callback = Some cfg ->
  lookup "use_custom_logging" (section_of "logging" cfg) = Some (PBool false)
  /\ (forall k,
         String.eqb k "use_custom_logging" = false ->
         lookup k (section_of "logging" cfg)
         = lookup k (section_of "logging" defaults))
  /\ lookup "process_callback_for_unity" cfg = Some (Other callback).
Proof.
  intros Hb.
  destruct (build_config_steps _ _ _ _ Hb)
    as [c1 [c2 [opts [E1 [E2 [El ->]]]]]].
  destruct (apply_overrides_spec _ _ _ _ E1) as [i1 [_ [_ O1]]].
  destruct (apply_overrides_spec _ _ _ _ E2) as [i2 [_ [_ O2]]].
  assert (K : lookup "logging" c2 = lookup "logging" defaults).
  { rewrite O2 by reflexivity. apply O1. reflexivity. }
  assert (Hlog : lookup "logging"
                   (assign "process_callback_for_unity" (Other callback)
                      (assign "logging"
                         (Dict (assign "use_custom_logging" (PBool false)
                                  opts))
                         (ensure_section "logging" c2)))
                 = Some (Dict (assign "use_custom_logging" (PBool false)
                                 opts))).
  { rewrite lookup_assign_other by reflexivity. apply lookup_assign_same. }
  split; [|split].
  - unfold section_of. rewrite Hlog. apply lookup_assign_same.
  - intros k Hk. unfold section_of at 1. rewrite Hlog.
    rewrite (lookup_assign_other _ _ _ _ Hk).
    rewrite ensure_section_same in El.
    unfold section_of. rewrite <- K.
    destruct (lookup "logging" c2) as [[o|v]|].
    + injection El as ->. reflexivity.
    + discriminate.
    + injection El as <-. reflexivity.
  - apply lookup_assign_same.
Qed.

Lemma build_config_forces_logging_and_callback_witness :
  exists cfg,
    build_config sample_defaults loud_overrides (PObject 0) = Some cfg
    /\ lookup "use_custom_logging" (section_of "logging" cfg)
       = Some (PBool false)
    /\ lookup "process_callback_for_unity" cfg = Some (Other (PObject 0)).
Proof.
  eexists. split; [reflexivity|].
  destruct (build_config_forces_logging_and_callback sample_defaults
              loud_overrides (PObject 0) _ eq_refl) as [H1 [_ H3]].
  split; [exact H1 | exact H3].
Defined.

(** X16: every entry of [DEFAULT_CONFIG] other than [base], [pose],
    [logging] and the callback reaches the producer unchanged, whatever
    the overrides hold: overrides for any other section are ignored. *)
Theorem build_config_ignores_other_sections
  (defaults overrides : config) (callback : PyVal) (cfg : config)
  (q : string) :
  build_config defaults overrides callback = Some cfg ->
  String.eqb q "base" = false ->
  String.eqb q "pose" = false ->
  String.eqb q "logging" = false ->
  String.eqb q "process_callback_for_unity" = false ->
  lookup q cfg = lookup q defaults.
Proof.
  intros Hb Q1 Q2 Q3 Q4.
  destruct (build_config_steps _ _ _ _ Hb)
    as [c1 [c2 [opts [E1 [E2 [El ->]]]]]].
  destruct (apply_overrides_spec _ _ _ _ E1) as [i1 [_ [_ O1]]].
  destruct (apply_overrides_spec _ _ _ _ E2) as [i2 [_ [_ O2]]].
  rewrite (lookup_assign_other _ _ _ _ Q4).
  rewrite (lookup_assign_other _ _ _ _ Q3).
  rewrite (ensure_section_other _ _ _ Q3).
  rewrite (O2 q Q2). apply (O1 q Q1).
Qed.

Lemma build_config_ignores_other_sections_witness :
  exists cfg,
    build_config sample_defaults loud_overrides (PObject 0) = Some cfg
    /\ lookup "px_to_meters_conversion" cfg
       = Some (Dict [("to_meters"%string, PBool true)]).
Proof.
  eexists. split; [reflexivity|].
  rewrite (build_config_ignores_other_sections sample_defaults
             loud_overrides (PObject 0) _ "px_to_meters_conversion"
             eq_refl eq_refl eq_refl eq_refl eq_refl).
  reflexivity.
Defined.

Lemma apply_overrides_succeeds (name : string) (overrides cfg : config) :
  section_or_missing name cfg = true ->
  section_or_missing name overrides = true ->
  exists c1, apply_overrides name overrides cfg = Some c1.
Proof.
  unfold section_or_missing, apply_overrides, section_overrides.
  intros Hc Ho.
  pose proof (ensure_section_same name cfg) as Hs.
  destruct (lookup name cfg) as [[opts|v]|]; try discriminate;
    destruct (lookup name overrides) as [[items|w]|]; try discriminate;
    match type of Hs with
    | _ = Some (Dict ?o) =>
        match goal with
        | |- exists c1, set_options name ?i _ = _ =>
            destruct (set_options_dict name i _ o Hs) as [c [Hrun _]];
            exists c; exact Hrun
        end
    end.
Qed.

(** X17: building the configuration goes through whenever the [base],
    [pose] and [logging] entries of [DEFAULT_CONFIG] and the [base] and
    [pose] entries of the overrides are dicts or are missing; a missing
    section is created.  It raises, before the producer is started, when
    the [base] entry of the overrides is not a dict. *)
Theorem build_config_succeeds (defaults overrides : config)
  (callback : PyVal) :
  (section_or_missing "base" defaults = true ->
   section_or_missing "pose" defaults = true ->
   section_or_missing "logging" defaults = true ->
   section_or_missing "base" overrides = true ->
   section_or_missing "pose" overrides = true ->
   exists cfg, build_config defaults overrides callback = Some cfg)
  /\ (section_or_missing "base" overrides = false ->
      build_config defaults overrides callback = None).
Proof.
  split.
  - intros D1 D2 D3 V1 V2. unfold build_config.
    destruct (apply_overrides_succeeds "base" overrides defaults D1 V1)
      as [c1 E1].
    rewrite E1.
    destruct (apply_overrides_spec _ _ _ _ E1) as [i1 [_ [_ O1]]].
    assert (D2' : section_or_missing "pose" c1 = true).
    { unfold section_or_missing in *. rewrite O1 by reflexivity. exact D2. }
    destruct (apply_overrides_succeeds "pose" overrides c1 D2' V2)
      as [c2 E2].
    rewrite E2.
    destruct (apply_overrides_spec _ _ _ _ E2) as [i2 [_ [_ O2]]].
    unfold set_option. rewrite ensure_section_same.
    rewrite O2, O1 by reflexivity.
    unfold section_or_missing in D3.
    destruct (lookup "logging" defaults) as [[o|v]|]; try discriminate;
      eexists; reflexivity.
  - unfold section_or_missing, build_config, apply_overrides,
      section_overrides.
    destruct (lookup "base" overrides) as [[o|v]|]; try discriminate.
    reflexivity.
Qed.

Lemma build_config_succeeds_witness :
  (exists cfg,
      build_config sample_defaults our_config_overrides (PObject 0)
      = Some cfg)
  /\ build_config sample_defaults broken_overrides (PObject 0) = None.
Proof.
  destruct (build_config_succeeds sample_defaults our_config_overrides
              (PObject 0)) as [H _].
  destruct (build_config_succeeds sample_defaults broken_overrides
              (PObject 0)) as [_ H'].
  split.
  - apply H; reflexivity.
  - apply H'. reflexivity.
Defined.
